(** * hashfile: streaming CRC-32 integrity comments

    A shallow embedding of the Go package [hashfile] (Writer, Reader,
    marker pattern, sliding-window loops, [ProcessFile]) together with
    the properties its specification states about it, followed by the
    rest of the package, its command-line tool [cmd/hashfile] and
    further properties of the code.

    Conventions.
    - A Go [[]byte] is a [list byte]; a Go [int] that indexes a slice is
      a [nat]. The slice expressions of the two streaming loops carry
      Go's bounds check (an out-of-range slice is the outcome [Panic]);
      those of [finalizeWindow] and [verifyWindow] are in range by the
      length tests that guard them and by what the matcher returns.
    - A [uint32] is a [Z] in [0, 2^32); [^x] is [Z.lxor x 0xFFFFFFFF].
    - [hash/crc32], [encoding/hex], [fmt.Sprintf "%08X"], [regexp] and
      [io.Reader] belong to the Go standard library; the parts the
      package calls are modelled below, each next to the Go code it
      stands for. *)

From Stdlib Require Import ZArith Lia Bool.
From Stdlib Require Import Strings.String Strings.Byte.
From Stdlib Require Import Strings.Ascii.
From stdpp Require Import base option list strings gmap.

Local Open Scope nat_scope.

(* ===================================================================== *)
(** ** Bytes *)
(* ===================================================================== *)

Definition bytes (s : string) : list byte := list_byte_of_string s.

Definition byte_to_Z (b : byte) : Z := Z.of_N (Byte.to_N b).

Definition byte_of_Z (z : Z) : byte :=
  match Byte.of_N (Z.to_N (Z.land z 0xFF)) with
  | Some b => b
  | None => "000"%byte
  end.

#[global] Instance byte_eq_dec : EqDecision byte := Byte.byte_eq_dec.

Definition LF : byte := "010"%byte.
Definition CR : byte := "013"%byte.

(* ===================================================================== *)
(** ** hash/crc32 (IEEE polynomial), as [simpleMakeTable]/[simpleUpdate] *)
(* ===================================================================== *)

Definition IEEE : Z := 0xedb88320.

(** The inner loop of [simplePopulateTable]: eight shift-and-xor rounds. *)
Fixpoint crc_rounds (j : nat) (crc : Z) : Z :=
  match j with
  | O => crc
  | S j' =>
      crc_rounds j'
        (if Z.testbit crc 0 then Z.lxor (Z.shiftr crc 1) IEEE
         else Z.shiftr crc 1)
  end.

Definition IEEETable (i : Z) : Z := crc_rounds 8 i.

(** [crc = tab[byte(crc)^v] ^ (crc >> 8)] *)
Definition crc_step (crc : Z) (v : byte) : Z :=
  Z.lxor (IEEETable (Z.lxor (Z.land crc 0xFF) (byte_to_Z v))) (Z.shiftr crc 8).

Definition simpleUpdate (crc : Z) (p : list byte) : Z :=
  let crc := Z.lxor crc 0xFFFFFFFF in
  let crc := fold_left crc_step p crc in
  Z.lxor crc 0xFFFFFFFF.

(** [hash.Hash32] as returned by [crc32.NewIEEE]: the running value. *)
Record digest := { crc : Z }.

Definition NewIEEE : digest := {| crc := 0 |}.
Definition hWrite (d : digest) (p : list byte) : digest :=
  {| crc := simpleUpdate (crc d) p |}.
Definition Sum32 (d : digest) : Z := crc d.

Definition ChecksumIEEE (p : list byte) : Z := Sum32 (hWrite NewIEEE p).

(* ===================================================================== *)
(** ** fmt.Sprintf("%08X") and encoding/hex.DecodeString *)
(* ===================================================================== *)

Definition upper_hex_digits : list byte := bytes "0123456789ABCDEF".

Definition hex_digit (d : Z) : byte :=
  nth (Z.to_nat d) upper_hex_digits "0"%byte.

(** [%08X] of a [uint32]: eight digits, most significant nibble first. *)
Definition fmt_08X (x : Z) : list byte :=
  map (fun k => hex_digit (Z.land (Z.shiftr x (4 * k)) 0xF))
      [7; 6; 5; 4; 3; 2; 1; 0]%Z.

(** [reverseHexTable]: both cases of a..f are accepted by [encoding/hex]. *)
Definition fromHexChar (c : byte) : option Z :=
  let v := byte_to_Z c in
  if (48 <=? v)%Z && (v <=? 57)%Z then Some (v - 48)%Z
  else if (97 <=? v)%Z && (v <=? 102)%Z then Some (v - 97 + 10)%Z
  else if (65 <=? v)%Z && (v <=? 70)%Z then Some (v - 65 + 10)%Z
  else None.

(** [hex.DecodeString]: [None] stands for [InvalidByteError] and
    [ErrLength]; the caller only tests [err == nil]. *)
Fixpoint hex_DecodeString (s : list byte) : option (list byte) :=
  match s with
  | [] => Some []
  | [_] => None
  | p :: q :: rest =>
      match fromHexChar p, fromHexChar q with
      | Some a, Some b =>
          match hex_DecodeString rest with
          | Some tl => Some (byte_of_Z (Z.lor (Z.shiftl a 4) b) :: tl)
          | None => None
          end
      | _, _ => None
      end
  end.

(** [uint32(b0)<<24 | uint32(b1)<<16 | uint32(b2)<<8 | uint32(b3)] *)
Definition be_uint32 (b0 b1 b2 b3 : byte) : Z :=
  Z.lor (Z.lor (Z.lor (Z.shiftl (byte_to_Z b0) 24) (Z.shiftl (byte_to_Z b1) 16))
               (Z.shiftl (byte_to_Z b2) 8))
        (byte_to_Z b3).

(* ===================================================================== *)
(** ** CommentStyle and Config *)
(* ===================================================================== *)

Record CommentStyle := { Prefix : list byte; Suffix : list byte }.

Definition GoStyle     := {| Prefix := bytes "// ";    Suffix := [] |}.
Definition CStyle      := {| Prefix := bytes "// ";    Suffix := [] |}.
Definition PythonStyle := {| Prefix := bytes "# ";     Suffix := [] |}.
Definition SQLStyle    := {| Prefix := bytes "-- ";    Suffix := [] |}.
Definition HTMLStyle   := {| Prefix := bytes "<!-- ";  Suffix := bytes " -->" |}.
Definition ShellStyle  := {| Prefix := bytes "# ";     Suffix := [] |}.
Definition RubyStyle   := {| Prefix := bytes "# ";     Suffix := [] |}.
Definition JSStyle     := {| Prefix := bytes "// ";    Suffix := [] |}.

Definition predefined_styles : list CommentStyle :=
  [GoStyle; CStyle; PythonStyle; SQLStyle; HTMLStyle; ShellStyle; RubyStyle; JSStyle].

Record Config := { Style : CommentStyle; BufferSize : nat }.

Definition DefaultConfig : Config :=
  {| Style := GoStyle; BufferSize := 64 * 1024 |}.

Definition key_text : list byte := bytes "FileIntegrity: ".

Definition maxCommentSize (c : Config) : nat :=
  length (Prefix (Style c)) + length key_text + 8 + length (Suffix (Style c)) + 2.

(** [windowSize := config.maxCommentSize() + 2] in both streaming loops. *)
Definition windowSize (c : Config) : nat := maxCommentSize c + 2.

(* ===================================================================== *)
(** ** regexp: the fragment used by [createCommentPattern]

    Go's [regexp] gives the leftmost match and, among the matches that
    start there, the one a backtracking search that prefers the greedy
    choice finds first. [backtrack] is that search in continuation
    style; [FindSubmatchIndex] tries the start offsets from left to
    right. Go reads the pattern and the text as UTF-8 and matches rune
    by rune, a byte that is not valid UTF-8 counting as U+FFFD, and
    [regexp.MustCompile] panics on a pattern that is not valid UTF-8.
    For a style whose prefix and suffix are ASCII ([ascii_style] below,
    which holds of every predefined style) the pattern is ASCII, every
    ASCII byte of the text is a rune of its own, and matching by rune
    is matching by byte: for such styles [createCommentPattern] is the
    Go matcher. What is stated about the marker lines the matcher
    finds is stated for them. *)
(* ===================================================================== *)

Inductive regex :=
| EmptyBeginLine                (* (?m)^ *)
| EmptyEndLine                  (* (?m)$ *)
| Literal (c : byte)
| CharClass (f : byte -> bool)
| Concat (r1 r2 : regex)
| Quest (r : regex)             (* greedy r? *)
| Capture (r : regex)           (* group 1 *)
| EmptyMatch.

Definition thread_result : Type := nat * (nat * nat).

Fixpoint backtrack (r : regex) (text : list byte) (pos : nat) (g : nat * nat)
    (k : nat -> nat * nat -> option thread_result) : option thread_result :=
  match r with
  | EmptyBeginLine =>
      match pos with
      | O => k pos g
      | S p => if decide (text !! p = Some LF) then k pos g else None
      end
  | EmptyEndLine =>
      match text !! pos with
      | None => k pos g
      | Some c => if decide (c = LF) then k pos g else None
      end
  | Literal c =>
      if decide (text !! pos = Some c) then k (S pos) g else None
  | CharClass f =>
      match text !! pos with
      | Some c => if f c then k (S pos) g else None
      | None => None
      end
  | Concat r1 r2 =>
      backtrack r1 text pos g (fun p g' => backtrack r2 text p g' k)
  | Quest r1 =>
      match backtrack r1 text pos g k with
      | Some res => Some res
      | None => k pos g
      end
  | Capture r1 =>
      backtrack r1 text pos g (fun p _ => k p (pos, p))
  | EmptyMatch => k pos g
  end.

(** The index slice [FindSubmatchIndex] returns: [match[0..3]]. Group 1
    is not optional in the pattern, so it is set in every match. *)
Record submatch := { match0 : nat; match1 : nat; match2 : nat; match3 : nat }.

Fixpoint find_from (re : regex) (text : list byte) (tries start : nat)
    : option submatch :=
  match backtrack re text start (0, 0) (fun p g => Some (p, g)) with
  | Some (e, (g0, g1)) =>
      Some {| match0 := start; match1 := e; match2 := g0; match3 := g1 |}
  | None =>
      match tries with
      | O => None
      | S tries' => find_from re text tries' (S start)
      end
  end.

Definition FindSubmatchIndex (re : regex) (text : list byte) : option submatch :=
  find_from re text (length text) 0.

(** A literal string, as [regexp.QuoteMeta] makes the parser read it. *)
Definition literal (s : list byte) : regex :=
  fold_right (fun c r => Concat (Literal c) r) EmptyMatch s.

Fixpoint times (k : nat) (r : regex) : regex :=
  match k with
  | O => EmptyMatch
  | S k' => Concat r (times k' r)
  end.

(** [[0-9A-F]] *)
Definition upper_hex (c : byte) : bool :=
  let v := byte_to_Z c in
  ((48 <=? v)%Z && (v <=? 57)%Z) || ((65 <=? v)%Z && (v <=? 70)%Z).

(** [(?m)^%sFileIntegrity: ([0-9A-F]{8})%s\r?\n?$] *)
Definition createCommentPattern (style : CommentStyle) : regex :=
  Concat EmptyBeginLine
    (Concat (literal (Prefix style))
      (Concat (literal key_text)
        (Concat (Capture (times 8 (CharClass upper_hex)))
          (Concat (literal (Suffix style))
            (Concat (Quest (Literal CR))
              (Concat (Quest (Literal LF)) EmptyEndLine)))))).

(** Prefix and suffix are ASCII. *)
Definition ascii_style (style : CommentStyle) : bool :=
  forallb (fun c => (byte_to_Z c <? 128)%Z) (Prefix style ++ Suffix style).

(* ===================================================================== *)
(** ** Writer: finalizeEmpty, finalizeWindow, createComment *)
(* ===================================================================== *)

Record Writer := { w_config : Config; w_pattern : regex }.

Definition NewWriter (config : Config) : Writer :=
  {| w_config := config; w_pattern := createCommentPattern (Style config) |}.

Fixpoint detect_from (prev : option byte) (content : list byte) : list byte :=
  match content with
  | [] => [LF]
  | c :: rest =>
      if decide (c = LF)
      then (if decide (prev = Some CR) then [CR; LF] else [LF])
      else detect_from (Some c) rest
  end.

(** The first newline decides; [prev] is [content[i-1]] when [i > 0]. *)
Definition detectLineEnding (content : list byte) : list byte :=
  detect_from None content.

Definition createComment (w : Writer) (crc : Z) (lineEnding : list byte) : list byte :=
  Prefix (Style (w_config w)) ++ key_text ++ fmt_08X crc
    ++ Suffix (Style (w_config w)) ++ lineEnding.

(** [writer] is what has been written to [dst] so far; the result is
    what has been written afterwards. *)
Definition finalizeEmpty (w : Writer) (writer : list byte) (hasher : digest) : list byte :=
  let crc := Sum32 hasher in
  let lineEnding := [LF] in
  writer ++ createComment w crc lineEnding.

(** [window[lo:hi]] for bounds the matcher returned. *)
Definition subslice (lo hi : nat) (l : list byte) : list byte :=
  take (hi - lo) (drop lo l).

Definition finalizeWindow (w : Writer) (writer : list byte) (hasher : digest)
    (window : list byte) : bool * list byte :=
  let '(contentPart, existingCRC, hasExistingComment) :=
    match FindSubmatchIndex (w_pattern w) window with
    | Some m =>
        let contentPart := take (match0 m) window in
        let crcHex := subslice (match2 m) (match3 m) window in
        match hex_DecodeString crcHex with
        | Some [b0; b1; b2; b3] => (contentPart, be_uint32 b0 b1 b2 b3, true)
        | _ => (contentPart, 0%Z, false)
        end
    | None => (window, 0%Z, false)
    end in
  let lineEnding := detectLineEnding window in
  let crcContent := contentPart in
  let len := length crcContent in
  let '(hasher, needsNewline) :=
    if 0 <? len then
      if decide (crcContent !! (len - 1) = Some LF) then
        if (1 <? len) && bool_decide (crcContent !! (len - 2) = Some CR)
        then (hWrite hasher (take (len - 2) crcContent), false)
        else (hWrite hasher (take (len - 1) crcContent), false)
      else (hWrite hasher crcContent, true)
    else (hasher, false) in
  let calculatedCRC := Sum32 hasher in
  if hasExistingComment && (calculatedCRC =? existingCRC)%Z then
    (true, writer ++ window)
  else
    let writer := writer ++ contentPart in
    let writer := if needsNewline then writer ++ lineEnding else writer in
    let comment := createComment w calculatedCRC lineEnding in
    (false, writer ++ comment).

(* ===================================================================== *)
(** ** Reader: verifyWindow *)
(* ===================================================================== *)

Record Reader := { r_config : Config; r_pattern : regex }.

Definition NewReader (config : Config) : Reader :=
  {| r_config := config; r_pattern := createCommentPattern (Style config) |}.

Inductive verify_error := EmptyFile | NoIntegrityComment | InvalidCRCFormat.

(** Go's [(bool, error)]: [inl valid] when the error is nil. *)
Definition verify_result : Type := bool + verify_error.

Definition verifyWindow (r : Reader) (hasher : digest) (window : list byte)
    : verify_result :=
  match FindSubmatchIndex (r_pattern r) window with
  | None => inr NoIntegrityComment
  | Some m =>
      let crcHex := subslice (match2 m) (match3 m) window in
      match hex_DecodeString crcHex with
      | Some [b0; b1; b2; b3] =>
          let storedCRC := be_uint32 b0 b1 b2 b3 in
          let contentPart := take (match0 m) window in
          let len := length contentPart in
          let hasher :=
            if 0 <? len then
              let contentPart :=
                if decide (contentPart !! (len - 1) = Some LF) then
                  if (1 <? len) && bool_decide (contentPart !! (len - 2) = Some CR)
                  then take (len - 2) contentPart
                  else take (len - 1) contentPart
                else contentPart in
              hWrite hasher contentPart
            else hasher in
          let calculatedCRC := Sum32 hasher in
          inl (calculatedCRC =? storedCRC)%Z
      | _ => inr InvalidCRCFormat
      end
  end.

(* ===================================================================== *)
(** ** io.Reader and Go slices

    A [source] is an [io.Reader] over in-memory bytes. [data] is what is
    still to be delivered. [plan] bounds the size of the coming reads,
    one entry per call (a pipe or socket returns short reads; a regular
    file has an empty plan and fills the slice it is given).
    [eof_with_data] says whether [io.EOF] comes with the last bytes or
    with a later, empty read; both are allowed by [io.Reader]. A read
    into an empty slice returns [0, nil], as [os.File] does. Sources
    never fail, so the [read error] and [write error] returns of the Go
    code have no counterpart. *)
(* ===================================================================== *)

Record source := { data : list byte; plan : list nat; eof_with_data : bool }.

Definition file_source (content : list byte) : source :=
  {| data := content; plan := []; eof_with_data := false |}.

(** [src.Read(p)] with [len(p) = cap]: the bytes read, whether the
    error is [io.EOF], and the source afterwards. *)
Definition Read (s : source) (cap : nat) : list byte * bool * source :=
  let want := match plan s with [] => cap | k :: _ => Nat.min k cap end in
  let chunk := take want (data s) in
  let rest := drop want (data s) in
  let eof :=
    match rest with
    | [] => (0 <? cap) && (eof_with_data s || (length chunk =? 0))
    | _ :: _ => false
    end in
  (chunk, eof, {| data := rest; plan := tail (plan s); eof_with_data := eof_with_data s |}).

Inductive outcome (A : Type) :=
| Done (a : A)
| Panic          (* slice bounds out of range *)
| OutOfFuel.     (* the loop is still running *)
Arguments Done {A} a.
Arguments Panic {A}.
Arguments OutOfFuel {A}.

#[global] Instance outcome_ret : MRet outcome := fun A a => Done a.
#[global] Instance outcome_bind : MBind outcome := fun A B f m =>
  match m with
  | Done a => f a
  | Panic => Panic
  | OutOfFuel => OutOfFuel
  end.

(** [b[lo:hi]], which panics unless [lo <= hi <= cap(b)]. *)
Definition go_slice (b : list byte) (lo hi : nat) : outcome (list byte) :=
  if decide (lo <= hi /\ hi <= length b) then Done (subslice lo hi b) else Panic.

(** The [int] difference [a - b] used as a slice bound: a negative bound
    panics. *)
Definition slice_bound (a b : nat) : outcome nat :=
  if decide (b <= a) then Done (a - b) else Panic.

(** [copy(buffer, part)] *)
Definition copy (buffer part : list byte) : list byte :=
  take (length buffer) (part ++ drop (length part) buffer).

(** [src.Read(buffer[n:])]: the buffer, the byte count, the EOF flag and
    the source afterwards. *)
Definition read_at (buffer : list byte) (n : nat) (s : source)
    : outcome (list byte * nat * bool * source) :=
  free ← go_slice buffer n (length buffer);
  let '(chunk, eof, s') := Read s (length free) in
  Done (take n buffer ++ chunk ++ drop (n + length chunk) buffer,
        length chunk, eof, s').

(* ===================================================================== *)
(** ** Writer.processStream *)
(* ===================================================================== *)

Record wstate := {
  buffer : list byte;
  n : nat;
  firstRead : bool;
  hasher : digest;
  writer : list byte;       (* bytes handed to the bufio.Writer *)
  src : source
}.

(** One iteration of [for !eof { ... }]. *)
Definition process_iter (W : nat) (st : wstate) : outcome (wstate * bool) :=
  st1 ←
    (if firstRead st then
       if W <? n st then
         let writeLen := n st - W in
         head ← go_slice (buffer st) 0 writeLen;
         tail ← go_slice (buffer st) writeLen (n st);
         Done {| buffer := copy (buffer st) tail;
                 n := n st - writeLen;
                 firstRead := false;
                 hasher := hWrite (hasher st) head;
                 writer := writer st ++ head;
                 src := src st |}
       else
         Done {| buffer := buffer st; n := n st; firstRead := false;
                 hasher := hasher st; writer := writer st; src := src st |}
     else
       k ← slice_bound (n st) W;
       head ← go_slice (buffer st) 0 k;
       tail ← go_slice (buffer st) k (n st);
       Done {| buffer := copy (buffer st) tail;
               n := W;
               firstRead := false;
               hasher := hWrite (hasher st) head;
               writer := writer st ++ head;
               src := src st |});
  '(buf, bytesRead, eof, s') ← read_at (buffer st1) (n st1) (src st1);
  Done ({| buffer := buf; n := n st1 + bytesRead; firstRead := firstRead st1;
           hasher := hasher st1; writer := writer st1; src := s' |}, eof).

Fixpoint process_loop (fuel W : nat) (st : wstate) (eof : bool) : outcome wstate :=
  if eof then Done st
  else match fuel with
       | O => OutOfFuel
       | S fuel' =>
           '(st', eof') ← process_iter W st;
           process_loop fuel' W st' eof'
       end.

(** The result is [(isNoOp, bytes written to dst)]; the deferred
    [writer.Flush()] makes the second everything handed to the writer. *)
Definition processStream (fuel : nat) (w : Writer) (s : source)
    : outcome (bool * list byte) :=
  let W := windowSize (w_config w) in
  let buffer0 := replicate (BufferSize (w_config w)) "000"%byte in
  '(buf, n0, eof, s') ← read_at buffer0 0 s;
  if n0 =? 0 then
    Done (false, finalizeEmpty w [] NewIEEE)
  else
    st ← process_loop fuel W
           {| buffer := buf; n := n0; firstRead := true;
              hasher := NewIEEE; writer := []; src := s' |} eof;
    window ← go_slice (buffer st) 0 (n st);
    Done (finalizeWindow w (writer st) (hasher st) window).

(* ===================================================================== *)
(** ** Reader.verifyStream *)
(* ===================================================================== *)

Record rstate := {
  r_buffer : list byte;
  r_n : nat;
  r_firstRead : bool;
  r_hasher : digest;
  r_src : source
}.

Definition verify_iter (W : nat) (st : rstate) : outcome (rstate * bool) :=
  st1 ←
    (if r_firstRead st then
       if W <? r_n st then
         let hashLen := r_n st - W in
         head ← go_slice (r_buffer st) 0 hashLen;
         tail ← go_slice (r_buffer st) hashLen (r_n st);
         Done {| r_buffer := copy (r_buffer st) tail;
                 r_n := r_n st - hashLen;
                 r_firstRead := false;
                 r_hasher := hWrite (r_hasher st) head;
                 r_src := r_src st |}
       else
         Done {| r_buffer := r_buffer st; r_n := r_n st; r_firstRead := false;
                 r_hasher := r_hasher st; r_src := r_src st |}
     else
       k ← slice_bound (r_n st) W;
       head ← go_slice (r_buffer st) 0 k;
       tail ← go_slice (r_buffer st) k (r_n st);
       Done {| r_buffer := copy (r_buffer st) tail;
               r_n := W;
               r_firstRead := false;
               r_hasher := hWrite (r_hasher st) head;
               r_src := r_src st |});
  '(buf, bytesRead, eof, s') ← read_at (r_buffer st1) (r_n st1) (r_src st1);
  Done ({| r_buffer := buf; r_n := r_n st1 + bytesRead;
           r_firstRead := r_firstRead st1; r_hasher := r_hasher st1;
           r_src := s' |}, eof).

Fixpoint verify_loop (fuel W : nat) (st : rstate) (eof : bool) : outcome rstate :=
  if eof then Done st
  else match fuel with
       | O => OutOfFuel
       | S fuel' =>
           '(st', eof') ← verify_iter W st;
           verify_loop fuel' W st' eof'
       end.

Definition verifyStream (fuel : nat) (r : Reader) (s : source)
    : outcome verify_result :=
  let W := windowSize (r_config r) in
  let buffer0 := replicate (BufferSize (r_config r)) "000"%byte in
  '(buf, n0, eof, s') ← read_at buffer0 0 s;
  if n0 =? 0 then
    Done (inr EmptyFile)
  else
    st ← verify_loop fuel W
           {| r_buffer := buf; r_n := n0; r_firstRead := true;
              r_hasher := NewIEEE; r_src := s' |} eof;
    window ← go_slice (r_buffer st) 0 (r_n st);
    Done (verifyWindow r (r_hasher st) window).

(* ===================================================================== *)
(** ** Writer.ProcessFile over a file system

    The operating system is a finite map from paths to files, a clock
    that stamps modification times, and the log of the calls made. The
    name [os.CreateTemp] picks is an input ([tmpName]); the call fails
    when that name is taken, as the exclusive create does. A file that
    [os.Stat] finds can be opened, and calls on the temporary file that
    was just created succeed, so the only errors are a missing target
    and a taken temporary name. A panic of the streaming pass unwinds
    through [ProcessFile]: the outcome is then [Panic].

    Outside this file system: [os.CreateTemp] itself retries until it
    finds a free name, and a run that is given a taken name stands for
    a run in which it fails; the error returns of the source that come
    later (open, stream, chmod, rename) and the deferred removal of the
    temporary file that goes with them are not reached. The process
    runs as the superuser: the files it creates belong to uid 0 and
    [os.Chown] succeeds. For another user [os.Chown] may fail, and
    [preserveAttributes] drops that error, so the owner of a replaced
    file is best effort in the source; no property below speaks of
    it. *)
(* ===================================================================== *)

Record file := {
  f_data : list byte;
  f_mode : nat;
  f_uid : nat;
  f_gid : nat;
  f_mtime : nat
}.

Inductive syscall :=
| SysStat (path : string)
| SysOpen (path : string)
| SysCreateTemp (path : string)
| SysWrite (path : string) (bs : list byte)
| SysRemove (path : string)
| SysChmod (path : string) (mode : nat)
| SysChown (path : string) (uid gid : nat)
| SysRename (oldpath newpath : string).

Record world := {
  files : gmap string file;
  clock : nat;
  trace : list syscall
}.

Definition log (e : syscall) (σ : world) : world :=
  {| files := files σ; clock := clock σ; trace := trace σ ++ [e] |}.

Definition set_files (fs : gmap string file) (σ : world) : world :=
  {| files := fs; clock := S (clock σ); trace := trace σ |}.

Definition sys_create (path : string) (σ : world) : world :=
  log (SysCreateTemp path)
    (set_files (<[path := {| f_data := []; f_mode := 384 (* 0600 *);
                             f_uid := 0; f_gid := 0; f_mtime := clock σ |}]>
                  (files σ)) σ).

Definition sys_write (path : string) (bs : list byte) (σ : world) : world :=
  log (SysWrite path bs)
    (set_files (alter (fun f => {| f_data := f_data f ++ bs; f_mode := f_mode f;
                                   f_uid := f_uid f; f_gid := f_gid f;
                                   f_mtime := clock σ |}) path (files σ)) σ).

Definition sys_remove (path : string) (σ : world) : world :=
  log (SysRemove path) (set_files (delete path (files σ)) σ).

Definition sys_chmod (path : string) (mode : nat) (σ : world) : world :=
  log (SysChmod path mode)
    (set_files (alter (fun f => {| f_data := f_data f; f_mode := mode;
                                   f_uid := f_uid f; f_gid := f_gid f;
                                   f_mtime := f_mtime f |}) path (files σ)) σ).

Definition sys_chown (path : string) (uid gid : nat) (σ : world) : world :=
  log (SysChown path uid gid)
    (set_files (alter (fun f => {| f_data := f_data f; f_mode := f_mode f;
                                   f_uid := uid; f_gid := gid;
                                   f_mtime := f_mtime f |}) path (files σ)) σ).

Definition sys_rename (oldpath newpath : string) (σ : world) : world :=
  log (SysRename oldpath newpath)
    (set_files (match files σ !! oldpath with
                | Some f => <[newpath := f]> (delete oldpath (files σ))
                | None => files σ
                end) σ).

(** Whether a call changes the file at [path] or its metadata. *)
Definition modifies (path : string) (e : syscall) : bool :=
  match e with
  | SysStat _ | SysOpen _ => false
  | SysCreateTemp p | SysWrite p _ | SysRemove p
  | SysChmod p _ | SysChown p _ _ => bool_decide (p = path)
  | SysRename p q => bool_decide (p = path) || bool_decide (q = path)
  end.

Inductive process_error := StatFailed | CreateTempFailed.

Definition preserveAttributes (dst : string) (srcInfo : file) (σ : world) : world :=
  let σ := sys_chmod dst (f_mode srcInfo) σ in
  sys_chown dst (f_uid srcInfo) (f_gid srcInfo) σ.

(** [None] is the nil error. *)
Definition ProcessFile (fuel : nat) (w : Writer) (filename tmpName : string)
    (σ : world) : outcome (option process_error * world) :=
  let σ := log (SysStat filename) σ in
  match files σ !! filename with
  | None => Done (Some StatFailed, σ)
  | Some origInfo =>
      let σ := log (SysOpen filename) σ in
      match files σ !! tmpName with
      | Some _ => Done (Some CreateTempFailed, σ)
      | None =>
          let σ := sys_create tmpName σ in
          '(isNoOp, out) ← processStream fuel w (file_source (f_data origInfo));
          let σ := sys_write tmpName out σ in
          if isNoOp : bool then
            let σ := sys_remove tmpName σ in
            Done (None, σ)
          else
            let σ := preserveAttributes tmpName origInfo σ in
            let σ := sys_rename tmpName filename σ in
            Done (None, σ)
      end
  end.

(* ===================================================================== *)
(** ** What the specification talks about *)
(* ===================================================================== *)

(** A marker line starts at offset [i] of [window] and carries [hex]:
    the line is anchored at a line start, the payload is eight
    upper-case hex digits, and the line ends after an optional CR and
    an optional LF. *)
Definition line_start (before : list byte) : Prop :=
  before = [] \/ last before = Some LF.

Definition line_end (after : list byte) : Prop :=
  after = [] \/ (exists rest, after = LF :: rest)
  \/ after = [CR] \/ (exists rest, after = CR :: LF :: rest).

Definition marker_line_at (style : CommentStyle) (window : list byte)
    (i : nat) (hex : list byte) : Prop :=
  exists before after,
    window = before ++ Prefix style ++ key_text ++ hex ++ Suffix style ++ after
    /\ length before = i
    /\ line_start before
    /\ length hex = 8 /\ Forall (fun c => upper_hex c = true) hex
    /\ line_end after.

(** The first marker line of the window. *)
Definition first_marker (style : CommentStyle) (window : list byte)
    (i : nat) (hex : list byte) : Prop :=
  marker_line_at style window i hex
  /\ forall j hex', j < i -> ~ marker_line_at style window j hex'.

(** The 32-bit value a marker payload embeds. *)
Definition marker_value (hex : list byte) : option Z :=
  match hex_DecodeString hex with
  | Some [b0; b1; b2; b3] => Some (be_uint32 b0 b1 b2 b3)
  | _ => None
  end.

(** The bytes of the window before the marker, all of it without one. *)
Definition content_part (re : regex) (window : list byte) : list byte :=
  match FindSubmatchIndex re window with
  | Some m => take (match0 m) window
  | None => window
  end.

(** The value embedded in the marker the matcher found, if any. *)
Definition stored_crc (re : regex) (window : list byte) : option Z :=
  match FindSubmatchIndex re window with
  | Some m => marker_value (subslice (match2 m) (match3 m) window)
  | None => None
  end.

(** One trailing line ending removed: CR LF as a whole, else a lone LF. *)
Definition strip_line_ending (l : list byte) : list byte :=
  match reverse l with
  | c :: d :: r =>
      if decide (c = LF)
      then (if decide (d = CR) then reverse r else reverse (d :: r))
      else l
  | [c] => if decide (c = LF) then [] else l
  | [] => []
  end.

(** A non-empty content part that does not end in LF. *)
Definition needs_newline (l : list byte) : bool :=
  match last l with
  | Some c => negb (bool_decide (c = LF))
  | None => false
  end.

(** The reference the streaming loops are compared with: the file is in
    memory, everything before its last [k] bytes is checksummed and
    written in one piece, and the last [k] bytes are the final window. *)
Definition reference_process (w : Writer) (content : list byte) (k : nat)
    : bool * list byte :=
  let before := take (length content - k) content in
  let window := drop (length content - k) content in
  finalizeWindow w before (hWrite NewIEEE before) window.

Definition reference_verify (r : Reader) (content : list byte) (k : nat)
    : verify_result :=
  let before := take (length content - k) content in
  let window := drop (length content - k) content in
  verifyWindow r (hWrite NewIEEE before) window.

(** The Reader's loop state is the Writer's without the output. *)
Definition forget (st : wstate) : rstate :=
  {| r_buffer := buffer st; r_n := n st; r_firstRead := firstRead st;
     r_hasher := hasher st; r_src := src st |}.

(** Inputs of the scenarios below. *)
Definition package_main : list byte := bytes "package main" ++ [LF].

Definition stale_marker_then_text : list byte :=
  bytes "x// FileIntegrity: 12345678" ++ [LF] ++ bytes "abc".

Definition stale_marker_only : list byte :=
  bytes "// FileIntegrity: 12345678" ++ [LF].

Definition two_markers : list byte :=
  bytes "// FileIntegrity: 00000000" ++ [LF]
    ++ bytes "// FileIntegrity: 11111111" ++ [LF].

Definition stamped_package_main : list byte :=
  package_main ++ bytes "// FileIntegrity: 7FE7DFB2" ++ [LF].

Definition restamped_once : list byte :=
  bytes "x// FileIntegrity: 8CDC1683" ++ [LF].

Definition restamped_twice : list byte :=
  restamped_once ++ bytes "// FileIntegrity: 377119E4" ++ [LF].

(** A file that ends in a carriage return without a line feed, what
    the Writer makes of it, and what a second run makes of that. *)
Definition cr_ended : list byte := bytes "abc" ++ [CR].

Definition cr_ended_stamped : list byte :=
  bytes "abc" ++ [CR; LF] ++ bytes "// FileIntegrity: D9EC14ED" ++ [LF].

Definition cr_ended_restamped : list byte :=
  bytes "abc" ++ [CR; LF] ++ bytes "// FileIntegrity: 352441C2" ++ [CR; LF].

Definition with_style (style : CommentStyle) : Config :=
  {| Style := style; BufferSize := 64 * 1024 |}.

(** Stamp a file, then verify what was written. *)
Definition round_trip (fuel : nat) (config : Config) (content : list byte)
    : outcome verify_result :=
  '(_, out) ← processStream fuel (NewWriter config) (file_source content);
  verifyStream fuel (NewReader config) (file_source out).

Definition short_reads : source :=
  {| data := bytes "0123456789"; plan := [5; 5]; eof_with_data := false |}.

Definition tight_config : Config := {| Style := GoStyle; BufferSize := 30 |}.

(** Auxiliary notions for reasoning about the matcher: the final
    continuation of a search, the tail [\r?\n?$] of the pattern, the
    offset of the payload of a marker that starts at [pos], and the
    conditions the pattern checks there, in the order it checks them. *)
Definition accept : nat -> nat * nat -> option thread_result :=
  fun p g => Some (p, g).

Definition line_end_re : regex :=
  Concat (Quest (Literal CR)) (Concat (Quest (Literal LF)) EmptyEndLine).

Definition hex_start (style : CommentStyle) (pos : nat) : nat :=
  pos + length (Prefix style) + length key_text.

Definition marker_facts (style : CommentStyle) (text : list byte) (pos : nat) : Prop :=
  (pos = 0 \/ exists p, pos = S p /\ text !! p = Some LF)
  /\ Prefix style `prefix_of` drop pos text
  /\ key_text `prefix_of` drop (pos + length (Prefix style)) text
  /\ (8 <= length (drop (hex_start style pos) text)
      /\ Forall (fun c => upper_hex c = true) (take 8 (drop (hex_start style pos) text)))
  /\ Suffix style `prefix_of` drop (hex_start style pos + 8) text
  /\ line_end (drop (hex_start style pos + 8 + length (Suffix style)) text).

(** Auxiliary notions for reasoning about the loops. [slide_amount]
    is the number of bytes an iteration folds into the checksum (and
    writes) before it slides the rest to the front; [None] is the
    out-of-range slice. [winv] relates a loop state to the content of
    the source; [file_inv] is what holds in addition on a file-like
    source. *)
Definition slide_amount (W : nat) (first : bool) (n : nat) : option nat :=
  if first then Some (if W <? n then n - W else 0)
  else if decide (W <= n) then Some (n - W) else None.

Definition winv (content : list byte) (st : wstate) : Prop :=
  n st <= length (buffer st)
  /\ writer st ++ take (n st) (buffer st) ++ data (src st) = content
  /\ hasher st = hWrite NewIEEE (writer st).

Definition file_inv (W : nat) (st : wstate) : Prop :=
  plan (src st) = [] /\ eof_with_data (src st) = false
  /\ W < length (buffer st)
  /\ (if firstRead st
      then writer st = [] /\ (n st < length (buffer st) -> data (src st) = [])
      else W <= n st).

Definition forty_bytes : list byte :=
  bytes "0123456789012345678901234567890123456789".

(** The loop state the tight configuration never leaves: the buffer is
    full of window, so every read is given an empty slice. *)
Definition tight_state : wstate :=
  {| buffer := take 30 forty_bytes; n := 30; firstRead := false;
     hasher := NewIEEE; writer := [];
     src := {| data := drop 30 forty_bytes; plan := []; eof_with_data := false |} |}.

(** A stamped file in a file system of its own. *)
Definition main_go : file :=
  {| f_data := stamped_package_main; f_mode := 420; f_uid := 1000;
     f_gid := 1000; f_mtime := 7 |}.

Definition one_file_world : world :=
  {| files := {[ "main.go"%string := main_go ]}; clock := 8; trace := [] |}.

(* ===================================================================== *)
(** ** The rest of the package and the command line *)
(* ===================================================================== *)

(** The last [W] bytes of a file, all of it when it is shorter: the
    window the streaming passes end with on a regular file. *)
Definition final_window (W : nat) (content : list byte) : list byte :=
  drop (length content - W) content.

(** The checksum a marker is to carry: CRC-32 of the content without
    one trailing line ending. *)
Definition crc_of_content (content : list byte) : Z :=
  Sum32 (hWrite NewIEEE (strip_line_ending content)).

(** ** Reader.VerifyFile, path/filepath.Ext, ConfigForExtension and the
    convenience functions of the package *)

(** [Reader.VerifyFile] adds one error of its own to those of the
    streaming pass: the file cannot be opened, which in this file
    system means that it does not exist. The error of the streaming
    pass is returned as it is. *)
Inductive verify_file_error := OpenFailed | StreamFailed (e : verify_error).

Definition VerifyFile (fuel : nat) (r : Reader) (filename : string) (σ : world)
    : outcome ((bool + verify_file_error) * world) :=
  let σ := log (SysOpen filename) σ in
  match files σ !! filename with
  | None => Done (inr OpenFailed, σ)
  | Some f =>
      res ← verifyStream fuel r (file_source (f_data f));
      Done (match res with
            | inl valid => inl valid
            | inr e => inr (StreamFailed e)
            end, σ)
  end.

(** [filepath.Ext] of the Go standard library, with the slash as the
    path separator: the suffix that starts at the last dot of the last
    path element, empty when that element has no dot. The scan runs
    from the end of the path and stops at the first dot or slash;
    [acc] is what it has passed. *)
Fixpoint ext_scan (rev_path acc : list ascii) : list ascii :=
  match rev_path with
  | [] => []
  | c :: rest =>
      if Ascii.eqb c "/" then []
      else if Ascii.eqb c "." then c :: acc
      else ext_scan rest (c :: acc)
  end.

Definition Ext (path : string) : string :=
  string_of_list_ascii (ext_scan (rev (list_ascii_of_string path)) []).

(** [config.CommentStyle = style] *)
Definition with_CommentStyle (config : Config) (style : CommentStyle) : Config :=
  {| Style := style; BufferSize := BufferSize config |}.

Definition ConfigForExtension (ext : string) : Config :=
  let config := DefaultConfig in
  if bool_decide (ext = ".go"%string) then with_CommentStyle config GoStyle
  else if bool_decide (ext ∈ [".c"; ".h"; ".cpp"; ".hpp"; ".cc"; ".cxx"; ".java";
                              ".js"; ".ts"; ".jsx"; ".tsx"]%string)
  then with_CommentStyle config CStyle
  else if bool_decide (ext = ".py"%string) then with_CommentStyle config PythonStyle
  else if bool_decide (ext = ".sql"%string) then with_CommentStyle config SQLStyle
  else if bool_decide (ext ∈ [".html"; ".htm"; ".xml"]%string)
  then with_CommentStyle config HTMLStyle
  else if bool_decide (ext ∈ [".sh"; ".bash"]%string)
  then with_CommentStyle config ShellStyle
  else if bool_decide (ext = ".rb"%string) then with_CommentStyle config RubyStyle
  else config.

(** The functions of the package that are not methods. The temporary
    name is an input, as for [Writer.ProcessFile]. *)
Module hashfile.

Definition ProcessGoFile (fuel : nat) (filename tmpName : string) (σ : world)
    : outcome (option process_error * world) :=
  let writer := NewWriter DefaultConfig in
  ProcessFile fuel writer filename tmpName σ.

Definition VerifyGoFile (fuel : nat) (filename : string) (σ : world)
    : outcome ((bool + verify_file_error) * world) :=
  let reader := NewReader DefaultConfig in
  VerifyFile fuel reader filename σ.

Definition ProcessFile (fuel : nat) (filename tmpName : string) (σ : world)
    : outcome (option process_error * world) :=
  let ext := Ext filename in
  let config := ConfigForExtension ext in
  let writer := NewWriter config in
  ProcessFile fuel writer filename tmpName σ.

Definition VerifyFile (fuel : nat) (filename : string) (σ : world)
    : outcome ((bool + verify_file_error) * world) :=
  let ext := Ext filename in
  let config := ConfigForExtension ext in
  let reader := NewReader config in
  VerifyFile fuel reader filename σ.

End hashfile.

(** What [ProcessFile] leaves at the target after a modification: the
    new bytes under the attributes of the original, stamped with the
    time of the write to the temporary file. *)
Definition replaced (f : file) (out : list byte) (σ : world) : file :=
  {| f_data := out; f_mode := f_mode f; f_uid := f_uid f; f_gid := f_gid f;
     f_mtime := S (clock σ) |}.

(** ** cmd/hashfile: the configuration and the file arguments

    What the commands print is outside the model: of
    [getConfigForStyle] the configuration it returns, not the warning
    it writes for an unknown style. [filepath.Glob] and [os.Stat] are
    the answers of the operating system: [Glob pattern] is [None] for
    a malformed pattern, [Stat path] is [None] when the call fails and
    otherwise tells whether the path is a directory. *)

Definition getConfigForStyle (style : string) : Config :=
  let config := DefaultConfig in
  if bool_decide (style = "go"%string) then with_CommentStyle config GoStyle
  else if bool_decide (style ∈ ["python"; "py"]%string)
  then with_CommentStyle config PythonStyle
  else if bool_decide (style ∈ ["c"; "cpp"; "java"; "js"; "javascript"]%string)
  then with_CommentStyle config CStyle
  else if bool_decide (style = "sql"%string) then with_CommentStyle config SQLStyle
  else if bool_decide (style ∈ ["html"; "xml"]%string)
  then with_CommentStyle config HTMLStyle
  else if bool_decide (style ∈ ["shell"; "sh"; "bash"]%string)
  then with_CommentStyle config ShellStyle
  else if bool_decide (style ∈ ["ruby"; "rb"]%string)
  then with_CommentStyle config RubyStyle
  else config.

Definition getConfig (filename styleFlag : string) : Config :=
  if bool_decide (styleFlag <> ""%string) then getConfigForStyle styleFlag
  else
    let ext := Ext filename in
    ConfigForExtension ext.

(** The wildcards are ASCII, so the loop over the runes of [s] sees
    one exactly when a byte of [s] is one. *)
Definition containsWildcard (s : string) : bool :=
  existsb (fun c => Ascii.eqb c "*" || Ascii.eqb c "?" || Ascii.eqb c "[")
          (list_ascii_of_string s).

Inductive expand_error := InvalidPattern (pattern : string).

(** [if !seen[name] { files = append(files, name); seen[name] = true }] *)
Definition add_unseen (st : list string * gset string) (name : string)
    : list string * gset string :=
  if decide (name ∈ st.2) then st else (st.1 ++ [name], {[ name ]} ∪ st.2).

(** The loop over the matches of one pattern: only regular files. *)
Definition add_matches (Stat : string -> option bool) (matches : list string)
    (st : list string * gset string) : list string * gset string :=
  foldl (fun st m =>
           match Stat m with
           | None => st
           | Some isDir => if isDir : bool then st else add_unseen st m
           end) st matches.

Fixpoint expand_loop (Glob : string -> option (list string))
    (Stat : string -> option bool) (patterns : list string)
    (st : list string * gset string) : list string + expand_error :=
  match patterns with
  | [] => inl st.1
  | pattern :: rest =>
      if negb (containsWildcard pattern) then
        expand_loop Glob Stat rest (add_unseen st pattern)
      else
        match Glob pattern with
        | None => inr (InvalidPattern pattern)
        | Some matches => expand_loop Glob Stat rest (add_matches Stat matches st)
        end
  end.

Definition expandFiles (Glob : string -> option (list string))
    (Stat : string -> option bool) (patterns : list string)
    : list string + expand_error :=
  expand_loop Glob Stat patterns ([], ∅).

(** What [expandFiles] is to return: the names that come from a
    pattern, literally or as a regular file among its matches. *)
Definition names (Glob : string -> option (list string))
    (Stat : string -> option bool) (pattern name : string) : Prop :=
  if containsWildcard pattern
  then exists matches, Glob pattern = Some matches /\ name ∈ matches
                       /\ Stat name = Some false
  else name = pattern.

(** The loop invariant of [expandFiles]: [seen] holds exactly the
    names in [files], each once. *)
Definition seen_inv (st : list string * gset string) : Prop :=
  NoDup st.1 /\ forall x, x ∈ st.2 <-> x ∈ st.1.

(** ** cmd/hashfile: the commands

    A command is modelled from the parsed flags on: [style] and
    [quiet] are the values of the flags, [patterns] is [fs.Args()].
    The result is the exit code and the file system afterwards; the
    loops keep the lists and counters of the source, from which the
    messages are printed. [tmp] gives the name [os.CreateTemp] picks
    while a file is processed. *)

Fixpoint runAdd_loop (fuel : nat) (tmp : string -> string) (style : string)
    (allFiles : list string) (errors : list (string * process_error))
    (successCount : nat) (σ : world)
    : outcome (list (string * process_error) * nat * world) :=
  match allFiles with
  | [] => Done (errors, successCount, σ)
  | file :: rest =>
      let config := getConfig file style in
      let writer := NewWriter config in
      '(err, σ) ← ProcessFile fuel writer file (tmp file) σ;
      match err with
      | Some e => runAdd_loop fuel tmp style rest (errors ++ [(file, e)]) successCount σ
      | None => runAdd_loop fuel tmp style rest errors (successCount + 1) σ
      end
  end.

Definition runAdd (fuel : nat) (Glob : string -> option (list string))
    (Stat : string -> option bool) (tmp : string -> string)
    (style : string) (patterns : list string) (σ : world) : outcome (Z * world) :=
  if length patterns =? 0 then Done (1%Z, σ)
  else
    match expandFiles Glob Stat patterns with
    | inr _ => Done (1%Z, σ)
    | inl allFiles =>
        '(errors, successCount, σ) ← runAdd_loop fuel tmp style allFiles [] 0 σ;
        if 0 <? length errors then Done (1%Z, σ) else Done (0%Z, σ)
    end.

Fixpoint runVerify_loop (fuel : nat) (style : string) (allFiles : list string)
    (errors : list (string * verify_file_error)) (invalid : list string)
    (validCount : nat) (σ : world)
    : outcome (list (string * verify_file_error) * list string * nat * world) :=
  match allFiles with
  | [] => Done (errors, invalid, validCount, σ)
  | file :: rest =>
      let config := getConfig file style in
      let reader := NewReader config in
      '(res, σ) ← VerifyFile fuel reader file σ;
      match res with
      | inr err =>
          runVerify_loop fuel style rest (errors ++ [(file, err)]) invalid validCount σ
      | inl valid =>
          if negb valid
          then runVerify_loop fuel style rest errors (invalid ++ [file]) validCount σ
          else runVerify_loop fuel style rest errors invalid (validCount + 1) σ
      end
  end.

Definition runVerify (fuel : nat) (Glob : string -> option (list string))
    (Stat : string -> option bool) (style : string) (quiet : bool)
    (patterns : list string) (σ : world) : outcome (Z * world) :=
  if length patterns =? 0 then Done (1%Z, σ)
  else
    match expandFiles Glob Stat patterns with
    | inr _ => Done (1%Z, σ)
    | inl allFiles =>
        '(errors, invalid, validCount, σ) ←
          runVerify_loop fuel style allFiles [] [] 0 σ;
        if (0 <? length errors) || (0 <? length invalid)
        then Done (1%Z, σ) else Done (0%Z, σ)
    end.

Fixpoint runCheck_loop (fuel : nat) (style : string) (allFiles : list string)
    (validCount invalidCount errorCount : nat) (σ : world)
    : outcome (nat * nat * nat * world) :=
  match allFiles with
  | [] => Done (validCount, invalidCount, errorCount, σ)
  | file :: rest =>
      let config := getConfig file style in
      let reader := NewReader config in
      '(res, σ) ← VerifyFile fuel reader file σ;
      match res with
      | inr err =>
          runCheck_loop fuel style rest validCount invalidCount (errorCount + 1) σ
      | inl valid =>
          if valid : bool
          then runCheck_loop fuel style rest (validCount + 1) invalidCount errorCount σ
          else runCheck_loop fuel style rest validCount (invalidCount + 1) errorCount σ
      end
  end.

Definition runCheck (fuel : nat) (Glob : string -> option (list string))
    (Stat : string -> option bool) (style : string)
    (patterns : list string) (σ : world) : outcome (Z * world) :=
  if length patterns =? 0 then Done (1%Z, σ)
  else
    match expandFiles Glob Stat patterns with
    | inr _ => Done (1%Z, σ)
    | inl allFiles =>
        '(validCount, invalidCount, errorCount, σ) ←
          runCheck_loop fuel style allFiles 0 0 0 σ;
        if (0 <? invalidCount) || (0 <? errorCount)
        then Done (1%Z, σ) else Done (0%Z, σ)
    end.

(** The file at [path] exists and the Reader chosen for it finds it
    valid. *)
Definition valid_in (fuel : nat) (style : string) (σ : world) (path : string) : Prop :=
  exists f, files σ !! path = Some f
            /\ verifyStream fuel (NewReader (getConfig path style))
                 (file_source (f_data f)) = Done (inl true).

(** Inputs of the examples below: a Python file in a file system of its own,
    what stamping makes of it, and the answers of a directory that
    holds [a.go], [b.go] and a subdirectory [dir.go]. *)
Definition hello_py : file :=
  {| f_data := bytes "print(1)" ++ [LF]; f_mode := 493; f_uid := 1000;
     f_gid := 100; f_mtime := 3 |}.

Definition py_world : world :=
  {| files := {[ "src/hello.py"%string := hello_py ]}; clock := 4; trace := [] |}.

Definition hello_py_stamped : list byte :=
  bytes "print(1)" ++ [LF] ++ bytes "# FileIntegrity: ED90A708" ++ [LF].

Definition go_dir_Glob (pattern : string) : option (list string) :=
  if String.eqb pattern "*.go" then Some ["a.go"; "b.go"; "dir.go"]%string
  else if String.eqb pattern "[" then None
  else Some [].

Definition go_dir_Stat (path : string) : option bool :=
  if String.eqb path "dir.go" then Some true
  else if String.eqb path "a.go" || String.eqb path "b.go" then Some false
  else None.

(* ===================================================================== *)
(** * Properties *)
(* ===================================================================== *)


(** ** Fuel: a finished run is not changed by more fuel *)

Lemma process_loop_eof fuel W st : process_loop fuel W st true = Done st.
Proof. destruct fuel; reflexivity. Qed.

Lemma process_loop_stable fuel :
  forall W st eof o,
    process_loop fuel W st eof = o -> o <> OutOfFuel ->
    forall fuel', fuel <= fuel' -> process_loop fuel' W st eof = o.
Proof.
  induction fuel as [|fuel IH]; intros W st eof o Hrun Hne fuel' Hle.
  - destruct eof; simpl in Hrun; [|congruence].
    rewrite process_loop_eof. exact Hrun.
  - destruct eof; [rewrite process_loop_eof; rewrite process_loop_eof in Hrun; exact Hrun|].
    destruct fuel' as [|fuel']; [lia|].
    simpl in *. destruct (process_iter W st) as [[st1 eof1]| |]; simpl in *; try exact Hrun.
    apply IH; [exact Hrun | exact Hne | lia].
Qed.

Lemma verify_loop_eof fuel W st : verify_loop fuel W st true = Done st.
Proof. destruct fuel; reflexivity. Qed.

Lemma verify_loop_stable fuel :
  forall W st eof o,
    verify_loop fuel W st eof = o -> o <> OutOfFuel ->
    forall fuel', fuel <= fuel' -> verify_loop fuel' W st eof = o.
Proof.
  induction fuel as [|fuel IH]; intros W st eof o Hrun Hne fuel' Hle.
  - destruct eof; simpl in Hrun; [|congruence].
    rewrite verify_loop_eof. exact Hrun.
  - destruct eof; [rewrite verify_loop_eof; rewrite verify_loop_eof in Hrun; exact Hrun|].
    destruct fuel' as [|fuel']; [lia|].
    simpl in *. destruct (verify_iter W st) as [[st1 eof1]| |]; simpl in *; try exact Hrun.
    apply IH; [exact Hrun | exact Hne | lia].
Qed.

(** More fuel does not change an outcome other than [OutOfFuel]. *)
Lemma processStream_stable fuel fuel' w s o :
  processStream fuel w s = o -> o <> OutOfFuel -> fuel <= fuel' ->
  processStream fuel' w s = o.
Proof.
  unfold processStream. intros Hrun Hne Hle.
  destruct (read_at _ 0 s) as [[[[buf n0] eof] s']| |]; simpl in *; try exact Hrun.
  destruct (n0 =? 0); [exact Hrun|].
  destruct (process_loop fuel _ _ eof) as [st| |] eqn:Hloop; simpl in Hrun.
  - rewrite (process_loop_stable _ _ _ _ _ Hloop ltac:(discriminate) _ Hle). exact Hrun.
  - rewrite (process_loop_stable _ _ _ _ _ Hloop ltac:(discriminate) _ Hle). exact Hrun.
  - subst o. contradiction Hne. reflexivity.
Qed.

Lemma verifyStream_stable fuel fuel' r s o :
  verifyStream fuel r s = o -> o <> OutOfFuel -> fuel <= fuel' ->
  verifyStream fuel' r s = o.
Proof.
  unfold verifyStream. intros Hrun Hne Hle.
  destruct (read_at _ 0 s) as [[[[buf n0] eof] s']| |]; simpl in *; try exact Hrun.
  destruct (n0 =? 0); [exact Hrun|].
  destruct (verify_loop fuel _ _ eof) as [st| |] eqn:Hloop; simpl in Hrun.
  - rewrite (verify_loop_stable _ _ _ _ _ Hloop ltac:(discriminate) _ Hle). exact Hrun.
  - rewrite (verify_loop_stable _ _ _ _ _ Hloop ltac:(discriminate) _ Hle). exact Hrun.
  - subst o. contradiction Hne. reflexivity.
Qed.

(** Two runs that both finish agree, whatever fuel each had. *)
Lemma processStream_agree f1 f2 w s o1 o2 :
  processStream f1 w s = o1 -> processStream f2 w s = o2 ->
  o1 <> OutOfFuel -> o2 <> OutOfFuel -> o1 = o2.
Proof.
  intros H1 H2 N1 N2.
  pose proof (processStream_stable _ (Nat.max f1 f2) _ _ _ H1 N1 ltac:(lia)) as E1.
  pose proof (processStream_stable _ (Nat.max f1 f2) _ _ _ H2 N2 ltac:(lia)) as E2.
  congruence.
Qed.

Lemma verifyStream_agree f1 f2 r s o1 o2 :
  verifyStream f1 r s = o1 -> verifyStream f2 r s = o2 ->
  o1 <> OutOfFuel -> o2 <> OutOfFuel -> o1 = o2.
Proof.
  intros H1 H2 N1 N2.
  pose proof (verifyStream_stable _ (Nat.max f1 f2) _ _ _ H1 N1 ltac:(lia)) as E1.
  pose proof (verifyStream_stable _ (Nat.max f1 f2) _ _ _ H2 N2 ltac:(lia)) as E2.
  congruence.
Qed.

(** ** Checksum coverage of the final window *)

Lemma lxor_mask_involutive (x m : Z) : Z.lxor (Z.lxor x m) m = x.
Proof. rewrite Z.lxor_assoc, Z.lxor_nilpotent, Z.lxor_0_r. reflexivity. Qed.

Lemma simpleUpdate_nil c : simpleUpdate c [] = c.
Proof. unfold simpleUpdate. simpl. apply lxor_mask_involutive. Qed.

Lemma simpleUpdate_app c p q :
  simpleUpdate c (p ++ q) = simpleUpdate (simpleUpdate c p) q.
Proof.
  unfold simpleUpdate. rewrite fold_left_app, lxor_mask_involutive. reflexivity.
Qed.

Lemma hWrite_nil h : hWrite h [] = h.
Proof. destruct h as [c]. unfold hWrite. simpl. rewrite simpleUpdate_nil. reflexivity. Qed.

Lemma hWrite_app h p q : hWrite h (p ++ q) = hWrite (hWrite h p) q.
Proof. unfold hWrite. simpl. rewrite simpleUpdate_app. reflexivity. Qed.

Lemma snoc_cases (l : list byte) : l = [] \/ exists l' x, l = l' ++ [x].
Proof.
  induction l as [|l' x _] using rev_ind; [left; reflexivity|right; eauto].
Qed.

Lemma strip_line_ending_crlf l : strip_line_ending (l ++ [CR; LF]) = l.
Proof.
  unfold strip_line_ending.
  replace (l ++ [CR; LF]) with ((l ++ [CR]) ++ [LF]) by (rewrite <- app_assoc; reflexivity).
  rewrite !reverse_snoc. simpl. apply reverse_involutive.
Qed.

Lemma strip_line_ending_lf l :
  last l <> Some CR -> strip_line_ending (l ++ [LF]) = l.
Proof.
  intros Hl. unfold strip_line_ending. rewrite reverse_snoc.
  destruct (snoc_cases l) as [->|(l' & x & ->)]; simpl.
  - reflexivity.
  - rewrite reverse_snoc. simpl. rewrite last_snoc in Hl.
    destruct (decide (x = CR)) as [->|_]; [congruence|].
    rewrite reverse_cons, reverse_involutive. reflexivity.
Qed.

Lemma strip_line_ending_none l :
  last l <> Some LF -> strip_line_ending l = l.
Proof.
  intros Hl. unfold strip_line_ending.
  destruct (snoc_cases l) as [->|(l' & x & ->)]; [reflexivity|].
  rewrite last_snoc in Hl. rewrite reverse_snoc.
  destruct (reverse l'); destruct (decide (x = LF)) as [->|_]; congruence.
Qed.

Lemma needs_newline_snoc l x :
  needs_newline (l ++ [x]) = negb (bool_decide (x = LF)).
Proof. unfold needs_newline. rewrite last_snoc. reflexivity. Qed.

(** The Writer's nested tests compute [strip_line_ending] and
    [needs_newline]. *)
Lemma writer_coverage (hasher : digest) (l : list byte) :
  (if 0 <? length l then
     if decide (l !! (length l - 1) = Some LF) then
       if (1 <? length l) && bool_decide (l !! (length l - 2) = Some CR)
       then (hWrite hasher (take (length l - 2) l), false)
       else (hWrite hasher (take (length l - 1) l), false)
     else (hWrite hasher l, true)
   else (hasher, false))
  = (hWrite hasher (strip_line_ending l), needs_newline l).
Proof.
  destruct (snoc_cases l) as [->|(l1 & x & ->)].
  { simpl. rewrite hWrite_nil. reflexivity. }
  rewrite needs_newline_snoc, length_app. simpl length.
  replace (0 <? length l1 + 1) with true by (symmetry; apply Nat.ltb_lt; lia).
  replace (length l1 + 1 - 1) with (length l1) by lia.
  rewrite list_lookup_middle by reflexivity.
  destruct (decide (x = LF)) as [->|NE].
  - rewrite (bool_decide_true (LF = LF)) by reflexivity.
    rewrite decide_True by reflexivity. simpl negb.
    rewrite take_app_length.
    destruct (snoc_cases l1) as [->|(l2 & y & ->)].
    { simpl. reflexivity. }
    rewrite length_app. simpl length.
    replace (1 <? length l2 + 1 + 1) with true by (symmetry; apply Nat.ltb_lt; lia).
    replace (length l2 + 1 + 1 - 2) with (length l2) by lia.
    rewrite <- app_assoc. simpl app.
    rewrite list_lookup_middle by reflexivity. simpl andb.
    destruct (decide (y = CR)) as [->|NY].
    + rewrite bool_decide_true by reflexivity.
      rewrite strip_line_ending_crlf, take_app_length. reflexivity.
    + rewrite bool_decide_false by congruence.
      replace (l2 ++ [y; LF]) with ((l2 ++ [y]) ++ [LF]) by (rewrite <- app_assoc; reflexivity).
      rewrite strip_line_ending_lf; [reflexivity|].
      rewrite last_snoc. congruence.
  - rewrite (bool_decide_false (x = LF)) by exact NE.
    rewrite decide_False by congruence. simpl negb.
    rewrite strip_line_ending_none; [reflexivity|].
    rewrite last_snoc. congruence.
Qed.

Lemma reader_coverage (hasher : digest) (l : list byte) :
  (if 0 <? length l then
     hWrite hasher
       (if decide (l !! (length l - 1) = Some LF) then
          if (1 <? length l) && bool_decide (l !! (length l - 2) = Some CR)
          then take (length l - 2) l
          else take (length l - 1) l
        else l)
   else hasher)
  = hWrite hasher (strip_line_ending l).
Proof.
  pose proof (writer_coverage hasher l) as H.
  destruct (0 <? length l);
    [destruct (decide _); [destruct (_ && _)|]|];
    apply (f_equal fst) in H; exact H.
Qed.

Lemma verifyWindow_eq (r : Reader) (hasher : digest) (window : list byte) :
  verifyWindow r hasher window =
  match FindSubmatchIndex (r_pattern r) window with
  | None => inr NoIntegrityComment
  | Some m =>
      match marker_value (subslice (match2 m) (match3 m) window) with
      | Some stored =>
          inl (Sum32 (hWrite hasher (strip_line_ending (take (match0 m) window)))
               =? stored)%Z
      | None => inr InvalidCRCFormat
      end
  end.
Proof.
  unfold verifyWindow, marker_value.
  destruct (FindSubmatchIndex _ _) as [m|]; [|reflexivity].
  destruct (hex_DecodeString _) as [[|b0 [|b1 [|b2 [|b3 [|b4 tl]]]]]|]; try reflexivity.
  rewrite reader_coverage. reflexivity.
Qed.

Lemma finalizeWindow_eq (w : Writer) (writer : list byte) (hasher : digest)
    (window : list byte) :
  finalizeWindow w writer hasher window =
  let cp := content_part (w_pattern w) window in
  let le := detectLineEnding window in
  let calc := Sum32 (hWrite hasher (strip_line_ending cp)) in
  if decide (stored_crc (w_pattern w) window = Some calc)
  then (true, writer ++ window)
  else (false, writer ++ cp ++ (if needs_newline cp then le else [])
                 ++ createComment w calc le).
Proof.
  assert (Hcore : forall (cp : list byte) (existing : Z) (has : bool),
    (let '(hasher0, needsNewline) :=
       if 0 <? length cp then
         if decide (cp !! (length cp - 1) = Some LF) then
           if (1 <? length cp) && bool_decide (cp !! (length cp - 2) = Some CR)
           then (hWrite hasher (take (length cp - 2) cp), false)
           else (hWrite hasher (take (length cp - 1) cp), false)
         else (hWrite hasher cp, true)
       else (hasher, false) in
     if has && (Sum32 hasher0 =? existing)%Z then (true, writer ++ window)
     else (false, (if needsNewline then (writer ++ cp) ++ detectLineEnding window
                   else writer ++ cp)
                  ++ createComment w (Sum32 hasher0) (detectLineEnding window)))
    = if decide ((if has then Some existing else None)
                 = Some (Sum32 (hWrite hasher (strip_line_ending cp))))
      then (true, writer ++ window)
      else (false, writer ++ cp
                     ++ (if needs_newline cp then detectLineEnding window else [])
                     ++ createComment w (Sum32 (hWrite hasher (strip_line_ending cp)))
                          (detectLineEnding window))).
  { intros cp existing has. rewrite writer_coverage.
    destruct has; cbn [andb].
    - destruct (Z.eqb _ _) eqn:E.
      + apply Z.eqb_eq in E. rewrite decide_True by congruence. reflexivity.
      + apply Z.eqb_neq in E. rewrite decide_False by congruence.
        destruct (needs_newline cp); rewrite <- ?app_assoc; reflexivity.
    - rewrite decide_False by discriminate.
      destruct (needs_newline cp); rewrite <- ?app_assoc; reflexivity. }
  unfold finalizeWindow, content_part, stored_crc, marker_value.
  destruct (FindSubmatchIndex _ _) as [m|].
  - destruct (hex_DecodeString _) as [[|b0 [|b1 [|b2 [|b3 [|b4 tl]]]]]|];
      first [ apply (Hcore _ 0%Z false) | apply (Hcore _ _ true) ].
  - apply (Hcore _ 0%Z false).
Qed.

(** ** 32-bit values, bytes and hex digits *)

Lemma below_pow2_bits (a n m : Z) :
  (0 <= a < 2 ^ n)%Z -> (n <= m)%Z -> Z.testbit a m = false.
Proof.
  intros [H0 H1] Hm.
  destruct (Z.eq_dec a 0%Z) as [->|Hne]; [apply Z.bits_0|].
  apply Z.bits_above_log2; [exact H0|].
  assert (Z.log2 a < n)%Z by (apply Z.log2_lt_pow2; lia). lia.
Qed.

Lemma lxor_below_pow2 (a b n : Z) :
  (0 <= a < 2 ^ n)%Z -> (0 <= b < 2 ^ n)%Z ->
  (0 <= Z.lxor a b < 2 ^ n)%Z.
Proof.
  intros Ha Hb.
  destruct (Z.eq_dec a 0%Z) as [->|Hna]; [rewrite Z.lxor_0_l; exact Hb|].
  destruct (Z.eq_dec b 0%Z) as [->|Hnb]; [rewrite Z.lxor_0_r; exact Ha|].
  assert (H0 : (0 <= Z.lxor a b)%Z) by (apply Z.lxor_nonneg; lia).
  split; [exact H0|].
  destruct (Z.eq_dec (Z.lxor a b) 0%Z) as [E|Hne]; [rewrite E; lia|].
  apply Z.log2_lt_pow2; [lia|].
  pose proof (Z.log2_lxor a b ltac:(lia) ltac:(lia)) as Hl.
  assert (Ha' : (Z.log2 a < n)%Z) by (apply Z.log2_lt_pow2; lia).
  assert (Hb' : (Z.log2 b < n)%Z) by (apply Z.log2_lt_pow2; lia).
  lia.
Qed.

Lemma lor_shiftl_add (a b k : Z) :
  (0 <= k)%Z -> (0 <= b < 2 ^ k)%Z ->
  Z.lor (Z.shiftl a k) b = (a * 2 ^ k + b)%Z.
Proof.
  intros Hk Hb.
  rewrite <- Z.shiftl_mul_pow2 by exact Hk.
  rewrite <- Z.add_lor_land.
  assert (E : Z.land (Z.shiftl a k) b = 0%Z).
  { apply Z.bits_inj'. intros m Hm. rewrite Z.land_spec, Z.bits_0.
    destruct (Z.lt_ge_cases m k) as [Hlt|Hge].
    - rewrite Z.shiftl_spec_low by exact Hlt. reflexivity.
    - rewrite (below_pow2_bits b k m Hb Hge). apply andb_false_r. }
  rewrite E. lia.
Qed.

Lemma byte_to_Z_range (b : byte) : (0 <= byte_to_Z b < 256)%Z.
Proof.
  unfold byte_to_Z. pose proof (Byte.to_N_bounded b). lia.
Qed.

Lemma byte_to_of_Z (v : Z) : (0 <= v < 256)%Z -> byte_to_Z (byte_of_Z v) = v.
Proof.
  intros Hv. unfold byte_of_Z, byte_to_Z.
  change 255%Z with (Z.ones 8). rewrite Z.land_ones by lia.
  rewrite Z.mod_small by (change (2 ^ 8)%Z with 256%Z; lia).
  destruct (Byte.of_N (Z.to_N v)) as [b|] eqn:E.
  - apply Byte.to_of_N in E. rewrite E. lia.
  - apply Byte.of_N_None_iff in E. lia.
Qed.

Lemma nibble_range (x k : Z) :
  (0 <= k)%Z -> (0 <= Z.land (Z.shiftr x k) 15 < 16)%Z.
Proof.
  intros Hk. change 15%Z with (Z.ones 4). rewrite Z.land_ones by lia.
  change (2 ^ 4)%Z with 16%Z. apply Z.mod_pos_bound. lia.
Qed.

Lemma hex_digit_decodes (d : Z) :
  (0 <= d < 16)%Z ->
  fromHexChar (hex_digit d) = Some d /\ upper_hex (hex_digit d) = true.
Proof.
  intros Hd.
  assert (E : d = Z.of_nat (Z.to_nat d)) by lia. rewrite E.
  assert (Hn : Z.to_nat d < 16) by lia. clear E.
  generalize dependent (Z.to_nat d). intros k Hk.
  do 16 (destruct k as [|k]; [split; vm_compute; reflexivity|]).
  lia.
Qed.

Lemma fmt_08X_upper_hex (x : Z) :
  length (fmt_08X x) = 8 /\ Forall (fun c => upper_hex c = true) (fmt_08X x).
Proof.
  split; [reflexivity|]. unfold fmt_08X. cbn [map].
  repeat constructor; apply hex_digit_decodes; apply nibble_range; lia.
Qed.

Lemma lor_shiftl_shiftl (a b j k : Z) :
  (0 <= j)%Z -> (0 <= k)%Z -> (0 <= b < 2 ^ k)%Z ->
  Z.lor (Z.shiftl a (k + j)) (Z.shiftl b j) = Z.shiftl (a * 2 ^ k + b) j.
Proof.
  intros Hj Hk Hb.
  rewrite <- lor_shiftl_add by assumption.
  rewrite Z.shiftl_lor, Z.shiftl_shiftl by exact Hk. reflexivity.
Qed.

Lemma nibble_div (x k : Z) :
  (0 <= k)%Z -> Z.land (Z.shiftr x k) 15 = ((x / 2 ^ k) mod 16)%Z.
Proof.
  intros Hk. change 15%Z with (Z.ones 4).
  rewrite Z.land_ones by lia. rewrite Z.shiftr_div_pow2 by exact Hk. reflexivity.
Qed.

(** What [%08X] renders, [hex.DecodeString] and the big-endian
    assembly read back. *)
Lemma marker_value_fmt_08X (x : Z) :
  (0 <= x < 2 ^ 32)%Z -> marker_value (fmt_08X x) = Some x.
Proof.
  intros Hx. unfold marker_value, fmt_08X. cbn [map hex_DecodeString].
  repeat match goal with
  | |- context [fromHexChar (hex_digit (Z.land (Z.shiftr x ?k) 15))] =>
      rewrite (proj1 (hex_digit_decodes _ (nibble_range x k ltac:(lia))))
  end.
  f_equal. unfold be_uint32.
  change (4 * 7)%Z with 28%Z. change (4 * 6)%Z with 24%Z.
  change (4 * 5)%Z with 20%Z. change (4 * 4)%Z with 16%Z.
  change (4 * 3)%Z with 12%Z. change (4 * 2)%Z with 8%Z.
  change (4 * 1)%Z with 4%Z. change (4 * 0)%Z with 0%Z.
  pose proof (nibble_range x 28%Z ltac:(lia)). pose proof (nibble_range x 24%Z ltac:(lia)).
  pose proof (nibble_range x 20%Z ltac:(lia)). pose proof (nibble_range x 16%Z ltac:(lia)).
  pose proof (nibble_range x 12%Z ltac:(lia)). pose proof (nibble_range x 8%Z ltac:(lia)).
  pose proof (nibble_range x 4%Z ltac:(lia)). pose proof (nibble_range x 0%Z ltac:(lia)).
  rewrite (lor_shiftl_add (Z.land (Z.shiftr x 28) 15) (Z.land (Z.shiftr x 24) 15) 4) by lia.
  rewrite (lor_shiftl_add (Z.land (Z.shiftr x 20) 15) (Z.land (Z.shiftr x 16) 15) 4) by lia.
  rewrite (lor_shiftl_add (Z.land (Z.shiftr x 12) 15) (Z.land (Z.shiftr x 8) 15) 4) by lia.
  rewrite (lor_shiftl_add (Z.land (Z.shiftr x 4) 15) (Z.land (Z.shiftr x 0) 15) 4) by lia.
  change (2 ^ 4)%Z with 16%Z.
  rewrite !byte_to_of_Z by lia.
  set (v3 := (Z.land (Z.shiftr x 28) 15 * 16 + Z.land (Z.shiftr x 24) 15)%Z).
  set (v2 := (Z.land (Z.shiftr x 20) 15 * 16 + Z.land (Z.shiftr x 16) 15)%Z).
  set (v1 := (Z.land (Z.shiftr x 12) 15 * 16 + Z.land (Z.shiftr x 8) 15)%Z).
  set (v0 := (Z.land (Z.shiftr x 4) 15 * 16 + Z.land (Z.shiftr x 0) 15)%Z).
  assert (R3 : (0 <= v3 < 2 ^ 8)%Z) by (unfold v3; lia).
  assert (R2 : (0 <= v2 < 2 ^ 8)%Z) by (unfold v2; lia).
  assert (R1 : (0 <= v1 < 2 ^ 8)%Z) by (unfold v1; lia).
  assert (R0 : (0 <= v0 < 2 ^ 8)%Z) by (unfold v0; lia).
  change (Z.shiftl v3 24) with (Z.shiftl v3 (8 + 16)).
  rewrite (lor_shiftl_shiftl v3 v2 16 8) by lia.
  change (Z.shiftl (v3 * 2 ^ 8 + v2) 16) with (Z.shiftl (v3 * 2 ^ 8 + v2) (8 + 8)).
  rewrite (lor_shiftl_shiftl (v3 * 2 ^ 8 + v2) v1 8 8) by lia.
  rewrite (lor_shiftl_add _ v0 8) by lia.
  unfold v3, v2, v1, v0.
  rewrite !nibble_div by lia.
  change (2 ^ 4)%Z with 16%Z. change (2 ^ 8)%Z with 256%Z.
  Z.div_mod_to_equations. lia.
Qed.

Lemma upper_hex_is_digit (c : byte) :
  upper_hex c = true -> exists d, (0 <= d < 16)%Z /\ c = hex_digit d.
Proof.
  intros H.
  exists (match fromHexChar c with Some d => d | None => 0%Z end).
  destruct c; try discriminate H; vm_compute;
    (split; [split; [discriminate|reflexivity]|reflexivity]).
Qed.

Lemma fmt_08X_of_digits (d7 d6 d5 d4 d3 d2 d1 d0 : Z) :
  (0 <= d7 < 16)%Z -> (0 <= d6 < 16)%Z -> (0 <= d5 < 16)%Z -> (0 <= d4 < 16)%Z ->
  (0 <= d3 < 16)%Z -> (0 <= d2 < 16)%Z -> (0 <= d1 < 16)%Z -> (0 <= d0 < 16)%Z ->
  let v := (((((((d7 * 16 + d6) * 16 + d5) * 16 + d4) * 16 + d3) * 16 + d2) * 16
              + d1) * 16 + d0)%Z in
  (0 <= v < 2 ^ 32)%Z
  /\ fmt_08X v = map hex_digit [d7; d6; d5; d4; d3; d2; d1; d0].
Proof.
  intros H7 H6 H5 H4 H3 H2 H1 H0 v.
  assert (Hv : (0 <= v < 2 ^ 32)%Z).
  { change (2 ^ 32)%Z with 4294967296%Z. unfold v. lia. }
  split; [exact Hv|].
  unfold fmt_08X. cbn [map].
  change (4 * 7)%Z with 28%Z. change (4 * 6)%Z with 24%Z.
  change (4 * 5)%Z with 20%Z. change (4 * 4)%Z with 16%Z.
  change (4 * 3)%Z with 12%Z. change (4 * 2)%Z with 8%Z.
  change (4 * 1)%Z with 4%Z. change (4 * 0)%Z with 0%Z.
  rewrite !nibble_div by lia.
  change (2 ^ 28)%Z with 268435456%Z. change (2 ^ 24)%Z with 16777216%Z.
  change (2 ^ 20)%Z with 1048576%Z. change (2 ^ 16)%Z with 65536%Z.
  change (2 ^ 12)%Z with 4096%Z. change (2 ^ 8)%Z with 256%Z.
  change (2 ^ 4)%Z with 16%Z. change (2 ^ 0)%Z with 1%Z.
  assert (E7 : ((v / 268435456) mod 16 = d7)%Z) by (unfold v; Z.div_mod_to_equations; lia).
  assert (E6 : ((v / 16777216) mod 16 = d6)%Z) by (unfold v; Z.div_mod_to_equations; lia).
  assert (E5 : ((v / 1048576) mod 16 = d5)%Z) by (unfold v; Z.div_mod_to_equations; lia).
  assert (E4 : ((v / 65536) mod 16 = d4)%Z) by (unfold v; Z.div_mod_to_equations; lia).
  assert (E3 : ((v / 4096) mod 16 = d3)%Z) by (unfold v; Z.div_mod_to_equations; lia).
  assert (E2 : ((v / 256) mod 16 = d2)%Z) by (unfold v; Z.div_mod_to_equations; lia).
  assert (E1 : ((v / 16) mod 16 = d1)%Z) by (unfold v; Z.div_mod_to_equations; lia).
  assert (E0 : ((v / 1) mod 16 = d0)%Z) by (unfold v; Z.div_mod_to_equations; lia).
  rewrite E7, E6, E5, E4, E3, E2, E1, E0. reflexivity.
Qed.

(** Eight upper-case hex digits are the [%08X] text of exactly one
    32-bit value, the one they decode to. *)
Lemma upper_hex_is_fmt_08X (hex : list byte) :
  length hex = 8 -> Forall (fun c => upper_hex c = true) hex ->
  exists v, (0 <= v < 2 ^ 32)%Z /\ hex = fmt_08X v /\ marker_value hex = Some v.
Proof.
  intros Hlen Hup.
  destruct hex as [|c7 [|c6 [|c5 [|c4 [|c3 [|c2 [|c1 [|c0 [|c8 tl]]]]]]]]];
    try discriminate Hlen.
  repeat match goal with
         | H : Forall _ (_ :: _) |- _ => inversion H; clear H; subst
         end.
  repeat match goal with
         | H : upper_hex _ = true |- _ =>
             apply upper_hex_is_digit in H; destruct H as (? & ? & ->)
         end.
  match goal with
  | |- context [[hex_digit ?a7; hex_digit ?a6; hex_digit ?a5; hex_digit ?a4;
                 hex_digit ?a3; hex_digit ?a2; hex_digit ?a1; hex_digit ?a0]] =>
      destruct (fmt_08X_of_digits a7 a6 a5 a4 a3 a2 a1 a0) as [Hv E]; try assumption
  end.
  cbn [map] in E. eexists. split; [exact Hv|]. split; [symmetry; exact E|].
  rewrite <- E. apply marker_value_fmt_08X. exact Hv.
Qed.

(** ** The checksum is a 32-bit value *)

Lemma below_256_cases (P : Z -> Prop) :
  (forall k, k < 256 -> P (Z.of_nat k)) -> forall i, (0 <= i < 256)%Z -> P i.
Proof.
  intros H i Hi. rewrite <- (Z2Nat.id i) by lia. apply H. lia.
Qed.

Lemma IEEETable_range (i : Z) :
  (0 <= i < 256)%Z -> (0 <= IEEETable i < 2 ^ 32)%Z.
Proof.
  revert i. apply below_256_cases. intros k Hk.
  assert (Hall : forallb (fun k => let t := IEEETable (Z.of_nat k) in
                            (0 <=? t)%Z && (t <? 2 ^ 32)%Z) (seq 0 256) = true)
    by (vm_compute; reflexivity).
  rewrite forallb_forall in Hall.
  specialize (Hall k ltac:(apply in_seq; lia)). cbv zeta in Hall.
  apply andb_true_iff in Hall. destruct Hall as [H1 H2].
  apply Z.leb_le in H1. apply Z.ltb_lt in H2. lia.
Qed.

Lemma table_index_range (c : Z) (v : byte) :
  (0 <= Z.lxor (Z.land c 0xFF) (byte_to_Z v) < 256)%Z.
Proof.
  change 256%Z with (2 ^ 8)%Z. apply lxor_below_pow2.
  - change 255%Z with (Z.ones 8). rewrite Z.land_ones by lia.
    apply Z.mod_pos_bound. lia.
  - apply byte_to_Z_range.
Qed.

Lemma crc_step_range (c : Z) (v : byte) :
  (0 <= c < 2 ^ 32)%Z -> (0 <= crc_step c v < 2 ^ 32)%Z.
Proof.
  intros Hc. unfold crc_step. apply lxor_below_pow2.
  - apply IEEETable_range, table_index_range.
  - rewrite Z.shiftr_div_pow2 by lia. change (2 ^ 8)%Z with 256%Z.
    change (2 ^ 32)%Z with 4294967296%Z in *.
    Z.div_mod_to_equations. lia.
Qed.

Lemma simpleUpdate_range (c : Z) (p : list byte) :
  (0 <= c < 2 ^ 32)%Z -> (0 <= simpleUpdate c p < 2 ^ 32)%Z.
Proof.
  intros Hc. unfold simpleUpdate.
  assert (Hm : (0 <= 4294967295 < 2 ^ 32)%Z) by (change (2 ^ 32)%Z with 4294967296%Z; lia).
  apply lxor_below_pow2; [|exact Hm].
  assert (H0 : (0 <= Z.lxor c 4294967295 < 2 ^ 32)%Z)
    by (apply lxor_below_pow2; assumption).
  revert H0. generalize (Z.lxor c 4294967295).
  induction p as [|v p IH]; intros c0 H0; [exact H0|].
  cbn [fold_left]. apply IH. apply crc_step_range. exact H0.
Qed.

(** Whatever is written into a fresh hasher, [Sum32] is a [uint32]. *)
Lemma Sum32_range (p : list byte) : (0 <= Sum32 (hWrite NewIEEE p) < 2 ^ 32)%Z.
Proof.
  unfold Sum32, hWrite, NewIEEE. cbn [crc]. apply simpleUpdate_range.
  change (2 ^ 32)%Z with 4294967296%Z. lia.
Qed.

Lemma Sum32_range_app (p q : list byte) :
  (0 <= Sum32 (hWrite (hWrite NewIEEE p) q) < 2 ^ 32)%Z.
Proof. rewrite <- hWrite_app. apply Sum32_range. Qed.

(** ** The marker matcher *)

Lemma lookup_as_drop (text : list byte) pos : text !! pos = head (drop pos text).
Proof.
  rewrite <- (Nat.add_0_r pos) at 1. rewrite <- lookup_drop.
  destruct (drop pos text); reflexivity.
Qed.

Lemma drop_S_tail (text : list byte) pos : drop (S pos) text = tail (drop pos text).
Proof.
  replace (S pos) with (pos + 1) by lia. rewrite <- drop_drop.
  destruct (drop pos text) as [|c [|d r]]; reflexivity.
Qed.

Lemma backtrack_literal s : forall text pos g k,
  backtrack (literal s) text pos g k =
  if decide (s `prefix_of` drop pos text) then k (pos + length s) g else None.
Proof.
  induction s as [|c s IH]; intros text pos g k.
  - cbn [literal fold_right backtrack length].
    rewrite decide_True by apply prefix_nil. rewrite Nat.add_0_r. reflexivity.
  - cbn [literal fold_right backtrack]. fold (literal s).
    rewrite lookup_as_drop, IH, drop_S_tail.
    destruct (drop pos text) as [|d rest]; cbn [head tail].
    + rewrite decide_False by discriminate.
      rewrite decide_False; [reflexivity|]. intros [r Hr]. discriminate Hr.
    + destruct (decide (Some d = Some c)) as [E|NE].
      * injection E as ->.
        destruct (decide (s `prefix_of` rest)) as [P|NP].
        -- rewrite decide_True by (apply prefix_cons; exact P).
           simpl length. f_equal. lia.
        -- rewrite decide_False; [reflexivity|].
           intros P. apply NP. eapply prefix_cons_inv_2. exact P.
      * rewrite decide_False; [reflexivity|].
        intros P. apply NE. f_equal. symmetry. eapply prefix_cons_inv_1. exact P.
Qed.

Lemma backtrack_class_times f k0 : forall text pos g k,
  backtrack (times k0 (CharClass f)) text pos g k =
  if decide (k0 <= length (drop pos text)
             /\ Forall (fun c => f c = true) (take k0 (drop pos text)))
  then k (pos + k0) g else None.
Proof.
  induction k0 as [|k0 IH]; intros text pos g k.
  - cbn [times backtrack].
    rewrite decide_True by (split; [lia|rewrite take_0; constructor]).
    rewrite Nat.add_0_r. reflexivity.
  - cbn [times backtrack]. rewrite lookup_as_drop.
    destruct (drop pos text) as [|d rest] eqn:Hd; cbn [head].
    + rewrite decide_False; [reflexivity|]. simpl. intros [H _]. lia.
    + rewrite IH, drop_S_tail, Hd. cbn [tail].
      destruct (f d) eqn:Hf.
      * destruct (decide (k0 <= length rest /\ _)) as [[H1 H2]|N].
        -- rewrite decide_True.
           ++ f_equal. lia.
           ++ split; [simpl; lia|]. simpl. constructor; assumption.
        -- rewrite decide_False; [reflexivity|].
           intros [H1 H2]. apply N. simpl in *. split; [lia|].
           inversion H2; assumption.
      * rewrite decide_False; [reflexivity|].
        intros [H1 H2]. simpl in H2. inversion H2; congruence.
Qed.

Lemma backtrack_line_end text p g :
  match backtrack line_end_re text p g accept with
  | Some (e, g') => g' = g /\ line_end (drop p text)
  | None => ~ line_end (drop p text)
  end.
Proof.
  unfold line_end_re, accept, line_end. cbn [backtrack].
  rewrite !lookup_as_drop, !drop_S_tail.
  destruct (drop p text) as [|c1 [|c2 [|c3 r]]]; cbn [head tail];
    repeat case_decide; simplify_eq; try discriminate;
    first [ split; [reflexivity|]; eauto 6; fail
          | intros [E|[[r' E]|[E|[r' E]]]]; simplify_eq; congruence ].
Qed.

Lemma drop_add_app (l a b : list byte) n :
  drop n l = a ++ b -> drop (n + length a) l = b.
Proof.
  intros H. rewrite <- drop_drop, H. apply drop_app_length.
Qed.

Lemma marker_line_at_facts style text pos hex :
  marker_line_at style text pos hex ->
  marker_facts style text pos /\ hex = take 8 (drop (hex_start style pos) text).
Proof.
  intros (before & after & Htext & Hlen & Hstart & Hhex & Hup & Hend).
  assert (D0 : drop pos text
               = Prefix style ++ key_text ++ hex ++ Suffix style ++ after).
  { rewrite Htext. apply drop_app_length'. symmetry. exact Hlen. }
  pose proof (drop_add_app _ _ _ _ D0) as D1.
  pose proof (drop_add_app _ _ _ _ D1) as D2.
  pose proof (drop_add_app _ _ _ _ D2) as D3.
  pose proof (drop_add_app _ _ _ _ D3) as D4.
  rewrite Hhex in D3, D4.
  unfold marker_facts, hex_start.
  rewrite D0, D1, D2, D3, D4.
  assert (T : take 8 (hex ++ Suffix style ++ after) = hex).
  { apply take_app_length'. symmetry. exact Hhex. }
  rewrite T.
  repeat split; try (eexists; reflexivity); try assumption.
  - destruct Hstart as [->|Hlast].
    + left. simpl in Hlen. congruence.
    + right. destruct (snoc_cases before) as [->|(b' & x & ->)]; [discriminate|].
      rewrite last_snoc in Hlast. injection Hlast as ->.
      exists (length b'). split.
      * rewrite <- Hlen, length_app. simpl. lia.
      * rewrite Htext, <- app_assoc. simpl. apply list_lookup_middle. reflexivity.
  - rewrite length_app. lia.
Qed.

Lemma marker_facts_line style text pos :
  marker_facts style text pos ->
  marker_line_at style text pos (take 8 (drop (hex_start style pos) text)).
Proof.
  unfold marker_facts, hex_start.
  intros (Hstart & [r1 D0] & [r2 D1] & [Hlen Hup] & [r4 D3] & Hend).
  pose proof (drop_add_app _ _ _ _ D0) as E1. rewrite D1 in E1. subst r1.
  pose proof (drop_add_app _ _ _ _ D1) as E2.
  set (g0 := pos + length (Prefix style) + length key_text) in *.
  assert (E3 : drop g0 text = take 8 (drop g0 text) ++ Suffix style ++ r4).
  { rewrite <- (take_drop 8 (drop g0 text)) at 1. rewrite drop_drop, D3. reflexivity. }
  pose proof (drop_add_app _ _ _ _ D3) as E4.
  assert (Hpos : pos < length text).
  { rewrite length_drop in Hlen. unfold g0 in Hlen. lia. }
  exists (take pos text), r4. repeat split.
  - rewrite <- (take_drop pos text) at 1. rewrite D0. do 3 f_equal.
    rewrite <- E2. exact E3.
  - apply length_take_le. lia.
  - destruct Hstart as [->|(p & -> & Hp)].
    + left. reflexivity.
    + right. rewrite (take_S_r _ _ _ Hp). apply last_snoc.
  - rewrite length_take. lia.
  - exact Hup.
  - rewrite <- E4. exact Hend.
Qed.

Lemma backtrack_pattern style text pos :
  match backtrack (createCommentPattern style) text pos (0, 0) accept with
  | Some (e, (g0, g1)) =>
      g0 = hex_start style pos /\ g1 = g0 + 8 /\ marker_facts style text pos
  | None => ~ marker_facts style text pos
  end.
Proof.
  unfold createCommentPattern.
  change (Concat (Quest (Literal CR)) (Concat (Quest (Literal LF)) EmptyEndLine))
    with line_end_re.
  assert (Hrest :
    match backtrack (literal (Prefix style)) text pos (0, 0)
            (fun p g' => backtrack (literal key_text) text p g'
               (fun p0 g'0 => backtrack (times 8 (CharClass upper_hex)) text p0 g'0
                  (fun p1 _ => backtrack (literal (Suffix style)) text p1 (p0, p1)
                     (fun p2 g'2 => backtrack line_end_re text p2 g'2 accept)))) with
    | Some (e, (g0, g1)) =>
        g0 = hex_start style pos /\ g1 = g0 + 8
        /\ (Prefix style `prefix_of` drop pos text
            /\ key_text `prefix_of` drop (pos + length (Prefix style)) text
            /\ (8 <= length (drop (hex_start style pos) text)
                /\ Forall (fun c => upper_hex c = true)
                     (take 8 (drop (hex_start style pos) text)))
            /\ Suffix style `prefix_of` drop (hex_start style pos + 8) text
            /\ line_end (drop (hex_start style pos + 8 + length (Suffix style)) text))
    | None => ~ marker_facts style text pos
    end).
  { unfold marker_facts.
    rewrite backtrack_literal. case_decide; [|tauto].
    rewrite backtrack_literal. case_decide; [|tauto].
    rewrite backtrack_class_times. fold (hex_start style pos). case_decide; [|tauto].
    rewrite backtrack_literal. case_decide; [|tauto].
    pose proof (backtrack_line_end text (hex_start style pos + 8 + length (Suffix style))
                  (hex_start style pos, hex_start style pos + 8)) as Hend.
    destruct (backtrack line_end_re _ _ _ _) as [[e [g0 g1]]|].
    - destruct Hend as [E Hend]. injection E as -> ->. tauto.
    - tauto. }
  cbn [backtrack].
  destruct pos as [|p].
  - destruct (backtrack (literal (Prefix style)) _ _ _ _) as [[e [g0 g1]]|].
    + unfold marker_facts. destruct Hrest as (? & ? & ?).
      split; [|split; [|split]]; auto.
    + exact Hrest.
  - case_decide as Hlf.
    + destruct (backtrack (literal (Prefix style)) _ _ _ _) as [[e [g0 g1]]|].
      * unfold marker_facts. destruct Hrest as (? & ? & ?).
        split; [|split; [|split]]; eauto.
      * exact Hrest.
    + unfold marker_facts. intros [[E|(p' & E & Hp)] _]; [discriminate|].
      injection E as <-. contradiction.
Qed.

Lemma find_from_spec re text tries : forall start,
  match find_from re text tries start with
  | Some m =>
      start <= match0 m <= start + tries
      /\ backtrack re text (match0 m) (0, 0) accept
         = Some (match1 m, (match2 m, match3 m))
      /\ forall j, start <= j < match0 m ->
           backtrack re text j (0, 0) accept = None
  | None =>
      forall j, start <= j <= start + tries ->
        backtrack re text j (0, 0) accept = None
  end.
Proof.
  induction tries as [|tries IH]; intros start; cbn [find_from];
    fold accept; destruct (backtrack re text start (0, 0) accept)
      as [[e [g0 g1]]|] eqn:Hb.
  - cbn. split; [lia|]. split; [exact Hb|]. intros j Hj. lia.
  - intros j Hj. replace j with start by lia. exact Hb.
  - cbn. split; [lia|]. split; [exact Hb|]. intros j Hj. lia.
  - specialize (IH (S start)).
    destruct (find_from re text tries (S start)) as [m|].
    + destruct IH as (Hr & Hm & Hleast). split; [lia|]. split; [exact Hm|].
      intros j Hj. destruct (decide (j = start)) as [->|Hne]; [exact Hb|].
      apply Hleast. lia.
    + intros j Hj. destruct (decide (j = start)) as [->|Hne]; [exact Hb|].
      apply IH. lia.
Qed.

Lemma marker_line_at_bound style text i hex :
  marker_line_at style text i hex -> i <= length text.
Proof.
  intros (before & after & -> & <- & _). rewrite length_app. lia.
Qed.

Lemma no_match_no_marker style text j :
  backtrack (createCommentPattern style) text j (0, 0) accept = None ->
  forall hex, ~ marker_line_at style text j hex.
Proof.
  intros Hb hex Hm. pose proof (backtrack_pattern style text j) as Hp.
  rewrite Hb in Hp. apply Hp. apply (marker_line_at_facts _ _ _ _ Hm).
Qed.

(** The matcher returns the first marker line of the window, with the
    bounds of its payload, and nothing when there is no marker line. *)
Lemma FindSubmatchIndex_spec style window :
  match FindSubmatchIndex (createCommentPattern style) window with
  | Some m =>
      first_marker style window (match0 m)
        (subslice (match2 m) (match3 m) window)
      /\ match2 m = match0 m + length (Prefix style) + length key_text
      /\ match3 m = match2 m + 8
  | None => forall i hex, ~ marker_line_at style window i hex
  end.
Proof.
  unfold FindSubmatchIndex.
  pose proof (find_from_spec (createCommentPattern style) window (length window) 0) as H.
  destruct (find_from _ _ _ _) as [m|].
  - destruct H as (_ & Hm & Hleast).
    pose proof (backtrack_pattern style window (match0 m)) as Hp.
    rewrite Hm in Hp. destruct Hp as (E2 & E3 & Hfacts).
    unfold hex_start in E2. split; [|split; assumption].
    split.
    + unfold subslice. rewrite E3.
      replace (match2 m + 8 - match2 m) with 8 by lia.
      rewrite E2. apply marker_facts_line. exact Hfacts.
    + intros j hex' Hj. apply no_match_no_marker. apply Hleast. lia.
  - intros i hex Hm. pose proof (marker_line_at_bound _ _ _ _ Hm) as Hi.
    revert Hm. apply no_match_no_marker. apply H. lia.
Qed.

Lemma first_marker_unique style window i j hex hex' :
  first_marker style window i hex -> first_marker style window j hex' ->
  i = j /\ hex = hex'.
Proof.
  intros [Hi Li] [Hj Lj].
  assert (E : i = j).
  { destruct (Nat.lt_trichotomy i j) as [Hlt|[E|Hgt]]; [|exact E|].
    - exfalso. exact (Lj _ _ Hlt Hi).
    - exfalso. exact (Li _ _ Hgt Hj). }
  subst j. split; [reflexivity|].
  destruct (marker_line_at_facts _ _ _ _ Hi) as [_ ->].
  destruct (marker_line_at_facts _ _ _ _ Hj) as [_ ->]. reflexivity.
Qed.

Lemma upper_hex_fromHexChar c :
  upper_hex c = true -> exists d, fromHexChar c = Some d.
Proof.
  unfold upper_hex, fromHexChar. cbv zeta.
  destruct ((48 <=? byte_to_Z c)%Z && (byte_to_Z c <=? 57)%Z); [eauto|].
  destruct ((97 <=? byte_to_Z c)%Z && (byte_to_Z c <=? 102)%Z); [eauto|].
  destruct ((65 <=? byte_to_Z c)%Z && (byte_to_Z c <=? 70)%Z); [eauto|].
  discriminate.
Qed.

(** Eight upper-case hex digits always decode to a 32-bit value. *)
Lemma marker_value_wellformed hex :
  length hex = 8 -> Forall (fun c => upper_hex c = true) hex ->
  exists v, marker_value hex = Some v.
Proof.
  intros Hlen Hup.
  destruct hex as [|c0 [|c1 [|c2 [|c3 [|c4 [|c5 [|c6 [|c7 [|c8 tl]]]]]]]]];
    try discriminate Hlen.
  repeat match goal with
         | H : Forall _ (_ :: _) |- _ => inversion H; clear H; subst
         end.
  repeat match goal with
         | H : upper_hex _ = true |- _ =>
             apply upper_hex_fromHexChar in H; destruct H as [? H]
         end.
  unfold marker_value. cbn [hex_DecodeString].
  repeat match goal with H : fromHexChar _ = Some _ |- _ => rewrite H; clear H end.
  eexists. reflexivity.
Qed.

(** What the matcher returns, and what follows for the Reader and the
    Writer when it returns nothing. *)
Lemma matcher_spec (config : Config) (window : list byte) :
  let style := Style config in
  match FindSubmatchIndex (createCommentPattern style) window with
  | Some m =>
      first_marker style window (match0 m)
        (subslice (match2 m) (match3 m) window)
      /\ match2 m = match0 m + length (Prefix style) + length key_text
      /\ match3 m = match2 m + 8
      /\ (exists v, marker_value (subslice (match2 m) (match3 m) window) = Some v)
  | None =>
      (forall i hex, ~ marker_line_at style window i hex)
      /\ (forall hasher,
            verifyWindow (NewReader config) hasher window = inr NoIntegrityComment)
      /\ content_part (createCommentPattern style) window = window
      /\ stored_crc (createCommentPattern style) window = None
  end.
Proof.
  intros style.
  pose proof (FindSubmatchIndex_spec style window) as H.
  destruct (FindSubmatchIndex (createCommentPattern style) window) as [m|] eqn:Hfind.
  - destruct H as (Hfirst & E2 & E3). repeat split; try assumption.
    + apply Hfirst.
    + apply Hfirst.
    + destruct Hfirst as [(b & a & _ & _ & _ & Hlen & Hup & _) _].
      apply marker_value_wellformed; assumption.
  - split; [exact H|]. split; [|split].
    + intros hasher. rewrite verifyWindow_eq. unfold NewReader. cbn [r_pattern].
      fold style. rewrite Hfind. reflexivity.
    + unfold content_part. rewrite Hfind. reflexivity.
    + unfold stored_crc. rewrite Hfind. reflexivity.
Qed.


(** C5 (as amended). For a style whose prefix and suffix are ASCII and
    for every byte window, the matcher derived from the style finds the
    first (leftmost) line of the window that reads prefix,
    "FileIntegrity: ", exactly eight upper-case hex digits, suffix,
    optional CR, optional LF, anchored at a line start, and returns the
    bounds of the payload, which always decodes. A line whose payload is
    malformed is not a marker line: when the window has no marker line
    the matcher finds nothing, the Reader fails and the Writer takes the
    whole window as content. *)
Theorem matcher_finds_first_marker (config : Config) (window : list byte) :
  let style := Style config in
  ascii_style style = true ->
  match FindSubmatchIndex (createCommentPattern style) window with
  | Some m =>
      first_marker style window (match0 m)
        (subslice (match2 m) (match3 m) window)
      /\ match2 m = match0 m + length (Prefix style) + length key_text
      /\ match3 m = match2 m + 8
      /\ (exists v, marker_value (subslice (match2 m) (match3 m) window) = Some v)
  | None =>
      (forall i hex, ~ marker_line_at style window i hex)
      /\ (forall hasher,
            verifyWindow (NewReader config) hasher window = inr NoIntegrityComment)
      /\ content_part (createCommentPattern style) window = window
      /\ stored_crc (createCommentPattern style) window = None
  end.
Proof.
  intros style _. exact (matcher_spec config window).
Qed.

Lemma matcher_finds_first_marker_witness :
  let style := Style DefaultConfig in
  match FindSubmatchIndex (createCommentPattern style) two_markers with
  | Some m =>
      first_marker style two_markers (match0 m)
        (subslice (match2 m) (match3 m) two_markers)
      /\ match2 m = match0 m + length (Prefix style) + length key_text
      /\ match3 m = match2 m + 8
      /\ (exists v, marker_value (subslice (match2 m) (match3 m) two_markers) = Some v)
  | None =>
      (forall i hex, ~ marker_line_at style two_markers i hex)
      /\ (forall hasher,
            verifyWindow (NewReader DefaultConfig) hasher two_markers
            = inr NoIntegrityComment)
      /\ content_part (createCommentPattern style) two_markers = two_markers
      /\ stored_crc (createCommentPattern style) two_markers = None
  end.
Proof.
  apply (matcher_finds_first_marker DefaultConfig two_markers).
  reflexivity.
Defined.

(** In a window with two marker lines the matcher returns the one at
    offset 0 although another one starts at offset 27: it does not find
    the last occurrence. *)
Lemma matcher_not_last_occurrence :
  FindSubmatchIndex (createCommentPattern GoStyle) two_markers
    = Some {| match0 := 0; match1 := 26; match2 := 18; match3 := 26 |}
  /\ marker_line_at GoStyle two_markers 27 (bytes "11111111").
Proof.
  split; [vm_compute; reflexivity|].
  exists (bytes "// FileIntegrity: 00000000" ++ [LF]), [LF].
  split; [vm_compute; reflexivity|].
  split; [vm_compute; reflexivity|].
  split; [right; vm_compute; reflexivity|].
  split; [vm_compute; reflexivity|].
  split; [repeat constructor|].
  right; left. eexists. reflexivity.
Qed.

Lemma needs_newline_true l :
  needs_newline l = true <-> l <> [] /\ last l <> Some LF.
Proof.
  destruct (snoc_cases l) as [->|(l' & x & ->)].
  - cbn. split; [discriminate|intros [H _]; congruence].
  - rewrite needs_newline_snoc, last_snoc.
    destruct (decide (x = LF)) as [->|NE].
    + rewrite bool_decide_true by reflexivity. cbn.
      split; [discriminate|intros [_ H]; congruence].
    + rewrite bool_decide_false by exact NE. cbn.
      split; [|reflexivity]. intros _. split; [|congruence].
      intros E. apply (f_equal length) in E. rewrite length_app in E. simpl in E. lia.
Qed.

(** A content part that lacks a line ending is the whole window: before
    a marker the content is empty or ends in LF. *)
Lemma needs_newline_no_marker (style : CommentStyle) (window : list byte) :
  needs_newline (content_part (createCommentPattern style) window) = true ->
  FindSubmatchIndex (createCommentPattern style) window = None.
Proof.
  unfold content_part.
  pose proof (FindSubmatchIndex_spec style window) as H.
  destruct (FindSubmatchIndex (createCommentPattern style) window) as [m|];
    [|reflexivity].
  intros Hneeds. exfalso.
  destruct H as ([Hm _] & _).
  destruct (marker_line_at_facts _ _ _ _ Hm) as [(Hstart & _) _].
  destruct Hstart as [E|(p & E & Hp)]; rewrite E in Hneeds.
  - rewrite take_0 in Hneeds. discriminate Hneeds.
  - rewrite (take_S_r _ _ _ Hp), needs_newline_snoc in Hneeds.
    rewrite bool_decide_true in Hneeds by reflexivity. discriminate Hneeds.
Qed.

(** C6 (as amended). With [cp] the content part of the final window,
    the Writer and the Reader fold the same bytes into the checksum:
    [cp] without one trailing line ending (CR LF as a whole, else a lone
    LF), all of [cp] when it does not end in LF. When [cp] is non-empty
    and does not end in LF the Writer writes [cp], exactly one detected
    line ending and the new marker; for an empty [cp] nothing is
    checksummed and nothing is inserted. *)
Theorem final_window_checksum_coverage
    (config : Config) (writer : list byte) (hasher : digest) (window : list byte) :
  let w := NewWriter config in
  let r := NewReader config in
  let cp := content_part (w_pattern w) window in
  let le := detectLineEnding window in
  let calc := Sum32 (hWrite hasher (strip_line_ending cp)) in
  finalizeWindow w writer hasher window
    = (if decide (stored_crc (w_pattern w) window = Some calc)
       then (true, writer ++ window)
       else (false, writer ++ cp ++ (if needs_newline cp then le else [])
                      ++ createComment w calc le))
  /\ verifyWindow r hasher window
     = match FindSubmatchIndex (r_pattern r) window with
       | None => inr NoIntegrityComment
       | Some _ =>
           match stored_crc (r_pattern r) window with
           | Some stored => inl (calc =? stored)%Z
           | None => inr InvalidCRCFormat
           end
       end
  /\ (needs_newline cp = true ->
      finalizeWindow w writer hasher window
      = (false, writer ++ cp ++ le ++ createComment w calc le))
  /\ (forall l, strip_line_ending (l ++ [CR; LF]) = l)
  /\ (forall l, last l <> Some CR -> strip_line_ending (l ++ [LF]) = l)
  /\ (forall l, last l <> Some LF -> strip_line_ending l = l)
  /\ (forall l, needs_newline l = true <-> l <> [] /\ last l <> Some LF)
  /\ strip_line_ending [] = [] /\ needs_newline [] = false.
Proof.
  intros w r cp le calc. split; [apply finalizeWindow_eq|]. split.
  { rewrite verifyWindow_eq. unfold calc, cp, content_part, stored_crc.
    change (r_pattern r) with (w_pattern w).
    destruct (FindSubmatchIndex (w_pattern w) window); reflexivity. }
  split.
  { intros Hneeds. rewrite finalizeWindow_eq. cbv zeta.
    pose proof (needs_newline_no_marker (Style config) window Hneeds) as Hnone.
    unfold calc, le, cp in *. rewrite Hneeds.
    unfold stored_crc. unfold w, NewWriter in *. cbn [w_pattern] in *.
    rewrite Hnone. rewrite decide_False by discriminate. reflexivity. }
  split; [exact strip_line_ending_crlf|].
  split; [exact strip_line_ending_lf|].
  split; [exact strip_line_ending_none|].
  split; [exact needs_newline_true|]. split; reflexivity.
Qed.

(** A window that is only a stale marker has an empty content part,
    which has no trailing line ending; the Writer then inserts no line
    ending before the new marker. *)
Lemma empty_content_part_gets_no_line_ending :
  let w := NewWriter DefaultConfig in
  content_part (w_pattern w) stale_marker_only = []
  /\ finalizeWindow w [] NewIEEE stale_marker_only
     = (false, createComment w 0 [LF])
  /\ finalizeWindow w [] NewIEEE stale_marker_only
     <> (false, [LF] ++ createComment w 0 [LF]).
Proof.
  split; [vm_compute; reflexivity|].
  split; [vm_compute; reflexivity|].
  vm_compute. discriminate.
Qed.

(** C8. The Reader's verdict on the final window, for a style whose
    prefix and suffix are ASCII and a hasher that holds a 32-bit value:
    valid = true exactly when the window has a marker line and the
    eight digits of its first marker are the upper-case hex text of the
    computed checksum; valid = false, without error, exactly when it
    has one and the digits are another text; an error exactly when the
    window has no marker line (a malformed payload makes no marker
    line). *)
Theorem reader_trichotomy (config : Config) (hasher : digest) (window : list byte) :
  let r := NewReader config in
  let style := Style config in
  let computed i := Sum32 (hWrite hasher (strip_line_ending (take i window))) in
  ascii_style style = true ->
  (0 <= Sum32 hasher < 2 ^ 32)%Z ->
  (verifyWindow r hasher window = inl true <->
     exists i hex, first_marker style window i hex /\ hex = fmt_08X (computed i))
  /\ (verifyWindow r hasher window = inl false <->
        exists i hex, first_marker style window i hex /\ hex <> fmt_08X (computed i))
  /\ ((exists e, verifyWindow r hasher window = inr e) <->
        forall i hex, ~ marker_line_at style window i hex).
Proof.
  intros r style computed _ Hrange.
  assert (Hcomp : forall i, (0 <= computed i < 2 ^ 32)%Z).
  { intros i. unfold computed, Sum32, hWrite. cbn [crc].
    apply simpleUpdate_range. exact Hrange. }
  pose proof (matcher_spec config window) as H. cbv zeta in H.
  fold style in H.
  rewrite verifyWindow_eq. unfold r, NewReader. cbn [r_pattern]. fold style.
  destruct (FindSubmatchIndex (createCommentPattern style) window) as [m|].
  - destruct H as (Hfirst & E2 & E3 & _).
    set (hex0 := subslice (match2 m) (match3 m) window) in *.
    assert (Hwf : exists v, (0 <= v < 2 ^ 32)%Z /\ hex0 = fmt_08X v
                            /\ marker_value hex0 = Some v).
    { destruct Hfirst as [(b & a & _ & _ & _ & Hlen & Hup & _) _].
      apply upper_hex_is_fmt_08X; assumption. }
    destruct Hwf as (v & Hv & Hhex & Hval). rewrite Hval.
    fold (computed (match0 m)).
    assert (Hiff : computed (match0 m) = v <-> hex0 = fmt_08X (computed (match0 m))).
    { split.
      - intros ->. exact Hhex.
      - intros E. rewrite E in Hval.
        rewrite (marker_value_fmt_08X _ (Hcomp (match0 m))) in Hval. congruence. }
    assert (Huniq : forall i hex, first_marker style window i hex ->
              i = match0 m /\ hex = hex0).
    { intros i hex Hi. exact (first_marker_unique _ _ _ _ _ _ Hi Hfirst). }
    split; [|split].
    + split.
      * intros E. injection E as E. apply Z.eqb_eq in E.
        exists (match0 m), hex0. split; [exact Hfirst|]. apply Hiff. exact E.
      * intros (i & hex & Hi & Hval').
        destruct (Huniq _ _ Hi) as [-> ->]. f_equal. apply Z.eqb_eq.
        apply Hiff. exact Hval'.
    + split.
      * intros E. injection E as E. apply Z.eqb_neq in E.
        exists (match0 m), hex0. split; [exact Hfirst|]. intros Hc. apply E.
        apply Hiff. exact Hc.
      * intros (i & hex & Hi & Hne).
        destruct (Huniq _ _ Hi) as [-> ->]. f_equal. apply Z.eqb_neq.
        intros Hc. apply Hne. apply Hiff. exact Hc.
    + split.
      * intros [e E]. discriminate E.
      * intros Hnone. exfalso. destruct Hfirst as [Hm _]. exact (Hnone _ _ Hm).
  - destruct H as (Hnone & _). split; [|split].
    + split; [discriminate|]. intros (i & hex & [Hi _] & _). exfalso. exact (Hnone _ _ Hi).
    + split; [discriminate|]. intros (i & hex & [Hi _] & _). exfalso. exact (Hnone _ _ Hi).
    + split; [intros _; exact Hnone|]. intros _. eexists. reflexivity.
Qed.

Lemma reader_trichotomy_witness :
  let r := NewReader DefaultConfig in
  let style := Style DefaultConfig in
  let computed i :=
    Sum32 (hWrite NewIEEE (strip_line_ending (take i stamped_package_main))) in
  (verifyWindow r NewIEEE stamped_package_main = inl true <->
     exists i hex, first_marker style stamped_package_main i hex
                   /\ hex = fmt_08X (computed i))
  /\ (verifyWindow r NewIEEE stamped_package_main = inl false <->
        exists i hex, first_marker style stamped_package_main i hex
                      /\ hex <> fmt_08X (computed i))
  /\ ((exists e, verifyWindow r NewIEEE stamped_package_main = inr e) <->
        forall i hex, ~ marker_line_at style stamped_package_main i hex).
Proof.
  apply (reader_trichotomy DefaultConfig NewIEEE stamped_package_main).
  - reflexivity.
  - vm_compute. split; [discriminate|reflexivity].
Defined.

(** ** The sliding-window loops *)

Lemma go_slice_ok (b : list byte) lo hi :
  lo <= hi -> hi <= length b -> go_slice b lo hi = Done (subslice lo hi b).
Proof.
  intros H1 H2. unfold go_slice. rewrite decide_True by (split; assumption). reflexivity.
Qed.

Lemma go_slice_done (b : list byte) lo hi l :
  go_slice b lo hi = Done l -> lo <= hi /\ hi <= length b /\ l = subslice lo hi b.
Proof.
  unfold go_slice. case_decide as H; [|discriminate].
  intros E. injection E as <-. tauto.
Qed.

Lemma subslice_0 (b : list byte) k : subslice 0 k b = take k b.
Proof. unfold subslice. rewrite drop_0, Nat.sub_0_r. reflexivity. Qed.

Lemma length_subslice (b : list byte) lo hi :
  lo <= hi -> hi <= length b -> length (subslice lo hi b) = hi - lo.
Proof.
  intros H1 H2. unfold subslice. rewrite length_take, length_drop. lia.
Qed.

Lemma length_copy (buffer part : list byte) :
  length part <= length buffer -> length (copy buffer part) = length buffer.
Proof.
  intros H. unfold copy. rewrite length_take, length_app, length_drop. lia.
Qed.

Lemma take_copy (buffer part : list byte) :
  length part <= length buffer -> take (length part) (copy buffer part) = part.
Proof.
  intros H. unfold copy. rewrite take_take.
  rewrite Nat.min_l by exact H. apply take_app_length.
Qed.

(** Sliding the last [n - k] buffered bytes to the front. *)
Lemma slide_view (buffer : list byte) n k :
  k <= n -> n <= length buffer ->
  let tail := subslice k n buffer in
  length (copy buffer tail) = length buffer
  /\ take (n - k) (copy buffer tail) = drop k (take n buffer)
  /\ subslice 0 k buffer = take k (take n buffer).
Proof.
  intros Hk Hn tail.
  assert (Hlen : length tail = n - k) by (apply length_subslice; assumption).
  assert (Htail : tail = drop k (take n buffer)).
  { unfold tail, subslice. rewrite take_drop_commute. f_equal. f_equal. lia. }
  split; [apply length_copy; lia|]. split.
  - rewrite <- Hlen. rewrite take_copy by lia. exact Htail.
  - rewrite subslice_0, take_take. f_equal. lia.
Qed.

Lemma Read_facts (s : source) cap :
  let '(chunk, eof, s') := Read s cap in
  chunk ++ data s' = data s
  /\ length chunk <= cap
  /\ (eof = true -> data s' = [])
  /\ plan s' = tail (plan s)
  /\ eof_with_data s' = eof_with_data s.
Proof.
  unfold Read. cbn [data plan eof_with_data].
  set (want := match plan s with [] => cap | k :: _ => Nat.min k cap end).
  assert (Hw : want <= cap) by (unfold want; destruct (plan s); lia).
  split; [apply take_drop|]. split; [rewrite length_take; lia|].
  split; [|split; reflexivity].
  destruct (drop want (data s)); [reflexivity|discriminate].
Qed.

(** A file-like source fills the slice while input remains and reports
    EOF by a read of zero bytes. *)
Lemma Read_file_like (s : source) cap :
  plan s = [] -> eof_with_data s = false -> 0 < cap ->
  let '(chunk, eof, s') := Read s cap in
  chunk = take cap (data s)
  /\ data s' = drop cap (data s)
  /\ eof = bool_decide (data s = [])
  /\ plan s' = [] /\ eof_with_data s' = false.
Proof.
  intros Hp He Hc. unfold Read. rewrite Hp, He. cbn [data plan eof_with_data tail].
  split; [reflexivity|]. split; [reflexivity|]. split; [|split; reflexivity].
  replace (0 <? cap) with true by (symmetry; apply Nat.ltb_lt; exact Hc).
  cbn [orb andb].
  destruct (data s) as [|c rest] eqn:Hd.
  - rewrite drop_nil, take_nil. reflexivity.
  - rewrite bool_decide_false by discriminate.
    destruct (drop cap (c :: rest)); [|reflexivity].
    destruct cap; [lia|]. reflexivity.
Qed.

Lemma read_at_spec (buffer : list byte) n (s : source) :
  n <= length buffer ->
  let '(chunk, eof, s') := Read s (length buffer - n) in
  exists buf',
    read_at buffer n s = Done (buf', length chunk, eof, s')
    /\ length buf' = length buffer
    /\ take (n + length chunk) buf' = take n buffer ++ chunk.
Proof.
  intros Hn. unfold read_at.
  rewrite go_slice_ok by lia. cbn [mbind outcome_bind].
  rewrite length_subslice by lia.
  pose proof (Read_facts s (length buffer - n)) as HR.
  destruct (Read s (length buffer - n)) as [[chunk eof] s'].
  destruct HR as (_ & Hc & _).
  eexists. split; [reflexivity|]. split.
  - rewrite !length_app, length_take, length_drop. lia.
  - rewrite app_assoc. rewrite take_app_length'; [reflexivity|].
    rewrite length_app, length_take. lia.
Qed.

Lemma read_at_panics (buffer : list byte) n (s : source) :
  length buffer < n -> read_at buffer n s = Panic.
Proof.
  intros Hn. unfold read_at, go_slice. rewrite decide_False by lia. reflexivity.
Qed.

Lemma process_iter_spec W st :
  n st <= length (buffer st) ->
  match slide_amount W (firstRead st) (n st) with
  | None => process_iter W st = Panic
  | Some k =>
      let view := take (n st) (buffer st) in
      let '(chunk, eof, s') := Read (src st) (length (buffer st) - (n st - k)) in
      exists buf',
        process_iter W st
        = Done ({| buffer := buf'; n := n st - k + length chunk;
                   firstRead := false;
                   hasher := hWrite (hasher st) (take k view);
                   writer := writer st ++ take k view;
                   src := s' |}, eof)
        /\ length buf' = length (buffer st)
        /\ take (n st - k + length chunk) buf' = drop k view ++ chunk
  end.
Proof.
  intros Hn.
  assert (Hslid : forall k, k <= n st ->
    let view := take (n st) (buffer st) in
    let st1 := {| buffer := copy (buffer st) (subslice k (n st) (buffer st));
                  n := n st - k; firstRead := false;
                  hasher := hWrite (hasher st) (subslice 0 k (buffer st));
                  writer := writer st ++ subslice 0 k (buffer st);
                  src := src st |} in
    let '(chunk, eof, s') := Read (src st) (length (buffer st) - (n st - k)) in
    exists buf',
      ('(buf, bytesRead, eof, s') ← read_at (buffer st1) (n st1) (src st1);
       Done ({| buffer := buf; n := n st1 + bytesRead; firstRead := firstRead st1;
                hasher := hasher st1; writer := writer st1; src := s' |}, eof))
      = Done ({| buffer := buf'; n := n st - k + length chunk;
                 firstRead := false;
                 hasher := hWrite (hasher st) (take k view);
                 writer := writer st ++ take k view;
                 src := s' |}, eof)
      /\ length buf' = length (buffer st)
      /\ take (n st - k + length chunk) buf' = drop k view ++ chunk).
  { intros k Hk view st1.
    destruct (slide_view (buffer st) (n st) k Hk Hn) as (Hlen & Htake & Hhead).
    cbv zeta in Hlen, Htake, Hhead.
    pose proof (read_at_spec (buffer st1) (n st1) (src st1)) as HR.
    unfold st1 in HR. cbn [buffer n src] in HR. rewrite Hlen in HR.
    specialize (HR ltac:(lia)).
    unfold st1. cbn [buffer n src firstRead hasher writer].
    destruct (Read (src st) (length (buffer st) - (n st - k))) as [[chunk eof] s'].
    destruct HR as (buf' & HRe & HRl & HRt).
    exists buf'. rewrite HRe. cbn [mbind outcome_bind].
    rewrite Hhead. split; [reflexivity|]. split; [exact HRl|].
    rewrite HRt, Htake. reflexivity. }
  unfold slide_amount, process_iter.
  destruct (firstRead st) eqn:Hfirst.
  - destruct (W <? n st) eqn:HW.
    + apply Nat.ltb_lt in HW.
      rewrite !go_slice_ok by lia. cbn [mbind outcome_bind].
      apply (Hslid (n st - W)). lia.
    + cbn [mbind outcome_bind].
      specialize (Hslid 0 ltac:(lia)). cbv zeta in Hslid.
      rewrite Nat.sub_0_r in *.
      pose proof (read_at_spec (buffer st) (n st) (src st) Hn) as HR.
      cbn [buffer n src firstRead hasher writer].
      destruct (Read (src st) (length (buffer st) - n st)) as [[chunk eof] s'].
      destruct HR as (buf' & HRe & HRl & HRt).
      exists buf'. rewrite HRe. cbn [mbind outcome_bind].
      rewrite take_0, drop_0, hWrite_nil, app_nil_r.
      split; [reflexivity|]. split; [exact HRl|exact HRt].
  - unfold slice_bound. case_decide as HW; [|reflexivity].
    cbn [mbind outcome_bind].
    rewrite !go_slice_ok by lia. cbn [mbind outcome_bind].
    specialize (Hslid (n st - W) ltac:(lia)). cbv zeta in Hslid.
    replace (n st - (n st - W)) with W in Hslid by lia.
    cbn [buffer n src firstRead hasher writer] in *.
    replace (n st - (n st - W)) with W by lia.
    exact Hslid.
Qed.

Lemma process_iter_inv W content st st' eof' :
  winv content st -> process_iter W st = Done (st', eof') ->
  winv content st'
  /\ (eof' = true -> data (src st') = [])
  /\ length (buffer st') = length (buffer st).
Proof.
  intros (Hn & Hc & Hh) Hrun.
  pose proof (process_iter_spec W st Hn) as Hs.
  destruct (slide_amount W (firstRead st) (n st)) as [k|]; [|congruence].
  cbv zeta in Hs.
  pose proof (Read_facts (src st) (length (buffer st) - (n st - k))) as HR.
  destruct (Read _ _) as [[chunk eof] s'].
  destruct Hs as (buf' & He & Hl & Ht).
  destruct HR as (Hd & Hlen & Heof & _).
  rewrite He in Hrun. injection Hrun as <- <-.
  unfold winv. cbn [buffer n src hasher writer].
  split; [|split; [exact Heof|exact Hl]].
  split; [lia|]. split.
  - rewrite Ht, <- Hc, <- Hd, <- !app_assoc. f_equal.
    rewrite !app_assoc. f_equal. f_equal. apply take_drop.
  - rewrite Hh, hWrite_app. reflexivity.
Qed.

Lemma process_loop_inv fuel W content : forall st eof st',
  winv content st -> (eof = true -> data (src st) = []) ->
  process_loop fuel W st eof = Done st' ->
  winv content st' /\ data (src st') = [].
Proof.
  induction fuel as [|fuel IH]; intros st eof st' Hinv Heof Hrun.
  - destruct eof; [|discriminate]. cbn in Hrun. injection Hrun as <-. auto.
  - destruct eof.
    + cbn in Hrun. injection Hrun as <-. auto.
    + cbn [process_loop] in Hrun.
      destruct (process_iter W st) as [[st1 eof1]| |] eqn:Hit; try discriminate.
      cbn [mbind outcome_bind] in Hrun.
      destruct (process_iter_inv _ _ _ _ _ Hinv Hit) as (Hinv1 & Heof1 & _).
      exact (IH _ _ _ Hinv1 Heof1 Hrun).
Qed.

Lemma finish_reference w content st :
  winv content st -> data (src st) = [] ->
  go_slice (buffer st) 0 (n st) = Done (take (n st) (buffer st))
  /\ n st <= length content
  /\ finalizeWindow w (writer st) (hasher st) (take (n st) (buffer st))
     = reference_process w content (n st)
  /\ forall r, verifyWindow r (hasher st) (take (n st) (buffer st))
               = reference_verify r content (n st).
Proof.
  intros (Hn & Hc & Hh) Hd. rewrite Hd, app_nil_r in Hc.
  assert (Hlen : length content = length (writer st) + n st).
  { rewrite <- Hc, length_app, length_take. lia. }
  assert (Hk : length content - n st = length (writer st)) by lia.
  assert (Hb : take (length content - n st) content = writer st).
  { rewrite Hk, <- Hc. apply take_app_length. }
  assert (Ha : drop (length content - n st) content = take (n st) (buffer st)).
  { rewrite Hk, <- Hc. apply drop_app_length. }
  split; [rewrite go_slice_ok by lia; rewrite subslice_0; reflexivity|].
  split; [lia|]. split.
  - unfold reference_process. rewrite Hb, Ha, Hh. reflexivity.
  - intros r. unfold reference_verify. rewrite Hb, Ha, Hh. reflexivity.
Qed.

Lemma initial_read (B : nat) (s : source) :
  let '(chunk, eof, s') := Read s B in
  exists buf,
    read_at (replicate B "000"%byte) 0 s = Done (buf, length chunk, eof, s')
    /\ length buf = B
    /\ take (length chunk) buf = chunk
    /\ chunk ++ data s' = data s
    /\ (eof = true -> data s' = []).
Proof.
  pose proof (read_at_spec (replicate B "000"%byte) 0 s ltac:(lia)) as HR.
  rewrite length_replicate, Nat.sub_0_r in HR.
  pose proof (Read_facts s B) as HF.
  destruct (Read s B) as [[chunk eof] s'].
  destruct HR as (buf & He & Hl & Ht). destruct HF as (Hd & _ & Heof & _).
  exists buf. rewrite take_0 in Ht. cbn in Ht. auto.
Qed.

(** Any run of the Writer's loop that finishes has written and
    checksummed the content before its final window, byte for byte. *)
Lemma processStream_reference fuel config s res :
  fst (fst (Read s (BufferSize config))) <> [] ->
  processStream fuel (NewWriter config) s = Done res ->
  exists k, k <= length (data s)
            /\ res = reference_process (NewWriter config) (data s) k.
Proof.
  intros Hfirst Hrun. unfold processStream in Hrun.
  cbn [w_config NewWriter] in Hrun. fold (NewWriter config) in Hrun.
  pose proof (initial_read (BufferSize config) s) as HI.
  destruct (Read s (BufferSize config)) as [[chunk eof] s'].
  cbn [fst] in Hfirst.
  destruct HI as (buf & He & Hl & Ht & Hd & Heof).
  rewrite He in Hrun. cbn [mbind outcome_bind] in Hrun.
  destruct (length chunk =? 0) eqn:Hz.
  { apply Nat.eqb_eq in Hz. destruct chunk; [contradiction|discriminate]. }
  destruct (process_loop _ _ _ _) as [st| |] eqn:Hloop; try discriminate.
  cbn [mbind outcome_bind] in Hrun.
  assert (Hinv : winv (data s)
            {| buffer := buf; n := length chunk; firstRead := true;
               hasher := NewIEEE; writer := []; src := s' |}).
  { unfold winv. cbn [buffer n src hasher writer].
    split; [rewrite Hl; apply (f_equal length) in Ht;
            rewrite length_take in Ht; lia|].
    split; [rewrite Ht; exact Hd|]. rewrite hWrite_nil. reflexivity. }
  destruct (process_loop_inv _ _ _ _ _ _ Hinv Heof Hloop) as (Hinv' & Hd').
  destruct (finish_reference (NewWriter config) _ _ Hinv' Hd') as (Hs & Hk & Hf & _).
  rewrite Hs in Hrun. cbn [mbind outcome_bind] in Hrun.
  injection Hrun as <-. exists (n st). split; [exact Hk|exact Hf].
Qed.

(** The Reader's loop is the Writer's loop without the output. *)
Lemma verify_iter_forget W st :
  verify_iter W (forget st)
  = match process_iter W st with
    | Done (st', eof) => Done (forget st', eof)
    | Panic => Panic
    | OutOfFuel => OutOfFuel
    end.
Proof.
  unfold verify_iter, process_iter, forget.
  cbn [r_buffer r_n r_firstRead r_hasher r_src].
  destruct (firstRead st).
  - destruct (W <? n st).
    + destruct (go_slice (buffer st) 0 (n st - W)) as [head| |]; try reflexivity.
      cbn [mbind outcome_bind].
      destruct (go_slice (buffer st) (n st - W) (n st)) as [tl| |]; try reflexivity.
      cbn [mbind outcome_bind buffer n src firstRead hasher writer
           r_buffer r_n r_firstRead r_hasher r_src].
      destruct (read_at _ _ _) as [[[[buf c] eof] s']| |]; reflexivity.
    + cbn [mbind outcome_bind buffer n src firstRead hasher writer
           r_buffer r_n r_firstRead r_hasher r_src].
      destruct (read_at _ _ _) as [[[[buf c] eof] s']| |]; reflexivity.
  - destruct (slice_bound (n st) W) as [k| |]; try reflexivity.
    cbn [mbind outcome_bind].
    destruct (go_slice (buffer st) 0 k) as [head| |]; try reflexivity.
    cbn [mbind outcome_bind].
    destruct (go_slice (buffer st) k (n st)) as [tl| |]; try reflexivity.
    cbn [mbind outcome_bind buffer n src firstRead hasher writer
         r_buffer r_n r_firstRead r_hasher r_src].
    destruct (read_at _ _ _) as [[[[buf c] eof] s']| |]; reflexivity.
Qed.

Lemma verify_loop_forget fuel W : forall st eof,
  verify_loop fuel W (forget st) eof
  = match process_loop fuel W st eof with
    | Done st' => Done (forget st')
    | Panic => Panic
    | OutOfFuel => OutOfFuel
    end.
Proof.
  induction fuel as [|fuel IH]; intros st eof.
  - destruct eof; reflexivity.
  - destruct eof; [reflexivity|].
    cbn [verify_loop process_loop]. rewrite verify_iter_forget.
    destruct (process_iter W st) as [[st1 eof1]| |]; try reflexivity.
    cbn [mbind outcome_bind]. apply IH.
Qed.

(** [verifyStream] in terms of the Writer's loop. *)
Lemma verifyStream_eq fuel config s :
  verifyStream fuel (NewReader config) s
  = let '(chunk, eof, s') := Read s (BufferSize config) in
    if length chunk =? 0 then Done (inr EmptyFile)
    else
      match read_at (replicate (BufferSize config) "000"%byte) 0 s with
      | Done (buf, _, _, _) =>
          st ← process_loop fuel (windowSize config)
                 {| buffer := buf; n := length chunk; firstRead := true;
                    hasher := NewIEEE; writer := []; src := s' |} eof;
          window ← go_slice (buffer st) 0 (n st);
          Done (verifyWindow (NewReader config) (hasher st) window)
      | Panic => Panic
      | OutOfFuel => OutOfFuel
      end.
Proof.
  unfold verifyStream. cbn [r_config NewReader]. fold (NewReader config).
  pose proof (initial_read (BufferSize config) s) as HI.
  destruct (Read s (BufferSize config)) as [[chunk eof] s'].
  destruct HI as (buf & He & _). rewrite He. cbn [mbind outcome_bind].
  destruct (length chunk =? 0); [reflexivity|].
  change {| r_buffer := buf; r_n := length chunk; r_firstRead := true;
            r_hasher := NewIEEE; r_src := s' |}
    with (forget {| buffer := buf; n := length chunk; firstRead := true;
                    hasher := NewIEEE; writer := []; src := s' |}).
  rewrite verify_loop_forget.
  destruct (process_loop _ _ _ _) as [st| |]; reflexivity.
Qed.

Lemma verifyStream_reference fuel config s res :
  fst (fst (Read s (BufferSize config))) <> [] ->
  verifyStream fuel (NewReader config) s = Done res ->
  exists k, k <= length (data s)
            /\ res = reference_verify (NewReader config) (data s) k.
Proof.
  intros Hfirst Hrun. rewrite verifyStream_eq in Hrun.
  pose proof (initial_read (BufferSize config) s) as HI.
  destruct (Read s (BufferSize config)) as [[chunk eof] s'].
  cbn [fst] in Hfirst.
  destruct HI as (buf & He & Hl & Ht & Hd & Heof).
  rewrite He in Hrun.
  destruct (length chunk =? 0) eqn:Hz.
  { apply Nat.eqb_eq in Hz. destruct chunk; [contradiction|discriminate]. }
  destruct (process_loop _ _ _ _) as [st| |] eqn:Hloop; try discriminate.
  cbn [mbind outcome_bind] in Hrun.
  assert (Hinv : winv (data s)
            {| buffer := buf; n := length chunk; firstRead := true;
               hasher := NewIEEE; writer := []; src := s' |}).
  { unfold winv. cbn [buffer n src hasher writer].
    split; [rewrite Hl; apply (f_equal length) in Ht;
            rewrite length_take in Ht; lia|].
    split; [rewrite Ht; exact Hd|]. rewrite hWrite_nil. reflexivity. }
  destruct (process_loop_inv _ _ _ _ _ _ Hinv Heof Hloop) as (Hinv' & Hd').
  destruct (finish_reference (NewWriter config) _ _ Hinv' Hd') as (Hs & Hk & _ & Hf).
  rewrite Hs in Hrun. cbn [mbind outcome_bind] in Hrun.
  injection Hrun as <-. exists (n st). split; [exact Hk|apply Hf].
Qed.

(** On a file-like source and a buffer larger than the window the loop
    finishes within [length data + 1] iterations, never slices out of
    range, and ends with a window of [W] bytes (or the whole input). *)
Lemma process_loop_file fuel W content : forall st,
  winv content st -> file_inv W st -> length (data (src st)) < fuel ->
  exists st', process_loop fuel W st false = Done st'
              /\ (n st' = W \/ (writer st' = [] /\ n st' <= W)).
Proof.
  induction fuel as [|fuel IH]; intros st Hinv Hfile Hfuel; [lia|].
  cbn [process_loop].
  pose proof (process_iter_inv W content st) as Hstep.
  destruct Hinv as (Hn & Hc & Hh).
  destruct Hfile as (Hplan & Hewd & HB & Hfirst).
  pose proof (process_iter_spec W st Hn) as Hs.
  assert (Hk : exists k, slide_amount W (firstRead st) (n st) = Some k
                         /\ n st - k <= W
                         /\ (n st - k = W \/ (firstRead st = true /\ k = 0 /\ n st <= W))).
  { unfold slide_amount. destruct (firstRead st).
    - destruct (W <? n st) eqn:HW.
      + apply Nat.ltb_lt in HW. eexists. split; [reflexivity|]. lia.
      + apply Nat.ltb_ge in HW. eexists. split; [reflexivity|]. lia.
    - rewrite decide_True by exact Hfirst. eexists. split; [reflexivity|]. lia. }
  destruct Hk as (k & Hk & Hn1 & Hcase). rewrite Hk in Hs. cbv zeta in Hs.
  pose proof (Read_file_like (src st) (length (buffer st) - (n st - k))
                Hplan Hewd ltac:(lia)) as HR.
  destruct (Read _ _) as [[chunk eof] s'].
  destruct Hs as (buf' & He & Hl & Ht).
  destruct HR as (Hchunk & Hd & Heof & Hplan' & Hewd').
  rewrite He. cbn [mbind outcome_bind].
  specialize (Hstep _ _ (conj Hn (conj Hc Hh)) He).
  destruct Hstep as (Hinv1 & _ & _).
  destruct (data (src st)) as [|c rest] eqn:Hdata.
  - rewrite bool_decide_true in Heof by reflexivity. subst eof.
    rewrite process_loop_eof. eexists. split; [reflexivity|].
    cbn [n writer]. rewrite take_nil in Hchunk. subst chunk. cbn [length].
    rewrite Nat.add_0_r.
    destruct Hcase as [E|(Hf & -> & Hle)]; [left; exact E|].
    right. rewrite Hf in Hfirst. destruct Hfirst as [-> _].
    rewrite take_0. split; [reflexivity|lia].
  - rewrite bool_decide_false in Heof by discriminate. subst eof.
    apply IH.
    + exact Hinv1.
    + unfold file_inv. cbn [buffer n src firstRead writer].
      rewrite Hl. split; [exact Hplan'|]. split; [exact Hewd'|]. split; [exact HB|].
      destruct Hcase as [E|(Hf & -> & Hle)]; [lia|].
      rewrite Hf in Hfirst. destruct Hfirst as [_ Hd0].
      specialize (Hd0 ltac:(lia)). discriminate Hd0.
    + cbn [src]. rewrite Hd, length_drop. cbn [length] in *. lia.
Qed.

Lemma file_source_first_read (B : nat) (content : list byte) :
  0 < B -> content <> [] ->
  let '(chunk, eof, s') := Read (file_source content) B in
  chunk = take B content /\ eof = false /\ chunk <> []
  /\ plan s' = [] /\ eof_with_data s' = false
  /\ data s' = drop B content.
Proof.
  intros HB Hne.
  pose proof (Read_file_like (file_source content) B eq_refl eq_refl HB) as HR.
  destruct (Read (file_source content) B) as [[chunk eof] s'].
  destruct HR as (Hc & Hd & He & Hp & Hw). cbn [data file_source] in *.
  rewrite bool_decide_false in He by exact Hne.
  repeat split; try assumption.
  subst chunk. destruct content; [contradiction|]. destruct B; [lia|]. discriminate.
Qed.

(** A regular file read through a buffer larger than the window. *)
Section FileLike.

Variable config : Config.
Variable content : list byte.
Hypothesis buffer_exceeds_window : windowSize config < BufferSize config.
Hypothesis content_not_empty : content <> [].

Lemma file_run (fuel : nat) :
  length content < fuel ->
  let '(chunk, eof, s') := Read (file_source content) (BufferSize config) in
  chunk <> []
  /\ exists buf st',
       read_at (replicate (BufferSize config) "000"%byte) 0 (file_source content)
         = Done (buf, length chunk, eof, s')
       /\ process_loop fuel (windowSize config)
            {| buffer := buf; n := length chunk; firstRead := true;
               hasher := NewIEEE; writer := []; src := s' |} eof = Done st'
       /\ winv content st' /\ data (src st') = []
       /\ n st' = Nat.min (windowSize config) (length content).
Proof.
  intros Hfuel.
  pose proof (initial_read (BufferSize config) (file_source content)) as HI.
  pose proof (file_source_first_read (BufferSize config) content
                ltac:(lia) content_not_empty) as HF.
  destruct (Read (file_source content) (BufferSize config)) as [[chunk eof] s'].
  destruct HI as (buf & He & Hl & Ht & Hd & Heof).
  destruct HF as (Hc & -> & Hcne & Hp & Hw & Hds).
  cbn [data file_source] in Hd.
  split; [exact Hcne|]. exists buf.
  set (st0 := {| buffer := buf; n := length chunk; firstRead := true;
                 hasher := NewIEEE; writer := []; src := s' |}).
  assert (Hinv : winv content st0).
  { unfold winv, st0. cbn [buffer n src hasher writer].
    split; [rewrite Hl, Hc, length_take; lia|].
    split; [rewrite Ht; exact Hd|]. rewrite hWrite_nil. reflexivity. }
  assert (Hfile : file_inv (windowSize config) st0).
  { unfold file_inv, st0. cbn [buffer n src firstRead writer].
    rewrite Hl. split; [exact Hp|]. split; [exact Hw|].
    split; [exact buffer_exceeds_window|].
    split; [reflexivity|]. intros Hlt. rewrite Hds. apply drop_ge.
    rewrite Hc, length_take in Hlt. lia. }
  destruct (process_loop_file fuel _ content st0 Hinv Hfile) as (st' & Hrun & Hend).
  { unfold st0. cbn [src]. rewrite Hds, length_drop. lia. }
  exists st'. split; [exact He|]. split; [exact Hrun|].
  assert (Hnoeof : false = true -> data (src st0) = []) by (intros E; discriminate E).
  destruct (process_loop_inv _ _ _ _ _ _ Hinv Hnoeof Hrun) as (Hinv' & Hd').
  split; [exact Hinv'|]. split; [exact Hd'|].
  destruct Hinv' as (Hn' & Hc' & _). rewrite Hd', app_nil_r in Hc'.
  apply (f_equal length) in Hc'. rewrite length_app, length_take in Hc'.
  destruct Hend as [E|[Hw' Hle]]; [lia|].
  rewrite Hw' in Hc'. cbn [length] in Hc'. lia.
Qed.

Lemma processStream_file (fuel : nat) :
  length content < fuel ->
  processStream fuel (NewWriter config) (file_source content)
  = Done (reference_process (NewWriter config) content
            (Nat.min (windowSize config) (length content))).
Proof.
  intros Hfuel. pose proof (file_run fuel Hfuel) as HR.
  unfold processStream. cbn [w_config NewWriter]. fold (NewWriter config).
  destruct (Read (file_source content) (BufferSize config)) as [[chunk eof] s'].
  destruct HR as (Hcne & buf & st' & He & Hrun & Hinv & Hd & Hn).
  rewrite He. cbn [mbind outcome_bind].
  destruct (length chunk =? 0) eqn:Hz.
  { apply Nat.eqb_eq in Hz. destruct chunk; [contradiction|discriminate]. }
  rewrite Hrun. cbn [mbind outcome_bind].
  destruct (finish_reference (NewWriter config) _ _ Hinv Hd) as (Hs & _ & Hf & _).
  rewrite Hs. cbn [mbind outcome_bind]. rewrite Hf, Hn. reflexivity.
Qed.

Lemma verifyStream_file (fuel : nat) :
  length content < fuel ->
  verifyStream fuel (NewReader config) (file_source content)
  = Done (reference_verify (NewReader config) content
            (Nat.min (windowSize config) (length content))).
Proof.
  intros Hfuel. pose proof (file_run fuel Hfuel) as HR.
  rewrite verifyStream_eq.
  destruct (Read (file_source content) (BufferSize config)) as [[chunk eof] s'].
  destruct HR as (Hcne & buf & st' & He & Hrun & Hinv & Hd & Hn).
  rewrite He.
  destruct (length chunk =? 0) eqn:Hz.
  { apply Nat.eqb_eq in Hz. destruct chunk; [contradiction|discriminate]. }
  rewrite Hrun. cbn [mbind outcome_bind].
  destruct (finish_reference (NewWriter config) _ _ Hinv Hd) as (Hs & _ & _ & Hf).
  rewrite Hs. cbn [mbind outcome_bind]. rewrite Hf, Hn. reflexivity.
Qed.

End FileLike.

(** ** The streaming loops against the in-memory reference *)

Lemma short_reads_processStream_panics fuel :
  2 <= fuel -> processStream fuel (NewWriter DefaultConfig) short_reads = Panic.
Proof.
  intros H. apply (processStream_stable 2); [vm_compute; reflexivity|discriminate|exact H].
Qed.

Lemma short_reads_verifyStream_panics fuel :
  2 <= fuel -> verifyStream fuel (NewReader DefaultConfig) short_reads = Panic.
Proof.
  intros H. apply (verifyStream_stable 2); [vm_compute; reflexivity|discriminate|exact H].
Qed.

Lemma process_loop_stuck W st :
  process_iter W st = Done (st, false) ->
  forall fuel, process_loop fuel W st false = OutOfFuel.
Proof.
  intros Hit fuel. induction fuel as [|fuel IH]; [reflexivity|].
  cbn [process_loop]. rewrite Hit. cbn [mbind outcome_bind]. exact IH.
Qed.

Lemma tight_config_never_finishes fuel :
  processStream fuel (NewWriter tight_config) (file_source forty_bytes) = OutOfFuel.
Proof.
  unfold processStream.
  assert (Hread : read_at (replicate (BufferSize (w_config (NewWriter tight_config)))
                             "000"%byte) 0 (file_source forty_bytes)
                  = Done (take 30 forty_bytes, 30, false, src tight_state))
    by (vm_compute; reflexivity).
  rewrite Hread. cbn [mbind outcome_bind].
  change (30 =? 0) with false. cbv iota.
  destruct fuel as [|fuel]; [reflexivity|].
  cbn [process_loop].
  assert (Hfirst : process_iter (windowSize (w_config (NewWriter tight_config)))
                     {| buffer := take 30 forty_bytes; n := 30; firstRead := true;
                        hasher := NewIEEE; writer := []; src := src tight_state |}
                   = Done (tight_state, false)) by (vm_compute; reflexivity).
  rewrite Hfirst. cbn [mbind outcome_bind].
  rewrite process_loop_stuck; [reflexivity|]. vm_compute. reflexivity.
Qed.

(** A first read of no bytes ends both passes at once, whatever the
    source still holds. *)
Lemma first_read_empty (fuel : nat) (config : Config) (s : source) :
  fst (fst (Read s (BufferSize config))) = [] ->
  processStream fuel (NewWriter config) s
    = Done (false, createComment (NewWriter config) 0 [LF])
  /\ verifyStream fuel (NewReader config) s = Done (inr EmptyFile).
Proof.
  intros E. unfold processStream, verifyStream, read_at, go_slice.
  cbn [w_config NewWriter r_config NewReader]. rewrite length_replicate.
  destruct (decide _) as [_|Hn]; [|exfalso; apply Hn; lia].
  cbn [mbind outcome_bind]. unfold subslice. rewrite Nat.sub_0_r, drop_0.
  rewrite take_ge by (rewrite length_replicate; lia). rewrite length_replicate.
  destruct (Read s (BufferSize config)) as [[chunk eof] s'] eqn:ER.
  cbn [fst] in E. subst chunk. cbn [length Nat.eqb].
  split; reflexivity.
Qed.

(** C4 (as amended). For every content and every way the input is split
    into read chunks in which the first read delivers at least one
    byte, a run of the sliding-window loop that finishes produces
    exactly what the in-memory reference produces for the final window
    the run ended with: everything before that window has been
    checksummed and written once, in order, and the window is handled by
    the same final step. A first read of no bytes ends the run at once
    as on an empty file, whatever the source still holds: the Writer
    writes the marker of the empty file and the Reader returns the
    empty-file error. On a file-like source (every read fills the free
    space while input remains, end of stream comes with a last empty
    read) with non-empty content and a buffer larger than the window,
    the loop does finish, and the final window is the last [windowSize]
    bytes of the content (all of it when it is shorter). The same holds
    for the Reader. *)
Theorem streaming_refines_reference (config : Config) (s : source) :
  let w := NewWriter config in
  let r := NewReader config in
  let W := windowSize config in
  (forall fuel res,
     fst (fst (Read s (BufferSize config))) <> [] ->
     processStream fuel w s = Done res ->
     exists k, k <= length (data s) /\ res = reference_process w (data s) k)
  /\ (forall fuel res,
        fst (fst (Read s (BufferSize config))) <> [] ->
        verifyStream fuel r s = Done res ->
        exists k, k <= length (data s) /\ res = reference_verify r (data s) k)
  /\ (forall fuel,
        fst (fst (Read s (BufferSize config))) = [] ->
        processStream fuel w s = Done (false, createComment w 0 [LF])
        /\ verifyStream fuel r s = Done (inr EmptyFile))
  /\ (forall fuel,
        W < BufferSize config -> data s <> [] -> length (data s) < fuel ->
        processStream fuel w (file_source (data s))
          = Done (reference_process w (data s) (Nat.min W (length (data s))))
        /\ verifyStream fuel r (file_source (data s))
           = Done (reference_verify r (data s) (Nat.min W (length (data s))))).
Proof.
  intros w r W. split; [|split; [|split]].
  - intros fuel res Hfirst Hrun. exact (processStream_reference _ _ _ _ Hfirst Hrun).
  - intros fuel res Hfirst Hrun. exact (verifyStream_reference _ _ _ _ Hfirst Hrun).
  - intros fuel Hfirst. exact (first_read_empty fuel config s Hfirst).
  - intros fuel HB Hne Hfuel. split.
    + apply processStream_file; assumption.
    + apply verifyStream_file; assumption.
Qed.

Lemma streaming_refines_reference_witness :
  (exists k, k <= length package_main
     /\ (false, stamped_package_main)
        = reference_process (NewWriter DefaultConfig) package_main k)
  /\ (let s := {| data := bytes "abc"; plan := [0]; eof_with_data := false |} in
      processStream 1 (NewWriter DefaultConfig) s
        = Done (false, createComment (NewWriter DefaultConfig) 0 [LF])
      /\ verifyStream 1 (NewReader DefaultConfig) s = Done (inr EmptyFile))
  /\ processStream 14 (NewWriter DefaultConfig) (file_source package_main)
     = Done (reference_process (NewWriter DefaultConfig) package_main
               (Nat.min (windowSize DefaultConfig) (length package_main)))
  /\ verifyStream 14 (NewReader DefaultConfig) (file_source package_main)
     = Done (reference_verify (NewReader DefaultConfig) package_main
               (Nat.min (windowSize DefaultConfig) (length package_main))).
Proof.
  destruct (streaming_refines_reference DefaultConfig (file_source package_main))
    as (Hw & _ & _ & Hfile).
  destruct (streaming_refines_reference DefaultConfig
              {| data := bytes "abc"; plan := [0]; eof_with_data := false |})
    as (_ & _ & Hempty & _).
  split; [|split].
  - apply (Hw 1).
    + vm_compute. discriminate.
    + vm_compute. reflexivity.
  - apply (Hempty 1). vm_compute. reflexivity.
  - apply (Hfile 14).
    + apply Nat.ltb_lt. vm_compute. reflexivity.
    + vm_compute. discriminate.
    + vm_compute. lia.
Defined.

(** Two inputs on which the loop produces nothing, although the buffer
    is at least as large as the window: reads of five bytes make it
    slice out of range, and a buffer of exactly [windowSize] bytes makes
    it read into an empty slice forever. *)
Lemma streaming_not_for_every_chunking_and_size :
  windowSize DefaultConfig <= BufferSize DefaultConfig
  /\ (forall fuel, 2 <= fuel ->
        processStream fuel (NewWriter DefaultConfig) short_reads = Panic)
  /\ windowSize tight_config <= BufferSize tight_config
  /\ (forall fuel,
        processStream fuel (NewWriter tight_config) (file_source forty_bytes)
        = OutOfFuel).
Proof.
  split; [apply Nat.leb_le; vm_compute; reflexivity|].
  split; [exact short_reads_processStream_panics|].
  split; [apply Nat.leb_le; vm_compute; reflexivity|].
  exact tight_config_never_finishes.
Qed.

(** C10 at its failing input: with the default 64 KiB buffer, a source
    that delivers five bytes, five bytes and then EOF takes both loops
    into the subsequent-chunk branch with n = 10 < windowSize = 30, and
    [buffer[:n-windowSize]] is out of range. *)
Theorem short_reads_slice_out_of_range :
  windowSize DefaultConfig = 30
  /\ windowSize DefaultConfig <= BufferSize DefaultConfig
  /\ slide_amount (windowSize DefaultConfig) false 10 = None
  /\ (forall k, processStream (2 + k) (NewWriter DefaultConfig) short_reads = Panic)
  /\ (forall k, verifyStream (2 + k) (NewReader DefaultConfig) short_reads = Panic).
Proof.
  split; [reflexivity|].
  split; [apply Nat.leb_le; vm_compute; reflexivity|].
  split; [vm_compute; reflexivity|].
  split; intros k.
  - apply short_reads_processStream_panics. lia.
  - apply short_reads_verifyStream_panics. lia.
Qed.

(** ** ProcessFile: the no-op frame *)

(** C9. Whenever the engine reports a no-op, [ProcessFile] succeeds
    having only looked at the target, created the temporary file,
    written to it and removed it: no call renames, chmods, chowns,
    writes or removes the target path, and the file system afterwards
    maps every path, the target included, to the same content and
    metadata as before. *)
Theorem no_op_leaves_target_untouched
    (fuel : nat) (w : Writer) (filename tmpName : string) (σ : world)
    (f : file) (out : list byte) :
  files σ !! filename = Some f ->
  files σ !! tmpName = None ->
  processStream fuel w (file_source (f_data f)) = Done (true, out) ->
  exists σ',
    ProcessFile fuel w filename tmpName σ = Done (None, σ')
    /\ files σ' = files σ
    /\ trace σ' = trace σ ++ [SysStat filename; SysOpen filename;
                              SysCreateTemp tmpName; SysWrite tmpName out;
                              SysRemove tmpName]
    /\ Forall (fun e => modifies filename e = false)
         (drop (length (trace σ)) (trace σ')).
Proof.
  intros Hfile Htmp Hrun.
  assert (Hne : tmpName <> filename) by (intros ->; congruence).
  unfold ProcessFile. cbn [files log]. rewrite Hfile, Htmp, Hrun.
  cbn [mbind outcome_bind].
  eexists. split; [reflexivity|].
  split; [|split].
  - cbn [files sys_remove sys_write sys_create log set_files].
    rewrite delete_alter_eq, delete_insert_eq. apply delete_id. exact Htmp.
  - cbn [trace sys_remove sys_write sys_create log set_files].
    rewrite <- !app_assoc. reflexivity.
  - cbn [trace sys_remove sys_write sys_create log set_files].
    rewrite <- !app_assoc. rewrite drop_app_length.
    repeat constructor; cbn [modifies]; apply bool_decide_false; exact Hne.
Qed.

Lemma no_op_leaves_target_untouched_witness :
  exists σ',
    ProcessFile 1 (NewWriter DefaultConfig) "main.go" ".hashfile_1.tmp" one_file_world
      = Done (None, σ')
    /\ files σ' = files one_file_world
    /\ trace σ' = trace one_file_world
                    ++ [SysStat "main.go"; SysOpen "main.go";
                        SysCreateTemp ".hashfile_1.tmp";
                        SysWrite ".hashfile_1.tmp" stamped_package_main;
                        SysRemove ".hashfile_1.tmp"]
    /\ Forall (fun e => modifies "main.go" e = false)
         (drop (length (trace one_file_world)) (trace σ')).
Proof.
  apply (no_op_leaves_target_untouched 1 (NewWriter DefaultConfig)
           "main.go" ".hashfile_1.tmp" one_file_world main_go stamped_package_main).
  - vm_compute. reflexivity.
  - vm_compute. reflexivity.
  - vm_compute. reflexivity.
Defined.

(** ** Scenarios evaluated on the code *)

(** A scenario is settled by running the model with the fuel it needs;
    more fuel gives the same outcome. *)
Ltac run_writer f :=
  apply (processStream_stable f); [vm_compute; reflexivity | discriminate | lia].
Ltac run_reader f :=
  apply (verifyStream_stable f); [vm_compute; reflexivity | discriminate | lia].

(** C2 (as amended). Stamping ["package main\n"] with the Go style gives
    ["package main\n// FileIntegrity: 7FE7DFB2\n"]: the marker follows
    the content's own line ending, and 7FE7DFB2 is the CRC-32/IEEE of the
    twelve bytes ["package main"], the trailing line ending excluded.
    Verifying that output returns valid = true. *)
Theorem package_main_scenario :
  forall k,
    processStream (1 + k) (NewWriter DefaultConfig) (file_source package_main)
      = Done (false, stamped_package_main)
    /\ fmt_08X (ChecksumIEEE (bytes "package main")) = bytes "7FE7DFB2"
    /\ verifyStream (1 + k) (NewReader DefaultConfig) (file_source stamped_package_main)
       = Done (inl true).
Proof.
  intros k. split; [|split].
  - run_writer 1.
  - vm_compute; reflexivity.
  - run_reader 1.
Qed.

(** The output the scenario of C2 states (a blank line before the
    marker, the checksum of all thirteen bytes) is not what the Writer
    produces, whatever the fuel. *)
Lemma package_main_stated_output_wrong :
  ~ exists fuel noop,
      processStream fuel (NewWriter DefaultConfig) (file_source package_main)
      = Done (noop, package_main ++ [LF] ++ bytes "// FileIntegrity: "
                      ++ fmt_08X (ChecksumIEEE package_main) ++ [LF]).
Proof.
  intros (fuel & noop & H).
  assert (H1 : processStream 1 (NewWriter DefaultConfig) (file_source package_main)
               = Done (false, stamped_package_main)) by (vm_compute; reflexivity).
  pose proof (processStream_agree _ _ _ _ _ _ H H1 ltac:(discriminate) ltac:(discriminate)) as E.
  vm_compute in E. discriminate E.
Qed.

(** C1 at its failing inputs. (a) The file ["abc\r"] ends in a carriage
    return without a line feed. The Writer checksums all four bytes and
    inserts an LF before the marker; the Reader then sees the content end
    in CR LF, strips both and computes the checksum of ["abc"]: valid =
    false, for every predefined style. (b) The file is ["x"], a stale
    marker and ["\nabc"], 31 bytes. The final window is its last 30
    bytes and starts with the marker, which the pattern accepts because
    the start of the window counts as a line start. The content part is
    empty, so the new marker is written right after ["x"], and the
    Reader finds no marker at a line start: an error. *)
Theorem round_trip_fails :
  (forall k,
     processStream (1 + k) (NewWriter DefaultConfig) (file_source cr_ended)
       = Done (false, cr_ended_stamped)
     /\ verifyStream (1 + k) (NewReader DefaultConfig) (file_source cr_ended_stamped)
        = Done (inl false))
  /\ map (fun style => round_trip 1 (with_style style) cr_ended) predefined_styles
     = replicate 8 (Done (inl false))
  /\ (forall k,
        processStream (1 + k) (NewWriter DefaultConfig) (file_source stale_marker_then_text)
          = Done (false, restamped_once)
        /\ verifyStream (1 + k) (NewReader DefaultConfig) (file_source restamped_once)
           = Done (inr NoIntegrityComment)).
Proof.
  split; [|split].
  - intros k. split.
    + run_writer 1.
    + run_reader 1.
  - vm_compute. reflexivity.
  - intros k. split.
    + run_writer 1.
    + run_reader 1.
Qed.

(** C3 at its failing inputs, the same two files. (a) The second run
    on the stamped ["abc\r"] computes the checksum of ["abc"], which
    is not the stored one, and rewrites the marker. (b) The second run on
    the other output finds no marker and appends a second one. Neither
    second run is a no-op, and both change the bytes. *)
Theorem second_stamping_not_a_noop :
  (forall k,
     processStream (1 + k) (NewWriter DefaultConfig) (file_source cr_ended)
       = Done (false, cr_ended_stamped)
     /\ processStream (1 + k) (NewWriter DefaultConfig) (file_source cr_ended_stamped)
        = Done (false, cr_ended_restamped)
     /\ cr_ended_restamped <> cr_ended_stamped)
  /\ (forall k,
        processStream (1 + k) (NewWriter DefaultConfig) (file_source stale_marker_then_text)
          = Done (false, restamped_once)
        /\ processStream (1 + k) (NewWriter DefaultConfig) (file_source restamped_once)
           = Done (false, restamped_twice)
        /\ restamped_twice <> restamped_once).
Proof.
  split; intros k; (split; [|split]).
  - run_writer 1.
  - run_writer 1.
  - vm_compute. discriminate.
  - run_writer 1.
  - run_writer 1.
  - vm_compute. discriminate.
Qed.

(** C7. On zero-length input, however the source reports it, the
    Writer's streaming pass succeeds, writes exactly one marker line
    carrying 00000000, the CRC-32 of no bytes, and reports a
    modification; the Reader's streaming pass returns the empty-file
    error. *)
Theorem empty_input :
  forall (config : Config) (p : list nat) (e : bool) (fuel : nat),
    let s := {| data := []; plan := p; eof_with_data := e |} in
    processStream fuel (NewWriter config) s
      = Done (false, Prefix (Style config) ++ bytes "FileIntegrity: 00000000"
                       ++ Suffix (Style config) ++ [LF])
    /\ fmt_08X (ChecksumIEEE []) = bytes "00000000"
    /\ verifyStream fuel (NewReader config) s = Done (inr EmptyFile).
Proof.
  intros config p e fuel s. split; [|split].
  - unfold processStream, read_at, go_slice. simpl.
    destruct (decide _) as [_|Hn]; [|exfalso; apply Hn; lia].
    simpl. rewrite take_nil. simpl. reflexivity.
  - vm_compute; reflexivity.
  - unfold verifyStream, read_at, go_slice. simpl.
    destruct (decide _) as [_|Hn]; [|exfalso; apply Hn; lia].
    simpl. rewrite take_nil. simpl. reflexivity.
Qed.

(* ===================================================================== *)
(** * Further properties of the code *)
(* ===================================================================== *)

(** ** detectLineEnding *)

Lemma detect_from_cases prev content :
  detect_from prev content = [LF] \/ detect_from prev content = [CR; LF].
Proof.
  revert prev. induction content as [|c rest IH]; intros prev; cbn [detect_from].
  - left. reflexivity.
  - destruct (decide (c = LF)); [destruct (decide (prev = Some CR)); auto|apply IH].
Qed.

Lemma detectLineEnding_cases content :
  detectLineEnding content = [LF] \/ detectLineEnding content = [CR; LF].
Proof. apply detect_from_cases. Qed.

Lemma detect_from_first_lf prev a rest :
  LF ∉ a ->
  detect_from prev (a ++ LF :: rest)
  = if decide (last (option_list prev ++ a) = Some CR) then [CR; LF] else [LF].
Proof.
  revert prev. induction a as [|c a IH]; intros prev Hnot.
  - cbn [app detect_from]. rewrite decide_True by reflexivity.
    rewrite app_nil_r.
    destruct prev as [b|]; simpl; repeat case_decide; congruence.
  - cbn [app detect_from].
    rewrite decide_False by (intros ->; apply Hnot; left).
    rewrite IH by (intros Hin; apply Hnot; right; exact Hin).
    assert (E : last (option_list prev ++ c :: a) = last (option_list (Some c) ++ a)).
    { destruct prev as [b|]; simpl; [|reflexivity]. destruct a; reflexivity. }
    rewrite E. reflexivity.
Qed.

Lemma detect_from_no_lf prev a : LF ∉ a -> detect_from prev a = [LF].
Proof.
  revert prev. induction a as [|c a IH]; intros prev Hnot; [reflexivity|].
  cbn [detect_from]. rewrite decide_False by (intros ->; apply Hnot; left).
  apply IH. intros Hin. apply Hnot. right. exact Hin.
Qed.

(** ** A rendered marker under the matcher *)

Lemma line_end_line_ending (le : list byte) :
  le = [LF] \/ le = [CR; LF] -> line_end le.
Proof.
  intros [->| ->]; unfold line_end; [right; left|right; right; right]; eauto.
Qed.

Lemma line_end_line_ending_app (le tail : list byte) :
  le = [LF] \/ le = [CR; LF] -> line_end (le ++ tail).
Proof.
  intros [->| ->]; unfold line_end; [right; left|right; right; right]; eauto.
Qed.

Lemma createComment_marker_line (config : Config) (before : list byte)
    (x : Z) (le tail : list byte) :
  line_start before -> le = [LF] \/ le = [CR; LF] ->
  marker_line_at (Style config)
    (before ++ createComment (NewWriter config) x le ++ tail)
    (length before) (fmt_08X x).
Proof.
  intros Hstart Hle. exists before, (le ++ tail).
  unfold createComment. cbn [w_config NewWriter].
  split; [rewrite <- !app_assoc; reflexivity|].
  split; [reflexivity|]. split; [exact Hstart|].
  destruct (fmt_08X_upper_hex x) as [Hl Hu]. split; [exact Hl|]. split; [exact Hu|].
  apply line_end_line_ending_app. exact Hle.
Qed.

(** The key text does not overlap itself: its first byte does not occur
    again in it. *)
Lemma key_text_no_overlap (d : nat) (c : byte) :
  0 < d -> key_text !! d = Some c -> key_text !! 0 <> Some c.
Proof.
  intros Hd Hc.
  do 15 (destruct d as [|d];
         [first [lia|vm_compute in Hc; injection Hc as <-; vm_compute; discriminate]|]).
  vm_compute in Hc. discriminate Hc.
Qed.

Lemma prefix_lookup (a l : list byte) (i : nat) (c : byte) :
  a `prefix_of` l -> a !! i = Some c -> l !! i = Some c.
Proof. intros [r ->] H. apply lookup_app_l_Some. exact H. Qed.

(** No marker line starts within fourteen bytes before an occurrence of
    prefix and key text. *)
Lemma no_marker_just_before (style : CommentStyle) (window before rest : list byte)
    (j : nat) (hex : list byte) :
  window = before ++ Prefix style ++ key_text ++ rest ->
  j < length before -> length before <= j + 14 ->
  ~ marker_line_at style window j hex.
Proof.
  intros Hw Hj Hnear Hm.
  destruct (marker_line_at_facts _ _ _ _ Hm) as [(_ & _ & Hkey & _) _].
  set (d := length before - j).
  assert (Hd : 0 < d < 15) by (unfold d; lia).
  destruct (key_text !! d) as [c|] eqn:Hc.
  2:{ apply lookup_ge_None in Hc. change (length key_text) with 15 in Hc. lia. }
  pose proof (prefix_lookup _ _ _ _ Hkey Hc) as Hat.
  rewrite lookup_drop in Hat.
  replace (j + length (Prefix style) + d) with (length before + length (Prefix style))
    in Hat by (unfold d; lia).
  assert (Hf : window !! (length before + length (Prefix style)) = key_text !! 0).
  { rewrite Hw, app_assoc.
    rewrite lookup_app_r by (rewrite length_app; lia).
    rewrite length_app, Nat.sub_diag. reflexivity. }
  rewrite Hat in Hf. symmetry in Hf.
  exact (key_text_no_overlap d c ltac:(lia) Hc Hf).
Qed.

(** The matcher finds a rendered marker that stands at a line start at
    most fourteen bytes into the window, whatever follows the marker
    line, and reads back its value. *)
Lemma FindSubmatchIndex_marker_tail (config : Config) (before : list byte)
    (x : Z) (le tail : list byte) :
  line_start before -> length before <= 14 ->
  le = [LF] \/ le = [CR; LF] -> (0 <= x < 2 ^ 32)%Z ->
  let re := createCommentPattern (Style config) in
  let window := before ++ createComment (NewWriter config) x le ++ tail in
  (exists m, FindSubmatchIndex re window = Some m /\ match0 m = length before)
  /\ content_part re window = before
  /\ stored_crc re window = Some x.
Proof.
  intros Hstart Hlen Hle Hx re window.
  pose proof (createComment_marker_line config before x le tail Hstart Hle) as Hm.
  fold window in Hm.
  pose proof (FindSubmatchIndex_spec (Style config) window) as Hs.
  fold re in Hs. unfold content_part, stored_crc.
  destruct (FindSubmatchIndex re window) as [m|]; [|exfalso; exact (Hs _ _ Hm)].
  destruct Hs as (Hfirst & E2 & E3).
  assert (Hpos : match0 m = length before).
  { destruct Hfirst as [Hm0 Hleast].
    destruct (Nat.lt_trichotomy (match0 m) (length before)) as [Hlt|[E|Hgt]];
      [|exact E|].
    - exfalso.
      refine (no_marker_just_before (Style config) window before
                (fmt_08X x ++ Suffix (Style config) ++ le ++ tail)
                (match0 m) _ _ Hlt _ Hm0).
      + unfold window, createComment. cbn [w_config NewWriter].
        rewrite <- !app_assoc. reflexivity.
      + lia.
    - exfalso. exact (Hleast _ _ Hgt Hm). }
  split; [exists m; split; [reflexivity|exact Hpos]|].
  split; [rewrite Hpos; apply take_app_length|].
  assert (Hhex : subslice (match2 m) (match3 m) window = fmt_08X x).
  { assert (Hfm : first_marker (Style config) window (length before) (fmt_08X x)).
    { split; [exact Hm|]. intros j hex' Hj. rewrite <- Hpos in Hj.
      apply (proj2 Hfirst). exact Hj. }
    exact (proj2 (first_marker_unique _ _ _ _ _ _ Hfirst Hfm)). }
  rewrite Hhex. apply marker_value_fmt_08X. exact Hx.
Qed.

Lemma FindSubmatchIndex_createComment (config : Config) (before : list byte)
    (x : Z) (le : list byte) :
  line_start before -> length before <= 14 ->
  le = [LF] \/ le = [CR; LF] -> (0 <= x < 2 ^ 32)%Z ->
  let re := createCommentPattern (Style config) in
  let window := before ++ createComment (NewWriter config) x le in
  (exists m, FindSubmatchIndex re window = Some m /\ match0 m = length before)
  /\ content_part re window = before
  /\ stored_crc re window = Some x.
Proof.
  intros Hstart Hlen Hle Hx.
  pose proof (FindSubmatchIndex_marker_tail config before x le [] Hstart Hlen Hle Hx)
    as H.
  rewrite app_nil_r in H. exact H.
Qed.

(** ** Well-formed stamped files *)

Lemma strip_line_ending_app (a b : list byte) :
  2 <= length b -> strip_line_ending (a ++ b) = a ++ strip_line_ending b.
Proof.
  intros Hb.
  destruct (snoc_cases b) as [->|(b1 & z & ->)]; [simpl in Hb; lia|].
  destruct (snoc_cases b1) as [->|(b2 & y & ->)]; [simpl in Hb; lia|].
  destruct (decide (z = LF)) as [->|Hz].
  - destruct (decide (y = CR)) as [->|Hy].
    + replace (a ++ (b2 ++ [CR]) ++ [LF]) with ((a ++ b2) ++ [CR; LF])
        by (rewrite <- !app_assoc; reflexivity).
      replace ((b2 ++ [CR]) ++ [LF]) with (b2 ++ [CR; LF])
        by (rewrite <- !app_assoc; reflexivity).
      rewrite !strip_line_ending_crlf. reflexivity.
    + rewrite (app_assoc a).
      rewrite !strip_line_ending_lf; [reflexivity| |].
      * rewrite last_snoc. congruence.
      * rewrite app_assoc, last_snoc. congruence.
  - rewrite (app_assoc a).
    rewrite !strip_line_ending_none; [rewrite <- app_assoc; reflexivity| |].
    + rewrite last_snoc. congruence.
    + rewrite last_snoc. congruence.
Qed.

Lemma sub_min_window (L W : nat) : L - Nat.min W L = L - W.
Proof. lia. Qed.

Lemma length_createComment (config : Config) (x : Z) (le : list byte) :
  length (createComment (NewWriter config) x le) + 4
  = windowSize config + length le.
Proof.
  unfold createComment, windowSize, maxCommentSize. cbn [w_config NewWriter].
  rewrite !length_app. change (length (fmt_08X x)) with 8. lia.
Qed.

(** The final window of a file that ends in a rendered marker and a
    short tail: at most three bytes of the body, then the marker and
    the tail. *)
Lemma stamped_final_window (config : Config) (body : list byte) (x : Z)
    (le tail : list byte) :
  le = [LF] \/ le = [CR; LF] ->
  length tail + length le <= 2 ->
  let comment := createComment (NewWriter config) x le in
  let out := body ++ comment ++ tail in
  exists pre before,
    body = pre ++ before
    /\ take (length out - windowSize config) out = pre
    /\ drop (length out - windowSize config) out = before ++ comment ++ tail
    /\ length before <= 3
    /\ (pre = [] \/ 2 <= length before).
Proof.
  intros Hle Htail comment out.
  pose proof (length_createComment config x le) as Hc. fold comment in Hc.
  assert (Hl : length le = 1 \/ length le = 2) by (destruct Hle as [->| ->]; auto).
  set (t := length out - windowSize config).
  assert (Ht : t = length body - (4 - length le - length tail)).
  { unfold t, out. rewrite !length_app. lia. }
  exists (take t body), (drop t body).
  split; [symmetry; apply take_drop|].
  split; [unfold out; apply take_app_le; lia|].
  split; [unfold out; rewrite drop_app_le by lia; reflexivity|].
  split; [rewrite length_drop; lia|].
  destruct (decide (t = 0)) as [E|Hne]; [left; rewrite E; apply take_0|].
  right. rewrite length_drop. lia.
Qed.

Lemma line_start_suffix (pre before : list byte) :
  line_start (pre ++ before) -> pre = [] \/ 2 <= length before ->
  line_start before.
Proof.
  intros [E|Hlast] Hcase.
  - left. destruct pre; [exact E|discriminate E].
  - destruct Hcase as [->|Hlen]; [right; exact Hlast|].
    right. rewrite last_app in Hlast.
    destruct (last before) as [c|] eqn:Hb; [exact Hlast|].
    apply last_None in Hb. subst before. simpl in Hlen. lia.
Qed.

Lemma needs_newline_line_start (l : list byte) :
  line_start l -> needs_newline l = false.
Proof.
  intros [->|Hlast]; [reflexivity|].
  unfold needs_newline. rewrite Hlast. reflexivity.
Qed.

Section StampedFile.

Variable config : Config.
Hypothesis buffer_exceeds_window : windowSize config < BufferSize config.
Variables (body : list byte) (x : Z) (le tail : list byte).
Hypothesis body_line : line_start body.
Hypothesis x_range : (0 <= x < 2 ^ 32)%Z.
Hypothesis le_cases : le = [LF] \/ le = [CR; LF].
Hypothesis tail_short : length tail + length le <= 2.

Let w := NewWriter config.
Let r := NewReader config.
Let out := body ++ createComment w x le ++ tail.
Let calc := Sum32 (hWrite NewIEEE (strip_line_ending body)).

Lemma stamped_out_not_empty : out <> [].
Proof.
  unfold out. intros E. apply (f_equal length) in E.
  rewrite !length_app in E.
  pose proof (length_createComment config x le) as Hc. fold w in Hc.
  unfold windowSize, maxCommentSize in Hc. cbn [length] in E. lia.
Qed.

(** What both passes compute on a file that is a body, empty or ending
    in LF, followed by a rendered marker and a short tail: the tail is
    not looked at, and a rewrite drops it. *)
Lemma stamped_tail_run (fuel : nat) :
  length out < fuel ->
  verifyStream fuel r (file_source out) = Done (inl (calc =? x)%Z)
  /\ exists le',
       (le' = [LF] \/ le' = [CR; LF])
       /\ processStream fuel w (file_source out)
          = Done (if decide (x = calc) then (true, out)
                  else (false, body ++ createComment w calc le')).
Proof.
  intros Hfuel.
  pose proof (verifyStream_file config out buffer_exceeds_window
                stamped_out_not_empty fuel Hfuel) as HV.
  pose proof (processStream_file config out buffer_exceeds_window
                stamped_out_not_empty fuel Hfuel) as HP.
  fold w in HP. fold r in HV.
  unfold reference_verify in HV. unfold reference_process in HP.
  rewrite sub_min_window in HV, HP.
  destruct (stamped_final_window config body x le tail le_cases tail_short)
    as (pre & before & Hbody & Htake & Hdrop & Hlen & Hcase).
  fold w in Htake, Hdrop. fold out in Htake, Hdrop.
  rewrite Htake, Hdrop in HV, HP.
  assert (Hstart : line_start before).
  { apply (line_start_suffix pre); [rewrite <- Hbody; exact body_line|exact Hcase]. }
  destruct (FindSubmatchIndex_marker_tail config before x le tail Hstart
              ltac:(lia) le_cases x_range) as ((m & Hfind & Hm0) & Hcp & Hst).
  fold w in Hfind, Hcp, Hst.
  assert (Hcalc : Sum32 (hWrite (hWrite NewIEEE pre) (strip_line_ending before)) = calc).
  { unfold calc. rewrite <- hWrite_app. f_equal. f_equal. rewrite Hbody.
    destruct Hcase as [->|H2]; [reflexivity|].
    symmetry. apply strip_line_ending_app. exact H2. }
  split.
  - rewrite HV, verifyWindow_eq. unfold r, NewReader. cbn [r_pattern].
    rewrite Hfind.
    unfold stored_crc in Hst. rewrite Hfind in Hst. rewrite Hst.
    rewrite Hm0, take_app_length, Hcalc. reflexivity.
  - exists (detectLineEnding (before ++ createComment w x le ++ tail)).
    split; [apply detectLineEnding_cases|].
    rewrite HP, finalizeWindow_eq. cbv zeta.
    change (w_pattern w) with (createCommentPattern (Style config)).
    rewrite Hcp, Hst, Hcalc.
    rewrite (needs_newline_line_start _ Hstart).
    destruct (decide (x = calc)) as [E|NE].
    + rewrite decide_True by congruence. f_equal. unfold out.
      rewrite Hbody, <- !app_assoc. reflexivity.
    + rewrite decide_False by congruence. f_equal.
      rewrite Hbody, <- !app_assoc. reflexivity.
Qed.

End StampedFile.

(** The same without a tail. *)
Lemma stamped_file_run (config : Config)
    (buffer_exceeds_window : windowSize config < BufferSize config)
    (body : list byte) (x : Z) (le : list byte) :
  line_start body -> (0 <= x < 2 ^ 32)%Z -> le = [LF] \/ le = [CR; LF] ->
  forall fuel : nat,
    length (body ++ createComment (NewWriter config) x le) < fuel ->
    verifyStream fuel (NewReader config)
      (file_source (body ++ createComment (NewWriter config) x le))
    = Done (inl (Sum32 (hWrite NewIEEE (strip_line_ending body)) =? x)%Z)
    /\ exists le',
         (le' = [LF] \/ le' = [CR; LF])
         /\ processStream fuel (NewWriter config)
              (file_source (body ++ createComment (NewWriter config) x le))
            = Done (if decide (x = Sum32 (hWrite NewIEEE (strip_line_ending body)))
                    then (true, body ++ createComment (NewWriter config) x le)
                    else (false,
                          body ++ createComment (NewWriter config)
                                    (Sum32 (hWrite NewIEEE (strip_line_ending body)))
                                    le')).
Proof.
  intros Hbody Hx Hle fuel Hfuel.
  assert (Htail : length (@nil byte) + length le <= 2)
    by (destruct Hle as [->| ->]; cbn [length]; lia).
  pose proof (stamped_tail_run config buffer_exceeds_window body x le [] Hbody Hx Hle
                Htail fuel) as H.
  rewrite !app_nil_r in H. apply H. exact Hfuel.
Qed.

(** ** Files with and without a marker at their end *)

Lemma crc_of_content_range content : (0 <= crc_of_content content < 2 ^ 32)%Z.
Proof. apply Sum32_range. Qed.

Lemma stamped_file_ok (config : Config) (body le : list byte) (fuel : nat) :
  windowSize config < BufferSize config ->
  line_start body -> le = [LF] \/ le = [CR; LF] ->
  let out := body ++ createComment (NewWriter config) (crc_of_content body) le in
  length out < fuel ->
  verifyStream fuel (NewReader config) (file_source out) = Done (inl true)
  /\ processStream fuel (NewWriter config) (file_source out) = Done (true, out).
Proof.
  intros HB Hbody Hle out Hfuel.
  destruct (stamped_file_run config HB body (crc_of_content body) le Hbody
              (crc_of_content_range body) Hle fuel Hfuel) as (HV & le' & _ & HP).
  fold out in HP. unfold crc_of_content in *.
  rewrite Z.eqb_refl in HV. rewrite decide_True in HP by reflexivity.
  split; assumption.
Qed.

(** A window without a marker line is one in which the matcher finds
    nothing. *)
Lemma no_marker_None (style : CommentStyle) (window : list byte) :
  (forall i hex, ~ marker_line_at style window i hex) ->
  FindSubmatchIndex (createCommentPattern style) window = None.
Proof.
  intros Hnone. pose proof (FindSubmatchIndex_spec style window) as Hs.
  destruct (FindSubmatchIndex _ _) as [m|]; [|reflexivity].
  exfalso. destruct Hs as ([Hm _] & _). exact (Hnone _ _ Hm).
Qed.

Lemma last_drop_lt (l : list byte) (t : nat) : t < length l -> last (drop t l) = last l.
Proof.
  intros Ht. rewrite <- (take_drop t l) at 2. rewrite last_app.
  destruct (last (drop t l)) eqn:E; [reflexivity|].
  apply last_None in E. apply (f_equal length) in E.
  rewrite length_drop in E. simpl in E. lia.
Qed.

Lemma windowSize_ge_4 (config : Config) : 4 <= windowSize config.
Proof. unfold windowSize, maxCommentSize. lia. Qed.

(** Stamping a file whose final window holds no marker. *)
Lemma processStream_nil (fuel : nat) (config : Config) :
  processStream fuel (NewWriter config) (file_source [])
  = Done (false, createComment (NewWriter config) 0 [LF]).
Proof.
  unfold processStream, read_at, go_slice. simpl.
  destruct (decide _) as [_|Hn]; [|exfalso; apply Hn; lia].
  simpl. rewrite take_nil. simpl. reflexivity.
Qed.

Lemma verifyStream_nil (fuel : nat) (config : Config) :
  verifyStream fuel (NewReader config) (file_source []) = Done (inr EmptyFile).
Proof.
  unfold verifyStream, read_at, go_slice. simpl.
  destruct (decide _) as [_|Hn]; [|exfalso; apply Hn; lia].
  simpl. rewrite take_nil. simpl. reflexivity.
Qed.

Lemma fresh_run (config : Config) (content : list byte) (fuel : nat) :
  windowSize config < BufferSize config ->
  FindSubmatchIndex (createCommentPattern (Style config))
    (final_window (windowSize config) content) = None ->
  length content < fuel ->
  let le := detectLineEnding (final_window (windowSize config) content) in
  let nl := if needs_newline content then le else [] in
  processStream fuel (NewWriter config) (file_source content)
  = Done (false, content ++ nl
                   ++ createComment (NewWriter config) (crc_of_content content) le)
  /\ line_start (content ++ nl)
  /\ (le = [LF] \/ le = [CR; LF])
  /\ (last content <> Some CR ->
      crc_of_content (content ++ nl) = crc_of_content content).
Proof.
  intros HB Hnone Hfuel le nl.
  destruct (decide (content = [])) as [->|Hne].
  { split; [apply processStream_nil|].
    split; [left; reflexivity|]. split; [left; reflexivity|]. reflexivity. }
  assert (HL : 0 < length content) by (destruct content; [contradiction|simpl; lia]).
  pose proof (windowSize_ge_4 config) as HW.
  set (W := windowSize config) in *.
  set (t := length content - W).
  assert (Hwin : final_window W content = drop t content) by reflexivity.
  assert (Hneeds : needs_newline (drop t content) = needs_newline content).
  { unfold needs_newline. rewrite last_drop_lt by (unfold t; lia). reflexivity. }
  assert (Hle : le = [LF] \/ le = [CR; LF]) by apply detectLineEnding_cases.
  split.
  - rewrite (processStream_file config content HB Hne fuel Hfuel).
    unfold reference_process. fold W. rewrite sub_min_window. fold t.
    rewrite finalizeWindow_eq. cbv zeta.
    change (w_pattern (NewWriter config)) with (createCommentPattern (Style config)).
    unfold content_part, stored_crc. rewrite <- Hwin, Hnone. rewrite Hwin.
    rewrite decide_False by discriminate. rewrite Hneeds.
    assert (Hcalc : Sum32 (hWrite (hWrite NewIEEE (take t content))
                             (strip_line_ending (drop t content)))
                    = crc_of_content content).
    { unfold crc_of_content. rewrite <- hWrite_app. f_equal. f_equal.
      destruct (decide (t = 0)) as [E|Hn].
      - rewrite E, take_0, drop_0. reflexivity.
      - rewrite <- (take_drop t content) at 3.
        symmetry. apply strip_line_ending_app. rewrite length_drop. unfold t. lia. }
    rewrite Hcalc. f_equal. f_equal.
    rewrite (app_assoc (take t content)), take_drop. reflexivity.
  - split; [|split; [exact Hle|]].
    + right. unfold nl.
      destruct (needs_newline content) eqn:Hn.
      * rewrite last_app. destruct Hle as [->| ->]; reflexivity.
      * rewrite app_nil_r. unfold needs_newline in Hn.
        destruct (last content) as [c|] eqn:Hc.
        -- destruct (decide (c = LF)) as [->|Hx]; [reflexivity|].
           rewrite bool_decide_false in Hn by exact Hx. discriminate Hn.
        -- apply last_None in Hc. contradiction.
    + intros Hcr. unfold crc_of_content, nl. f_equal. f_equal.
      destruct (needs_newline content) eqn:Hn; [|rewrite app_nil_r; reflexivity].
      apply needs_newline_true in Hn. destruct Hn as [_ Hlf].
      rewrite (strip_line_ending_none content Hlf).
      destruct Hle as [->| ->].
      * apply strip_line_ending_lf. exact Hcr.
      * apply strip_line_ending_crlf.
Qed.

(** ** The marker line: text form, size and line ending *)

(** X1. Every 32-bit checksum survives its text form: [createComment]
    renders it as exactly eight upper-case hex digits, [hex.DecodeString]
    and the big-endian assembly of [finalizeWindow] and [verifyWindow]
    read the same value back, and the matcher of the same style extracts
    that value from the rendered marker line, with an LF or a CRLF
    ending. *)
Theorem checksum_text_round_trip (config : Config) (x : Z) (le : list byte) :
  (0 <= x < 2 ^ 32)%Z ->
  le = [LF] \/ le = [CR; LF] ->
  length (fmt_08X x) = 8
  /\ Forall (fun c => upper_hex c = true) (fmt_08X x)
  /\ marker_value (fmt_08X x) = Some x
  /\ stored_crc (createCommentPattern (Style config))
       (createComment (NewWriter config) x le) = Some x.
Proof.
  intros Hx Hle.
  split; [apply fmt_08X_upper_hex|]. split; [apply fmt_08X_upper_hex|].
  split; [apply marker_value_fmt_08X; exact Hx|].
  apply (FindSubmatchIndex_createComment config [] x le);
    [left; reflexivity|cbn [length]; lia|exact Hle|exact Hx].
Qed.

Lemma checksum_text_round_trip_witness :
  length (fmt_08X 0x7FE7DFB2) = 8
  /\ Forall (fun c => upper_hex c = true) (fmt_08X 0x7FE7DFB2)
  /\ marker_value (fmt_08X 0x7FE7DFB2) = Some 0x7FE7DFB2%Z
  /\ stored_crc (createCommentPattern (Style DefaultConfig))
       (createComment (NewWriter DefaultConfig) 0x7FE7DFB2 [LF]) = Some 0x7FE7DFB2%Z.
Proof.
  apply (checksum_text_round_trip DefaultConfig 0x7FE7DFB2 [LF]).
  - vm_compute. split; [discriminate|reflexivity].
  - left. reflexivity.
Defined.

(** X2. A marker line that [createComment] renders with a detected
    line ending is never longer than [maxCommentSize], whatever the
    value and the style, so the window of the streaming passes holds
    a whole marker line and at least two bytes before it. *)
Theorem comment_fits_maxCommentSize (config : Config) (x : Z) (content : list byte) :
  length (createComment (NewWriter config) x (detectLineEnding content))
  <= maxCommentSize config
  /\ length (createComment (NewWriter config) x (detectLineEnding content)) + 2
     <= windowSize config.
Proof.
  pose proof (length_createComment config x (detectLineEnding content)) as H.
  unfold windowSize in *.
  destruct (detectLineEnding_cases content) as [E|E]; rewrite E in *;
    cbn [length] in H; lia.
Qed.

(** X3. [detectLineEnding] is decided by the first LF alone: the
    result is CR LF when the byte just before it is CR and LF otherwise,
    whatever follows; content without an LF gives LF. *)
Theorem detectLineEnding_first_newline (a rest : list byte) :
  LF ∉ a ->
  detectLineEnding a = [LF]
  /\ detectLineEnding (a ++ LF :: rest)
     = if decide (last a = Some CR) then [CR; LF] else [LF].
Proof.
  intros Hnot. split.
  - apply detect_from_no_lf. exact Hnot.
  - unfold detectLineEnding. rewrite detect_from_first_lf by exact Hnot. reflexivity.
Qed.

Lemma detectLineEnding_first_newline_witness :
  detectLineEnding (bytes "ab" ++ [CR]) = [LF]
  /\ detectLineEnding ((bytes "ab" ++ [CR]) ++ LF :: bytes "c" ++ [LF])
     = if decide (last (bytes "ab" ++ [CR]) = Some CR) then [CR; LF] else [LF].
Proof.
  apply (detectLineEnding_first_newline (bytes "ab" ++ [CR]) (bytes "c" ++ [LF])).
  apply (bool_decide_unpack _). vm_compute. exact I.
Defined.

(** ** Stamping and verifying regular files *)

Lemma length_stamped (config : Config) (body : list byte) (x : Z) (le : list byte) :
  le = [LF] \/ le = [CR; LF] ->
  length (body ++ createComment (NewWriter config) x le)
  < length body + windowSize config.
Proof.
  intros Hle. rewrite length_app.
  pose proof (length_createComment config x le) as H.
  destruct Hle as [->| ->]; simpl in H; lia.
Qed.

(** X4. The Reader accepts every well-formed stamped file: a body
    that is empty or ends in LF, followed by one marker line (ended by
    LF or CR LF) that carries the CRC-32 of the body without its
    trailing line ending, verifies as valid, for every style, every
    buffer larger than the window and every length of the body. *)
Theorem stamped_file_verifies (config : Config) (body le : list byte) (fuel : nat) :
  windowSize config < BufferSize config ->
  line_start body ->
  le = [LF] \/ le = [CR; LF] ->
  length body + windowSize config <= fuel ->
  verifyStream fuel (NewReader config)
    (file_source (body ++ createComment (NewWriter config) (crc_of_content body) le))
  = Done (inl true).
Proof.
  intros HB Hbody Hle Hfuel.
  apply (stamped_file_ok config body le fuel HB Hbody Hle).
  pose proof (length_stamped config body (crc_of_content body) le Hle). lia.
Qed.

Lemma stamped_file_verifies_witness :
  verifyStream 43 (NewReader DefaultConfig)
    (file_source (package_main
                    ++ createComment (NewWriter DefaultConfig)
                         (crc_of_content package_main) [LF]))
  = Done (inl true).
Proof.
  apply (stamped_file_verifies DefaultConfig package_main [LF] 43).
  - apply Nat.ltb_lt. vm_compute. reflexivity.
  - right. reflexivity.
  - left. reflexivity.
  - apply Nat.leb_le. vm_compute. reflexivity.
Defined.

(** X5. The Writer leaves every well-formed stamped file alone: on
    a body that is empty or ends in LF followed by a marker line that
    carries the right checksum, [processStream] reports a no-op and
    the bytes it wrote are the file, byte for byte. *)
Theorem stamped_file_restamp_is_noop (config : Config) (body le : list byte) (fuel : nat) :
  windowSize config < BufferSize config ->
  line_start body ->
  le = [LF] \/ le = [CR; LF] ->
  length body + windowSize config <= fuel ->
  let out := body ++ createComment (NewWriter config) (crc_of_content body) le in
  processStream fuel (NewWriter config) (file_source out) = Done (true, out).
Proof.
  intros HB Hbody Hle Hfuel out.
  apply (stamped_file_ok config body le fuel HB Hbody Hle).
  pose proof (length_stamped config body (crc_of_content body) le Hle). lia.
Qed.

Lemma stamped_file_restamp_is_noop_witness :
  processStream 43 (NewWriter DefaultConfig)
    (file_source (package_main
                    ++ createComment (NewWriter DefaultConfig)
                         (crc_of_content package_main) [LF]))
  = Done (true, package_main
                  ++ createComment (NewWriter DefaultConfig)
                       (crc_of_content package_main) [LF]).
Proof.
  apply (stamped_file_restamp_is_noop DefaultConfig package_main [LF] 43).
  - apply Nat.ltb_lt. vm_compute. reflexivity.
  - right. reflexivity.
  - left. reflexivity.
  - apply Nat.leb_le. vm_compute. reflexivity.
Defined.

(** X6. A marker that carries another value than the checksum of
    the body is found out and repaired: the Reader returns valid =
    false, the Writer keeps the body as it is and writes one marker
    line with the right checksum in place of the stale one, and the
    Reader accepts what the Writer wrote. *)
Theorem stale_marker_is_replaced (config : Config) (body le : list byte) (x : Z)
    (fuel : nat) :
  windowSize config < BufferSize config ->
  line_start body ->
  le = [LF] \/ le = [CR; LF] ->
  (0 <= x < 2 ^ 32)%Z ->
  x <> crc_of_content body ->
  length body + windowSize config <= fuel ->
  let w := NewWriter config in
  let r := NewReader config in
  let stale := body ++ createComment w x le in
  verifyStream fuel r (file_source stale) = Done (inl false)
  /\ exists le',
       (le' = [LF] \/ le' = [CR; LF])
       /\ processStream fuel w (file_source stale)
          = Done (false, body ++ createComment w (crc_of_content body) le')
       /\ verifyStream fuel r
            (file_source (body ++ createComment w (crc_of_content body) le'))
          = Done (inl true).
Proof.
  intros HB Hbody Hle Hx Hneq Hfuel w r stale. subst w r stale.
  pose proof (length_stamped config body x le Hle) as Hlen.
  destruct (stamped_file_run config HB body x le Hbody Hx Hle fuel ltac:(lia))
    as (HV & le' & Hle' & HP).
  fold (crc_of_content body) in HV, HP.
  split.
  - rewrite HV. do 2 f_equal. apply Z.eqb_neq. congruence.
  - exists le'. split; [exact Hle'|]. split.
    + rewrite HP. rewrite decide_False by exact Hneq. reflexivity.
    + apply (stamped_file_ok config body le' fuel HB Hbody Hle').
      pose proof (length_stamped config body (crc_of_content body) le' Hle'). lia.
Qed.

Lemma stale_marker_is_replaced_witness :
  verifyStream 43 (NewReader DefaultConfig)
    (file_source (package_main ++ createComment (NewWriter DefaultConfig) 0 [LF]))
  = Done (inl false)
  /\ exists le',
       (le' = [LF] \/ le' = [CR; LF])
       /\ processStream 43 (NewWriter DefaultConfig)
            (file_source (package_main ++ createComment (NewWriter DefaultConfig) 0 [LF]))
          = Done (false, package_main
                           ++ createComment (NewWriter DefaultConfig)
                                (crc_of_content package_main) le')
       /\ verifyStream 43 (NewReader DefaultConfig)
            (file_source (package_main
                            ++ createComment (NewWriter DefaultConfig)
                                 (crc_of_content package_main) le'))
          = Done (inl true).
Proof.
  apply (stale_marker_is_replaced DefaultConfig package_main [LF] 0 43).
  - apply Nat.ltb_lt. vm_compute. reflexivity.
  - right. reflexivity.
  - left. reflexivity.
  - vm_compute. split; [discriminate|reflexivity].
  - vm_compute. discriminate.
  - apply Nat.leb_le. vm_compute. reflexivity.
Defined.

(** X7. One byte after the marker line is outside the check: when a
    single byte, whatever its value, follows an LF-ended marker line,
    the Reader returns what it returns without that byte, so a
    well-formed stamped file with one byte appended still verifies as
    valid and the Writer leaves it as it is; when the marker is stale,
    the Writer rewrites the file without that byte. *)
Theorem byte_after_marker_is_not_checked (config : Config) (body : list byte)
    (c : byte) (x : Z) (fuel : nat) :
  windowSize config < BufferSize config ->
  line_start body ->
  (0 <= x < 2 ^ 32)%Z ->
  length body + windowSize config <= fuel ->
  let w := NewWriter config in
  let r := NewReader config in
  let file := body ++ createComment w x [LF] ++ [c] in
  verifyStream fuel r (file_source file)
  = verifyStream fuel r (file_source (body ++ createComment w x [LF]))
  /\ verifyStream fuel r (file_source file)
     = Done (inl (crc_of_content body =? x)%Z)
  /\ (x = crc_of_content body ->
      processStream fuel w (file_source file) = Done (true, file))
  /\ (x <> crc_of_content body ->
      exists le',
        (le' = [LF] \/ le' = [CR; LF])
        /\ processStream fuel w (file_source file)
           = Done (false, body ++ createComment w (crc_of_content body) le')).
Proof.
  intros HB Hbody Hx Hfuel w r file. subst w r file.
  assert (Hle : [LF] = [LF] \/ [LF] = [CR; LF]) by (left; reflexivity).
  pose proof (length_stamped config body x [LF] Hle) as Hlen.
  pose proof (length_createComment config x [LF]) as Hc. cbn [length] in Hc.
  assert (Hlen' : length (body ++ createComment (NewWriter config) x [LF] ++ [c]) < fuel).
  { rewrite !length_app. cbn [length]. lia. }
  destruct (stamped_tail_run config HB body x [LF] [c] Hbody Hx Hle
              ltac:(cbn [length]; lia) fuel Hlen') as (HV & le' & Hle' & HP).
  destruct (stamped_file_run config HB body x [LF] Hbody Hx Hle fuel ltac:(lia))
    as (HV0 & _).
  fold (crc_of_content body) in HV, HP, HV0.
  split; [rewrite HV, HV0; reflexivity|]. split; [exact HV|]. split.
  - intros E. rewrite HP. rewrite decide_True by exact E. reflexivity.
  - intros NE. exists le'. split; [exact Hle'|].
    rewrite HP. rewrite decide_False by exact NE. reflexivity.
Qed.

Lemma byte_after_marker_is_not_checked_witness :
  let w := NewWriter DefaultConfig in
  let r := NewReader DefaultConfig in
  let x := crc_of_content package_main in
  let file := package_main ++ createComment w x [LF] ++ ["}"%byte] in
  verifyStream 43 r (file_source file)
  = verifyStream 43 r (file_source (package_main ++ createComment w x [LF]))
  /\ verifyStream 43 r (file_source file)
     = Done (inl (crc_of_content package_main =? x)%Z)
  /\ (x = crc_of_content package_main ->
      processStream 43 w (file_source file) = Done (true, file))
  /\ (x <> crc_of_content package_main ->
      exists le',
        (le' = [LF] \/ le' = [CR; LF])
        /\ processStream 43 w (file_source file)
           = Done (false, package_main
                            ++ createComment w (crc_of_content package_main) le')).
Proof.
  apply (byte_after_marker_is_not_checked DefaultConfig package_main "}"%byte
           (crc_of_content package_main) 43).
  - apply Nat.ltb_lt. vm_compute. reflexivity.
  - right. reflexivity.
  - vm_compute. split; [discriminate|reflexivity].
  - apply Nat.leb_le. vm_compute. reflexivity.
Defined.

(** X8. Stamping a regular file in whose final window the matcher
    finds no marker only appends: the output is the content, then the
    detected line ending if the content is not empty and does not end
    in LF, then one marker line that carries the CRC-32 of the content
    without one trailing line ending. The empty file is included. *)
Theorem fresh_stamping_appends (config : Config) (content : list byte) (fuel : nat) :
  windowSize config < BufferSize config ->
  FindSubmatchIndex (createCommentPattern (Style config))
    (final_window (windowSize config) content) = None ->
  length content < fuel ->
  let le := detectLineEnding (final_window (windowSize config) content) in
  processStream fuel (NewWriter config) (file_source content)
  = Done (false,
          content ++ (if needs_newline content then le else [])
            ++ createComment (NewWriter config) (crc_of_content content) le).
Proof.
  intros HB Hnone Hfuel le.
  apply (fresh_run config content fuel HB Hnone Hfuel).
Qed.

Lemma fresh_stamping_appends_witness :
  processStream 5 (NewWriter DefaultConfig) (file_source (bytes "abc"))
  = Done (false,
          bytes "abc"
            ++ (if needs_newline (bytes "abc")
                then detectLineEnding (final_window (windowSize DefaultConfig) (bytes "abc"))
                else [])
            ++ createComment (NewWriter DefaultConfig) (crc_of_content (bytes "abc"))
                 (detectLineEnding (final_window (windowSize DefaultConfig) (bytes "abc")))).
Proof.
  apply (fresh_stamping_appends DefaultConfig (bytes "abc") 5).
  - apply Nat.ltb_lt. vm_compute. reflexivity.
  - vm_compute. reflexivity.
  - apply Nat.ltb_lt. vm_compute. reflexivity.
Defined.

Lemma fresh_then_stamped (config : Config) (content : list byte) (fuel : nat) :
  windowSize config < BufferSize config ->
  FindSubmatchIndex (createCommentPattern (Style config))
    (final_window (windowSize config) content) = None ->
  last content <> Some CR ->
  length content + windowSize config + 2 <= fuel ->
  exists out,
    processStream fuel (NewWriter config) (file_source content) = Done (false, out)
    /\ verifyStream fuel (NewReader config) (file_source out) = Done (inl true)
    /\ processStream fuel (NewWriter config) (file_source out) = Done (true, out).
Proof.
  intros HB Hnone Hcr Hfuel.
  destruct (fresh_run config content fuel HB Hnone ltac:(lia))
    as (HP & Hls & Hle & Hcrc).
  specialize (Hcrc Hcr).
  set (le := detectLineEnding (final_window (windowSize config) content)) in *.
  set (nl := if needs_newline content then le else []) in *.
  assert (Hlen : length (content ++ nl) <= length content + 2).
  { rewrite length_app. unfold nl. destruct (needs_newline content); simpl; [|lia].
    destruct Hle as [->| ->]; simpl; lia. }
  pose proof (length_stamped config (content ++ nl) (crc_of_content (content ++ nl)) le Hle)
    as Hlen'.
  destruct (stamped_file_ok config (content ++ nl) le fuel HB Hls Hle ltac:(lia))
    as [HV HP'].
  rewrite Hcrc, <- app_assoc in HV, HP'.
  eexists. split; [exact HP|]. split; [exact HV|exact HP'].
Qed.

(** X9. Stamp, then verify: for a regular file in whose final window
    the matcher finds no marker and which does not end in a carriage
    return, verifying what the Writer wrote returns valid = true, for
    every style and every buffer larger than the window. *)
Theorem fresh_round_trip (config : Config) (content : list byte) (fuel : nat) :
  windowSize config < BufferSize config ->
  FindSubmatchIndex (createCommentPattern (Style config))
    (final_window (windowSize config) content) = None ->
  last content <> Some CR ->
  length content + windowSize config + 2 <= fuel ->
  round_trip fuel config content = Done (inl true).
Proof.
  intros HB Hnone Hcr Hfuel.
  destruct (fresh_then_stamped config content fuel HB Hnone Hcr Hfuel)
    as (out & HP & HV & _).
  unfold round_trip. rewrite HP. exact HV.
Qed.

Lemma fresh_round_trip_witness :
  round_trip 45 DefaultConfig package_main = Done (inl true).
Proof.
  apply (fresh_round_trip DefaultConfig package_main 45).
  - apply Nat.ltb_lt. vm_compute. reflexivity.
  - vm_compute. reflexivity.
  - vm_compute. discriminate.
  - apply Nat.leb_le. vm_compute. reflexivity.
Defined.

(** X10. Stamping twice is stamping once: for a regular file in whose
    final window the matcher finds no marker and which does not end in
    a carriage return, the second run over the output of the first
    reports a no-op and writes the same bytes. *)
Theorem fresh_stamping_idempotent (config : Config) (content : list byte) (fuel : nat) :
  windowSize config < BufferSize config ->
  FindSubmatchIndex (createCommentPattern (Style config))
    (final_window (windowSize config) content) = None ->
  last content <> Some CR ->
  length content + windowSize config + 2 <= fuel ->
  exists out,
    processStream fuel (NewWriter config) (file_source content) = Done (false, out)
    /\ processStream fuel (NewWriter config) (file_source out) = Done (true, out).
Proof.
  intros HB Hnone Hcr Hfuel.
  destruct (fresh_then_stamped config content fuel HB Hnone Hcr Hfuel)
    as (out & HP & _ & HP').
  exists out. split; assumption.
Qed.

Lemma fresh_stamping_idempotent_witness :
  exists out,
    processStream 45 (NewWriter DefaultConfig) (file_source package_main)
      = Done (false, out)
    /\ processStream 45 (NewWriter DefaultConfig) (file_source out) = Done (true, out).
Proof.
  apply (fresh_stamping_idempotent DefaultConfig package_main 45).
  - apply Nat.ltb_lt. vm_compute. reflexivity.
  - vm_compute. reflexivity.
  - vm_compute. discriminate.
  - apply Nat.leb_le. vm_compute. reflexivity.
Defined.

(** X11. The empty file: the Writer writes one marker line with
    00000000 and an LF, the Reader accepts that file, and a second run
    of the Writer over it is a no-op, for every style and every buffer
    larger than the window. *)
Theorem empty_file_round_trip (config : Config) (fuel : nat) :
  windowSize config < BufferSize config ->
  windowSize config <= fuel ->
  let marker := createComment (NewWriter config) 0 [LF] in
  processStream fuel (NewWriter config) (file_source []) = Done (false, marker)
  /\ verifyStream fuel (NewReader config) (file_source marker) = Done (inl true)
  /\ processStream fuel (NewWriter config) (file_source marker) = Done (true, marker).
Proof.
  intros HB Hfuel marker.
  split; [apply processStream_nil|].
  assert (Hls : line_start []) by (left; reflexivity).
  pose proof (length_stamped config [] (crc_of_content []) [LF] ltac:(auto)) as Hlen.
  apply (stamped_file_ok config [] [LF] fuel HB Hls ltac:(auto)).
  simpl in Hlen |- *. lia.
Qed.

Lemma empty_file_round_trip_witness :
  processStream 30 (NewWriter DefaultConfig) (file_source [])
    = Done (false, createComment (NewWriter DefaultConfig) 0 [LF])
  /\ verifyStream 30 (NewReader DefaultConfig)
       (file_source (createComment (NewWriter DefaultConfig) 0 [LF]))
     = Done (inl true)
  /\ processStream 30 (NewWriter DefaultConfig)
       (file_source (createComment (NewWriter DefaultConfig) 0 [LF]))
     = Done (true, createComment (NewWriter DefaultConfig) 0 [LF]).
Proof.
  apply (empty_file_round_trip DefaultConfig 30).
  - apply Nat.ltb_lt. vm_compute. reflexivity.
  - apply Nat.leb_le. vm_compute. reflexivity.
Defined.

(** X12. Only the end of the file is searched: for a non-empty regular
    file in whose final window the matcher finds no marker, the Reader
    returns the error that no integrity comment was found, not valid =
    false, even when a marker line stands earlier in the file. *)
Theorem unstamped_file_is_an_error (config : Config) (content : list byte)
    (fuel : nat) :
  windowSize config < BufferSize config ->
  content <> [] ->
  FindSubmatchIndex (createCommentPattern (Style config))
    (final_window (windowSize config) content) = None ->
  length content < fuel ->
  verifyStream fuel (NewReader config) (file_source content)
  = Done (inr NoIntegrityComment).
Proof.
  intros HB Hne Hnone Hfuel.
  rewrite (verifyStream_file config content HB Hne fuel Hfuel).
  unfold reference_verify. rewrite sub_min_window, verifyWindow_eq.
  change (r_pattern (NewReader config)) with (createCommentPattern (Style config)).
  unfold final_window in Hnone. rewrite Hnone. reflexivity.
Qed.

Lemma unstamped_file_is_an_error_witness :
  verifyStream 80 (NewReader DefaultConfig)
    (file_source (stamped_package_main
                    ++ bytes "func main() { println(1234567890) }" ++ [LF]))
  = Done (inr NoIntegrityComment).
Proof.
  apply (unstamped_file_is_an_error DefaultConfig
           (stamped_package_main
              ++ bytes "func main() { println(1234567890) }" ++ [LF]) 80).
  - apply Nat.ltb_lt. vm_compute. reflexivity.
  - discriminate.
  - vm_compute. reflexivity.
  - apply Nat.ltb_lt. vm_compute. reflexivity.
Defined.

(** X13. Writer and Reader agree: on a regular file the Writer
    reports a no-op exactly when the Reader returns valid = true, for
    every content, style and buffer larger than the window. *)
Theorem noop_iff_valid (config : Config) (content : list byte) (fuel : nat) :
  windowSize config < BufferSize config ->
  length content < fuel ->
  (exists out, processStream fuel (NewWriter config) (file_source content)
               = Done (true, out))
  <-> verifyStream fuel (NewReader config) (file_source content) = Done (inl true).
Proof.
  intros HB Hfuel.
  destruct (decide (content = [])) as [->|Hne].
  - rewrite processStream_nil, verifyStream_nil. split.
    + intros (out & H). discriminate H.
    + intros H. discriminate H.
  - rewrite (processStream_file config content HB Hne fuel Hfuel).
    rewrite (verifyStream_file config content HB Hne fuel Hfuel).
    unfold reference_process, reference_verify.
    rewrite finalizeWindow_eq, verifyWindow_eq. cbv zeta.
    change (w_pattern (NewWriter config)) with (createCommentPattern (Style config)).
    change (r_pattern (NewReader config)) with (createCommentPattern (Style config)).
    unfold stored_crc, content_part.
    destruct (FindSubmatchIndex _ _) as [m|].
    + destruct (marker_value _) as [v|].
      * destruct (decide _) as [E|E].
        -- split; [|eauto]. intros _. inversion E. rewrite Z.eqb_refl. reflexivity.
        -- split.
           ++ intros (out & H). discriminate H.
           ++ intros H. exfalso. apply E. f_equal. symmetry. apply Z.eqb_eq.
              inversion H. reflexivity.
      * rewrite decide_False by discriminate. split.
        -- intros (out & H). discriminate H.
        -- intros H. discriminate H.
    + rewrite decide_False by discriminate. split.
      * intros (out & H). discriminate H.
      * intros H. discriminate H.
Qed.

Lemma noop_iff_valid_witness :
  (exists out, processStream 41 (NewWriter DefaultConfig)
                 (file_source stamped_package_main) = Done (true, out))
  <-> verifyStream 41 (NewReader DefaultConfig) (file_source stamped_package_main)
      = Done (inl true).
Proof.
  apply (noop_iff_valid DefaultConfig stamped_package_main 41).
  - apply Nat.ltb_lt. vm_compute. reflexivity.
  - apply Nat.ltb_lt. vm_compute. reflexivity.
Defined.

Lemma processStream_noop_output (config : Config) (s : source) (fuel : nat)
    (out : list byte) :
  processStream fuel (NewWriter config) s = Done (true, out) -> out = data s.
Proof.
  intros H.
  destruct (decide (fst (fst (Read s (BufferSize config))) = [])) as [E|Hne].
  - exfalso. revert H. unfold processStream, read_at, go_slice.
    cbn [w_config NewWriter]. rewrite length_replicate.
    destruct (decide _) as [_|Hn]; [|exfalso; apply Hn; lia].
    cbn [mbind outcome_bind]. unfold subslice. rewrite Nat.sub_0_r, drop_0.
    rewrite take_ge by (rewrite length_replicate; lia). rewrite length_replicate.
    destruct (Read s (BufferSize config)) as [[chunk eof] s'] eqn:ER.
    cbn [fst] in E. subst chunk. cbn [length]. simpl. discriminate.
  - destruct (processStream_reference fuel config s (true, out) Hne H) as (k & Hk & E).
    unfold reference_process in E. rewrite finalizeWindow_eq in E. cbv zeta in E.
    destruct (decide _) as [_|_] in E; [|discriminate E].
    inversion E. apply take_drop.
Qed.

(** X14. Whenever the Writer reports a no-op, the bytes it wrote are
    the bytes it read, for every source, however it splits its data
    into reads, and every configuration. *)
Theorem noop_output_is_input (config : Config) (s : source) (fuel : nat)
    (out : list byte) :
  processStream fuel (NewWriter config) s = Done (true, out) ->
  out = data s.
Proof.
  intros H. exact (processStream_noop_output config s fuel out H).
Qed.

Lemma noop_output_is_input_witness :
  stamped_package_main = data (file_source stamped_package_main).
Proof.
  apply (noop_output_is_input DefaultConfig (file_source stamped_package_main) 1).
  vm_compute. reflexivity.
Defined.

(** X15. The buffer size does not show in the result: on a regular
    file the Writer writes the same bytes with the same verdict, and
    the Reader returns the same answer, under any two buffer sizes
    larger than the window. *)
Theorem buffer_size_is_immaterial (style : CommentStyle) (B1 B2 : nat)
    (content : list byte) (fuel : nat) :
  let c1 := {| Style := style; BufferSize := B1 |} in
  let c2 := {| Style := style; BufferSize := B2 |} in
  windowSize c1 < B1 ->
  windowSize c2 < B2 ->
  length content < fuel ->
  processStream fuel (NewWriter c1) (file_source content)
  = processStream fuel (NewWriter c2) (file_source content)
  /\ verifyStream fuel (NewReader c1) (file_source content)
     = verifyStream fuel (NewReader c2) (file_source content).
Proof.
  intros c1 c2 H1 H2 Hfuel.
  destruct (decide (content = [])) as [->|Hne].
  - rewrite !processStream_nil, !verifyStream_nil. split; reflexivity.
  - rewrite (processStream_file c1 content H1 Hne fuel Hfuel).
    rewrite (processStream_file c2 content H2 Hne fuel Hfuel).
    rewrite (verifyStream_file c1 content H1 Hne fuel Hfuel).
    rewrite (verifyStream_file c2 content H2 Hne fuel Hfuel).
    unfold reference_process, reference_verify.
    rewrite !finalizeWindow_eq, !verifyWindow_eq. split; reflexivity.
Qed.

Lemma buffer_size_is_immaterial_witness :
  processStream 14 (NewWriter {| Style := GoStyle; BufferSize := 31 |})
    (file_source package_main)
  = processStream 14 (NewWriter {| Style := GoStyle; BufferSize := 4096 |})
      (file_source package_main)
  /\ verifyStream 14 (NewReader {| Style := GoStyle; BufferSize := 31 |})
       (file_source package_main)
     = verifyStream 14 (NewReader {| Style := GoStyle; BufferSize := 4096 |})
         (file_source package_main).
Proof.
  apply (buffer_size_is_immaterial GoStyle 31 4096 package_main 14).
  - apply Nat.ltb_lt. vm_compute. reflexivity.
  - apply Nat.ltb_lt. vm_compute. reflexivity.
  - apply Nat.ltb_lt. vm_compute. reflexivity.
Defined.

(** ** CRC-32 detects a changed byte *)

Lemma byte_to_Z_inj (v v' : byte) : byte_to_Z v = byte_to_Z v' -> v = v'.
Proof.
  unfold byte_to_Z. intros H. apply N2Z.inj in H.
  apply (f_equal Byte.of_N) in H. rewrite !Byte.of_to_N in H. congruence.
Qed.

Lemma table_top_bytes_distinct (i j : Z) :
  (0 <= i < 256)%Z -> (0 <= j < 256)%Z ->
  Z.shiftr (IEEETable i) 24 = Z.shiftr (IEEETable j) 24 -> i = j.
Proof.
  intros Hi. revert j. revert i Hi.
  apply (below_256_cases (fun i => forall j, (0 <= j < 256)%Z ->
           Z.shiftr (IEEETable i) 24 = Z.shiftr (IEEETable j) 24 -> i = j)).
  intros k Hk.
  apply (below_256_cases (fun j =>
           Z.shiftr (IEEETable (Z.of_nat k)) 24 = Z.shiftr (IEEETable j) 24
           -> Z.of_nat k = j)).
  intros l Hl.
  assert (Hall : forallb (fun k => forallb (fun l =>
             implb (Z.shiftr (IEEETable (Z.of_nat k)) 24
                    =? Z.shiftr (IEEETable (Z.of_nat l)) 24)%Z
                   (k =? l)) (seq 0 256)) (seq 0 256) = true)
    by (vm_compute; reflexivity).
  rewrite forallb_forall in Hall.
  specialize (Hall k ltac:(apply in_seq; lia)). cbv beta in Hall.
  rewrite forallb_forall in Hall.
  specialize (Hall l ltac:(apply in_seq; lia)). cbv beta in Hall.
  intros E. apply Z.eqb_eq in E. rewrite E in Hall. simpl in Hall.
  apply Nat.eqb_eq in Hall. congruence.
Qed.

Lemma lxor_cancel_l (a b c : Z) : Z.lxor a b = Z.lxor a c -> b = c.
Proof.
  intros H. apply (f_equal (Z.lxor a)) in H.
  rewrite <- !Z.lxor_assoc, Z.lxor_nilpotent, !Z.lxor_0_l in H. exact H.
Qed.

Lemma lxor_cancel_r (a b c : Z) : Z.lxor b a = Z.lxor c a -> b = c.
Proof. rewrite !(Z.lxor_comm _ a). apply lxor_cancel_l. Qed.

Lemma crc_step_inj_byte (c : Z) (v v' : byte) :
  crc_step c v = crc_step c v' -> v = v'.
Proof.
  unfold crc_step. intros H. apply lxor_cancel_r in H.
  apply (f_equal (fun t => Z.shiftr t 24)) in H.
  apply table_top_bytes_distinct in H; try apply table_index_range.
  apply lxor_cancel_l in H. apply byte_to_Z_inj. exact H.
Qed.

Lemma crc_step_inj_state (c c' : Z) (v : byte) :
  (0 <= c < 2 ^ 32)%Z -> (0 <= c' < 2 ^ 32)%Z ->
  crc_step c v = crc_step c' v -> c = c'.
Proof.
  intros Hc Hc' H. unfold crc_step in H.
  assert (Hhi : forall d, (0 <= d < 2 ^ 32)%Z -> Z.shiftr (Z.shiftr d 8) 24 = 0%Z).
  { intros d Hd. rewrite Z.shiftr_shiftr by lia. simpl Z.add.
    rewrite Z.shiftr_div_pow2 by lia. apply Z.div_small. exact Hd. }
  pose proof (f_equal (fun t => Z.shiftr t 24) H) as Htop. cbv beta in Htop.
  rewrite !Z.shiftr_lxor, !Hhi, !Z.lxor_0_r in Htop by assumption.
  apply table_top_bytes_distinct in Htop; try apply table_index_range.
  rewrite Htop in H. apply lxor_cancel_l in H. apply lxor_cancel_r in Htop.
  rewrite <- (Z.lor_ldiff_and c 255), <- (Z.lor_ldiff_and c' 255).
  rewrite Htop. f_equal.
  change 255%Z with (Z.ones 8).
  rewrite !Z.ldiff_ones_r by lia. rewrite H. reflexivity.
Qed.

Lemma fold_crc_step_range (p : list byte) (c : Z) :
  (0 <= c < 2 ^ 32)%Z -> (0 <= fold_left crc_step p c < 2 ^ 32)%Z.
Proof.
  revert c. induction p as [|v p IH]; intros c Hc; simpl; [exact Hc|].
  apply IH, crc_step_range, Hc.
Qed.

Lemma fold_crc_step_inj (p : list byte) (c c' : Z) :
  (0 <= c < 2 ^ 32)%Z -> (0 <= c' < 2 ^ 32)%Z ->
  fold_left crc_step p c = fold_left crc_step p c' -> c = c'.
Proof.
  revert c c'. induction p as [|v p IH]; intros c c' Hc Hc' H; simpl in H; [exact H|].
  apply IH in H; try (apply crc_step_range; assumption).
  apply (crc_step_inj_state c c' v Hc Hc' H).
Qed.

Lemma checksum_changed_byte (a b : list byte) (v v' : byte) :
  ChecksumIEEE (a ++ v :: b) = ChecksumIEEE (a ++ v' :: b) -> v = v'.
Proof.
  unfold ChecksumIEEE, Sum32, hWrite, NewIEEE. cbn [crc]. unfold simpleUpdate.
  intros H. apply lxor_cancel_r in H.
  rewrite !fold_left_app in H. cbn [fold_left] in H.
  assert (H0 : (0 <= Z.lxor 0 4294967295 < 2 ^ 32)%Z)
    by (vm_compute; split; [discriminate|reflexivity]).
  pose proof (fold_crc_step_range a _ H0) as Hs.
  apply fold_crc_step_inj in H; try (apply crc_step_range; exact Hs).
  apply (crc_step_inj_byte _ _ _ H).
Qed.

Lemma crc_of_content_changed_byte (a b : list byte) (v v' : byte) :
  2 <= length b -> v <> v' ->
  crc_of_content (a ++ v' :: b) <> crc_of_content (a ++ v :: b).
Proof.
  intros Hb Hv E. apply Hv. unfold crc_of_content in E.
  change (a ++ v' :: b) with (a ++ [v'] ++ b) in E.
  change (a ++ v :: b) with (a ++ [v] ++ b) in E.
  rewrite !app_assoc in E. rewrite !strip_line_ending_app in E by exact Hb.
  rewrite <- !app_assoc in E. symmetry.
  apply (checksum_changed_byte a (strip_line_ending b) v' v E).
Qed.

(** X16. A changed byte is found out: take a well-formed stamped file
    and replace one byte of the body, at least two bytes before the
    end of the body, by another value. The Reader then returns valid =
    false, and the Writer reports a modification and writes other bytes
    than it read. *)
Theorem changed_byte_is_detected (config : Config) (a b : list byte) (v v' : byte)
    (le : list byte) (fuel : nat) :
  windowSize config < BufferSize config ->
  v <> v' ->
  line_start (a ++ v :: b) ->
  2 <= length b ->
  le = [LF] \/ le = [CR; LF] ->
  length a + length b + windowSize config < fuel ->
  let marker := createComment (NewWriter config) (crc_of_content (a ++ v :: b)) le in
  let tampered := (a ++ v' :: b) ++ marker in
  verifyStream fuel (NewReader config) (file_source tampered) = Done (inl false)
  /\ exists out,
       processStream fuel (NewWriter config) (file_source tampered) = Done (false, out)
       /\ out <> tampered.
Proof.
  intros HB Hv Hls Hb Hle Hfuel marker tampered. subst marker tampered.
  assert (Hls' : line_start (a ++ v' :: b)).
  { right. destruct Hls as [E|E]; [destruct a; discriminate E|].
    rewrite last_app in E |- *. destruct b as [|c b]; [simpl in Hb; lia|].
    rewrite last_cons in E |- *.
    destruct (last (c :: b)) eqn:Hl; [exact E|].
    apply last_None in Hl. discriminate Hl. }
  pose proof (crc_of_content_changed_byte a b v v' Hb Hv) as Hneq.
  pose proof (crc_of_content_range (a ++ v :: b)) as Hx.
  pose proof (length_stamped config (a ++ v' :: b) (crc_of_content (a ++ v :: b)) le Hle)
    as Hlen.
  assert (Hlen' : length (a ++ v' :: b) = length a + length b + 1)
    by (rewrite length_app; simpl; lia).
  destruct (stamped_file_run config HB (a ++ v' :: b) (crc_of_content (a ++ v :: b)) le
              Hls' Hx Hle fuel ltac:(lia)) as (HV & le' & Hle' & HP).
  fold (crc_of_content (a ++ v' :: b)) in HV, HP.
  split.
  - rewrite HV. do 2 f_equal. apply Z.eqb_neq. exact Hneq.
  - rewrite decide_False in HP by congruence.
    eexists. split; [exact HP|].
    intros E. apply app_inv_head in E.
    unfold createComment in E. apply app_inv_head in E. apply app_inv_head in E.
    apply (f_equal (take 8)) in E.
    rewrite !take_app_length' in E by reflexivity.
    apply (f_equal marker_value) in E.
    rewrite !marker_value_fmt_08X in E by apply crc_of_content_range.
    congruence.
Qed.

Lemma changed_byte_is_detected_witness :
  let marker := createComment (NewWriter DefaultConfig)
                  (crc_of_content (bytes "package" ++ " "%byte :: bytes "main" ++ [LF]))
                  [LF] in
  let tampered := (bytes "package" ++ "_"%byte :: bytes "main" ++ [LF]) ++ marker in
  verifyStream 43 (NewReader DefaultConfig) (file_source tampered) = Done (inl false)
  /\ exists out,
       processStream 43 (NewWriter DefaultConfig) (file_source tampered)
         = Done (false, out)
       /\ out <> tampered.
Proof.
  apply (changed_byte_is_detected DefaultConfig (bytes "package") (bytes "main" ++ [LF])
           " "%byte "_"%byte [LF] 43).
  - apply Nat.ltb_lt. vm_compute. reflexivity.
  - discriminate.
  - right. reflexivity.
  - apply Nat.leb_le. vm_compute. reflexivity.
  - left. reflexivity.
  - apply Nat.ltb_lt. vm_compute. reflexivity.
Defined.

(** ** The configurations of the package *)

Lemma predefined_window (style : CommentStyle) (B : nat) :
  style ∈ predefined_styles -> windowSize {| Style := style; BufferSize := B |} <= 36.
Proof.
  unfold predefined_styles, windowSize, maxCommentSize. cbn [Style].
  rewrite !elem_of_cons, elem_of_nil.
  intros [->|[->|[->|[->|[->|[->|[->|[->|[]]]]]]]]]; simpl; lia.
Qed.

Lemma ConfigForExtension_cases (ext : string) :
  BufferSize (ConfigForExtension ext) = 64 * 1024
  /\ Style (ConfigForExtension ext) ∈ predefined_styles.
Proof.
  unfold ConfigForExtension.
  repeat case_bool_decide;
    (split; [reflexivity|
             cbn [Style with_CommentStyle DefaultConfig]; unfold predefined_styles;
             rewrite !elem_of_cons; repeat (try (left; reflexivity); right)]).
Qed.

Lemma predefined_buffer (config : Config) :
  BufferSize config = 64 * 1024 -> Style config ∈ predefined_styles ->
  windowSize config <= 36 /\ windowSize config < BufferSize config.
Proof.
  intros HB Hs. destruct config as [style B]. cbn [BufferSize Style] in *.
  pose proof (predefined_window style B Hs) as HW.
  split; [exact HW|]. rewrite HB.
  apply (Nat.le_lt_trans _ 36); [exact HW|].
  apply Nat.ltb_lt. vm_compute. reflexivity.
Qed.


(** ** ProcessFile and VerifyFile over the file system *)

Lemma ProcessFile_noop (fuel : nat) (w : Writer) (filename tmpName : string)
    (σ : world) (f : file) (out : list byte) :
  files σ !! filename = Some f ->
  files σ !! tmpName = None ->
  processStream fuel w (file_source (f_data f)) = Done (true, out) ->
  exists σ', ProcessFile fuel w filename tmpName σ = Done (None, σ')
             /\ files σ' = files σ.
Proof.
  intros Hfile Htmp Hrun.
  unfold ProcessFile. cbn [files log]. rewrite Hfile, Htmp, Hrun.
  cbn [mbind outcome_bind].
  eexists. split; [reflexivity|].
  cbn [files sys_remove sys_write sys_create log set_files].
  rewrite delete_alter_eq, delete_insert_eq. apply delete_id. exact Htmp.
Qed.

Lemma ProcessFile_modified (fuel : nat) (w : Writer) (filename tmpName : string)
    (σ : world) (f : file) (out : list byte) :
  files σ !! filename = Some f ->
  files σ !! tmpName = None ->
  processStream fuel w (file_source (f_data f)) = Done (false, out) ->
  exists σ', ProcessFile fuel w filename tmpName σ = Done (None, σ')
             /\ files σ' = <[filename := replaced f out σ]> (files σ)
             /\ trace σ' = trace σ ++ [SysStat filename; SysOpen filename;
                                       SysCreateTemp tmpName; SysWrite tmpName out;
                                       SysChmod tmpName (f_mode f);
                                       SysChown tmpName (f_uid f) (f_gid f);
                                       SysRename tmpName filename].
Proof.
  intros Hfile Htmp Hrun.
  unfold ProcessFile. cbn [files log]. rewrite Hfile, Htmp, Hrun.
  cbn [mbind outcome_bind].
  eexists. split; [reflexivity|]. split.
  - unfold preserveAttributes.
    cbn [files clock sys_rename sys_chown sys_chmod sys_write sys_create log set_files].
    rewrite !alter_insert_eq. rewrite lookup_insert_eq.
    rewrite delete_insert_eq, delete_id by exact Htmp.
    cbn [f_data f_mode f_uid f_gid f_mtime app]. reflexivity.
  - unfold preserveAttributes.
    cbn [trace sys_rename sys_chown sys_chmod sys_write sys_create log set_files].
    rewrite <- !app_assoc. reflexivity.
Qed.

Lemma VerifyFile_run (fuel : nat) (r : Reader) (filename : string) (σ : world)
    (f : file) (valid : bool) :
  files σ !! filename = Some f ->
  verifyStream fuel r (file_source (f_data f)) = Done (inl valid) ->
  VerifyFile fuel r filename σ = Done (inl valid, log (SysOpen filename) σ).
Proof.
  intros Hfile Hrun. unfold VerifyFile. cbn [files log].
  rewrite Hfile, Hrun. reflexivity.
Qed.

(** X17. When the streaming pass reports a modification,
    [ProcessFile] succeeds and leaves at the target the bytes the pass
    wrote under the permission bits of the original; the temporary
    file is gone, every other path is as before, and the last call is
    the rename onto the target. Nothing is said of the owner: changing
    it is best effort in the source. *)
Theorem ProcessFile_replaces_target
    (fuel : nat) (w : Writer) (filename tmpName : string) (σ : world)
    (f : file) (out : list byte) :
  files σ !! filename = Some f ->
  files σ !! tmpName = None ->
  processStream fuel w (file_source (f_data f)) = Done (false, out) ->
  exists σ' g,
    ProcessFile fuel w filename tmpName σ = Done (None, σ')
    /\ files σ' !! filename = Some g
    /\ f_data g = out
    /\ f_mode g = f_mode f
    /\ files σ' !! tmpName = None
    /\ (forall p, p <> filename -> files σ' !! p = files σ !! p)
    /\ last (trace σ') = Some (SysRename tmpName filename).
Proof.
  intros Hfile Htmp Hrun.
  assert (Hne : tmpName <> filename) by (intros ->; congruence).
  destruct (ProcessFile_modified fuel w filename tmpName σ f out Hfile Htmp Hrun)
    as (σ' & HP & Hfs & Htr).
  exists σ', (replaced f out σ). split; [exact HP|]. rewrite Hfs, Htr.
  split; [apply lookup_insert_eq|].
  split; [reflexivity|]. split; [reflexivity|].
  split; [rewrite lookup_insert_ne by congruence; exact Htmp|].
  split; [intros p Hp; apply lookup_insert_ne; congruence|].
  rewrite last_app. reflexivity.
Qed.

Lemma ProcessFile_replaces_target_witness :
  exists σ' g,
    ProcessFile 1 (NewWriter (ConfigForExtension ".py")) "src/hello.py"
      "src/.hashfile_1.tmp" py_world = Done (None, σ')
    /\ files σ' !! "src/hello.py"%string = Some g
    /\ f_data g = hello_py_stamped
    /\ f_mode g = f_mode hello_py
    /\ files σ' !! "src/.hashfile_1.tmp"%string = None
    /\ (forall p, p <> "src/hello.py"%string -> files σ' !! p = files py_world !! p)
    /\ last (trace σ') = Some (SysRename "src/.hashfile_1.tmp" "src/hello.py").
Proof.
  apply (ProcessFile_replaces_target 1 (NewWriter (ConfigForExtension ".py"))
           "src/hello.py" "src/.hashfile_1.tmp" py_world hello_py hello_py_stamped).
  - vm_compute. reflexivity.
  - vm_compute. reflexivity.
  - vm_compute. reflexivity.
Defined.

(** X18. A missing target: [ProcessFile] returns the error of the failed
    stat after that one call, so nothing is opened, no temporary file
    is created and every file is as before; so do the package-level
    [ProcessFile] and [ProcessGoFile], and the [add] command given such
    a name without wildcard exits with 1 and changes no file. *)
Theorem ProcessFile_missing_target
    (fuel : nat) (w : Writer) (filename tmpName : string) (σ : world) :
  files σ !! filename = None ->
  let σ' := log (SysStat filename) σ in
  files σ' = files σ
  /\ trace σ' = trace σ ++ [SysStat filename]
  /\ ProcessFile fuel w filename tmpName σ = Done (Some StatFailed, σ')
  /\ hashfile.ProcessFile fuel filename tmpName σ = Done (Some StatFailed, σ')
  /\ hashfile.ProcessGoFile fuel filename tmpName σ = Done (Some StatFailed, σ')
  /\ forall Glob Stat tmp style,
       containsWildcard filename = false ->
       runAdd fuel Glob Stat tmp style [filename] σ = Done (1%Z, σ').
Proof.
  intros Hfile σ'.
  assert (HP : forall w' t, ProcessFile fuel w' filename t σ
                            = Done (Some StatFailed, σ')).
  { intros w' t. unfold ProcessFile. cbn [files log]. rewrite Hfile. reflexivity. }
  split; [reflexivity|]. split; [reflexivity|].
  split; [apply HP|]. split; [apply HP|]. split; [apply HP|].
  intros Glob Stat tmp style Hw.
  unfold runAdd, expandFiles. cbn [length Nat.eqb expand_loop]. rewrite Hw.
  cbn [negb]. unfold add_unseen. cbn [fst snd].
  rewrite decide_False by apply not_elem_of_empty.
  cbn [app fst runAdd_loop]. rewrite HP. reflexivity.
Qed.

Lemma ProcessFile_missing_target_witness :
  let σ' := log (SysStat "missing.go") one_file_world in
  files σ' = files one_file_world
  /\ trace σ' = trace one_file_world ++ [SysStat "missing.go"]
  /\ ProcessFile 1 (NewWriter DefaultConfig) "missing.go" ".hashfile_1.tmp"
       one_file_world = Done (Some StatFailed, σ')
  /\ hashfile.ProcessFile 1 "missing.go" ".hashfile_1.tmp" one_file_world
     = Done (Some StatFailed, σ')
  /\ hashfile.ProcessGoFile 1 "missing.go" ".hashfile_1.tmp" one_file_world
     = Done (Some StatFailed, σ')
  /\ forall Glob Stat tmp style,
       runAdd 1 Glob Stat tmp style ["missing.go"%string] one_file_world
       = Done (1%Z, σ').
Proof.
  destruct (ProcessFile_missing_target 1 (NewWriter DefaultConfig)
              "missing.go" ".hashfile_1.tmp" one_file_world)
    as (H1 & H2 & H3 & H4 & H5 & H6); [vm_compute; reflexivity|].
  split; [exact H1|]. split; [exact H2|]. split; [exact H3|].
  split; [exact H4|]. split; [exact H5|].
  intros Glob Stat tmp style. apply H6. reflexivity.
Defined.

Lemma stamp_verify_restamp_file
    (fuel : nat) (config : Config) (filename tmpName : string) (σ : world) (f : file) :
  windowSize config < BufferSize config ->
  files σ !! filename = Some f ->
  files σ !! tmpName = None ->
  FindSubmatchIndex (createCommentPattern (Style config))
    (final_window (windowSize config) (f_data f)) = None ->
  last (f_data f) <> Some CR ->
  length (f_data f) + windowSize config + 2 <= fuel ->
  exists out σ1 σ2 σ3,
    ProcessFile fuel (NewWriter config) filename tmpName σ = Done (None, σ1)
    /\ files σ1 = <[filename := replaced f out σ]> (files σ)
    /\ VerifyFile fuel (NewReader config) filename σ1 = Done (inl true, σ2)
    /\ ProcessFile fuel (NewWriter config) filename tmpName σ2 = Done (None, σ3)
    /\ files σ3 = files σ1.
Proof.
  intros HB Hfile Htmp Hnone Hcr Hfuel.
  assert (Hne : tmpName <> filename) by (intros ->; congruence).
  destruct (fresh_then_stamped config (f_data f) fuel HB Hnone Hcr Hfuel)
    as (out & HP & HV & HP').
  destruct (ProcessFile_modified fuel _ filename tmpName σ f out Hfile Htmp HP)
    as (σ1 & H1 & Hfs1 & _).
  assert (Hfile1 : files σ1 !! filename = Some (replaced f out σ))
    by (rewrite Hfs1; apply lookup_insert_eq).
  assert (Htmp1 : files σ1 !! tmpName = None)
    by (rewrite Hfs1, lookup_insert_ne by congruence; exact Htmp).
  pose proof (VerifyFile_run fuel _ filename σ1 _ true Hfile1 HV) as H2.
  destruct (ProcessFile_noop fuel _ filename tmpName (log (SysOpen filename) σ1)
              (replaced f out σ) out Hfile1 Htmp1 HP') as (σ3 & H3 & Hfs3).
  exists out, σ1, (log (SysOpen filename) σ1), σ3.
  split; [exact H1|]. split; [exact Hfs1|]. split; [exact H2|].
  split; [exact H3|exact Hfs3].
Qed.

(** X19. [ProcessFile], then [VerifyFile], through the file system:
    for a target in whose final window the matcher finds no marker
    and which does not end in a carriage return, [ProcessFile] succeeds,
    [VerifyFile] on the result returns valid = true without changing
    any file, and all paths but the target are as before. *)
Theorem stamp_then_verify_file
    (fuel : nat) (config : Config) (filename tmpName : string) (σ : world) (f : file) :
  windowSize config < BufferSize config ->
  files σ !! filename = Some f ->
  files σ !! tmpName = None ->
  FindSubmatchIndex (createCommentPattern (Style config))
    (final_window (windowSize config) (f_data f)) = None ->
  last (f_data f) <> Some CR ->
  length (f_data f) + windowSize config + 2 <= fuel ->
  exists σ1 σ2,
    ProcessFile fuel (NewWriter config) filename tmpName σ = Done (None, σ1)
    /\ VerifyFile fuel (NewReader config) filename σ1 = Done (inl true, σ2)
    /\ files σ2 = files σ1
    /\ forall p, p <> filename -> files σ2 !! p = files σ !! p.
Proof.
  intros HB Hfile Htmp Hnone Hcr Hfuel.
  destruct (stamp_verify_restamp_file fuel config filename tmpName σ f
              HB Hfile Htmp Hnone Hcr Hfuel)
    as (out & σ1 & σ2 & σ3 & H1 & Hfs1 & H2 & _).
  exists σ1, σ2. split; [exact H1|]. split; [exact H2|].
  assert (E : σ2 = log (SysOpen filename) σ1).
  { revert H2. unfold VerifyFile. cbn [files log].
    destruct (files σ1 !! filename); [|intros H; inversion H; reflexivity].
    destruct (verifyStream _ _ _); cbn [mbind outcome_bind]; intros H;
      inversion H; reflexivity. }
  subst σ2. cbn [files log]. split; [reflexivity|].
  intros p Hp. rewrite Hfs1. apply lookup_insert_ne. congruence.
Qed.

Lemma stamp_then_verify_file_witness :
  exists σ1 σ2,
    ProcessFile 50 (NewWriter (ConfigForExtension ".py")) "src/hello.py"
      "src/.hashfile_1.tmp" py_world = Done (None, σ1)
    /\ VerifyFile 50 (NewReader (ConfigForExtension ".py")) "src/hello.py" σ1
       = Done (inl true, σ2)
    /\ files σ2 = files σ1
    /\ forall p, p <> "src/hello.py"%string -> files σ2 !! p = files py_world !! p.
Proof.
  apply (stamp_then_verify_file 50 (ConfigForExtension ".py") "src/hello.py"
           "src/.hashfile_1.tmp" py_world hello_py).
  - apply Nat.ltb_lt. vm_compute. reflexivity.
  - vm_compute. reflexivity.
  - vm_compute. reflexivity.
  - vm_compute. reflexivity.
  - vm_compute. discriminate.
  - apply Nat.leb_le. vm_compute. reflexivity.
Defined.



(** ** filepath.Ext and the auto-detected style *)

Lemma list_ascii_of_string_app (a b : string) :
  list_ascii_of_string (a +:+ b) = list_ascii_of_string a ++ list_ascii_of_string b.
Proof. induction a as [|c a IH]; simpl; [reflexivity|]. rewrite IH. reflexivity. Qed.

Lemma ext_scan_suffix (xs r acc : list ascii) :
  Forall (fun c => c <> "/"%char /\ c <> "."%char) xs ->
  ext_scan (xs ++ "."%char :: r) acc = "."%char :: rev xs ++ acc.
Proof.
  intros H. revert acc. induction H as [|x xs [H1 H2] _ IH]; intros acc.
  - reflexivity.
  - cbn [app ext_scan].
    destruct (Ascii.eqb_spec x "/"); [contradiction|].
    destruct (Ascii.eqb_spec x "."); [contradiction|].
    rewrite IH. cbn [rev]. rewrite <- app_assoc. reflexivity.
Qed.

(** X21. The style depends on the text after the last dot only: for a
    path that ends in a dot and then characters that are neither dots
    nor slashes, [filepath.Ext] returns that dot and those characters,
    so [ConfigForExtension] gives a file the configuration of its
    extension wherever the file lies. *)
Theorem Ext_of_suffix (stem e : string) :
  Forall (fun c => c <> "/"%char /\ c <> "."%char) (list_ascii_of_string e) ->
  Ext (stem +:+ "." +:+ e) = ("." +:+ e)%string
  /\ ConfigForExtension (Ext (stem +:+ "." +:+ e)) = ConfigForExtension ("." +:+ e).
Proof.
  intros H.
  assert (E : Ext (stem +:+ "." +:+ e) = ("." +:+ e)%string).
  { unfold Ext. rewrite !list_ascii_of_string_app. cbn [list_ascii_of_string app].
    rewrite rev_app_distr. cbn [rev]. rewrite <- app_assoc. cbn [app].
    rewrite ext_scan_suffix by (apply Forall_rev; exact H).
    rewrite rev_involutive, app_nil_r. cbn [string_of_list_ascii].
    rewrite string_of_list_ascii_of_string. reflexivity. }
  rewrite E. split; reflexivity.
Qed.

Lemma Ext_of_suffix_witness :
  Ext ("src/v1.2/hello" +:+ "." +:+ "py") = ("." +:+ "py")%string
  /\ ConfigForExtension (Ext ("src/v1.2/hello" +:+ "." +:+ "py"))
     = ConfigForExtension ("." +:+ "py").
Proof.
  apply (Ext_of_suffix "src/v1.2/hello" "py").
  repeat constructor; discriminate.
Defined.



(** X23. [ProcessGoFile], then [VerifyGoFile]: for an existing file in
    whose last 30 bytes the Go matcher finds no marker and which does
    not end in a carriage return, [ProcessGoFile] succeeds and
    [VerifyGoFile] returns valid = true; for a name with the extension
    .go the auto-detecting [VerifyFile] gives the same answer. *)
Theorem go_file_stamp_then_verify
    (fuel : nat) (filename tmpName : string) (σ : world) (f : file) :
  files σ !! filename = Some f ->
  files σ !! tmpName = None ->
  FindSubmatchIndex (createCommentPattern GoStyle) (final_window 30 (f_data f)) = None ->
  last (f_data f) <> Some CR ->
  length (f_data f) + 32 <= fuel ->
  exists σ1 σ2,
    hashfile.ProcessGoFile fuel filename tmpName σ = Done (None, σ1)
    /\ hashfile.VerifyGoFile fuel filename σ1 = Done (inl true, σ2)
    /\ (Ext filename = ".go"%string ->
        hashfile.VerifyFile fuel filename σ1 = Done (inl true, σ2)).
Proof.
  intros Hfile Htmp Hnone Hcr Hfuel.
  assert (HB : windowSize DefaultConfig < BufferSize DefaultConfig)
    by (apply Nat.ltb_lt; vm_compute; reflexivity).
  assert (Hfuel' : length (f_data f) + windowSize DefaultConfig + 2 <= fuel)
    by (change (windowSize DefaultConfig) with 30; lia).
  destruct (stamp_verify_restamp_file fuel DefaultConfig filename tmpName σ f
              HB Hfile Htmp Hnone Hcr Hfuel')
    as (out & σ1 & σ2 & σ3 & H1 & _ & H2 & _).
  exists σ1, σ2. split; [exact H1|]. split; [exact H2|].
  intros E. unfold hashfile.VerifyFile. rewrite E. exact H2.
Qed.

Lemma go_file_stamp_then_verify_witness :
  exists σ1 σ2,
    hashfile.ProcessGoFile 50 "lib.go" ".hashfile_1.tmp"
      {| files := {[ "lib.go"%string :=
                       {| f_data := package_main; f_mode := 420; f_uid := 0;
                          f_gid := 0; f_mtime := 1 |} ]};
         clock := 2; trace := [] |} = Done (None, σ1)
    /\ hashfile.VerifyGoFile 50 "lib.go" σ1 = Done (inl true, σ2)
    /\ (Ext "lib.go" = ".go"%string ->
        hashfile.VerifyFile 50 "lib.go" σ1 = Done (inl true, σ2)).
Proof.
  apply (go_file_stamp_then_verify 50 "lib.go" ".hashfile_1.tmp" _
           {| f_data := package_main; f_mode := 420; f_uid := 0;
              f_gid := 0; f_mtime := 1 |}).
  - vm_compute. reflexivity.
  - vm_compute. reflexivity.
  - vm_compute. reflexivity.
  - vm_compute. discriminate.
  - apply Nat.leb_le. vm_compute. reflexivity.
Defined.

(** ** The configurations of the command line *)

Lemma getConfigForStyle_cases (style : string) :
  BufferSize (getConfigForStyle style) = 64 * 1024
  /\ Style (getConfigForStyle style) ∈ predefined_styles.
Proof.
  unfold getConfigForStyle.
  repeat case_bool_decide;
    (split; [reflexivity|
             cbn [Style with_CommentStyle DefaultConfig]; unfold predefined_styles;
             rewrite !elem_of_cons; repeat (try (left; reflexivity); right)]).
Qed.

Lemma getConfig_cases (filename styleFlag : string) :
  BufferSize (getConfig filename styleFlag) = 64 * 1024
  /\ Style (getConfig filename styleFlag) ∈ predefined_styles.
Proof.
  unfold getConfig. case_bool_decide.
  - apply getConfigForStyle_cases.
  - apply ConfigForExtension_cases.
Qed.

Lemma file_streams_finish (config : Config) (content : list byte) (fuel : nat) :
  windowSize config < BufferSize config ->
  length content < fuel ->
  (exists res, processStream fuel (NewWriter config) (file_source content) = Done res)
  /\ (exists res, verifyStream fuel (NewReader config) (file_source content) = Done res).
Proof.
  intros HB Hfuel. destruct (decide (content = [])) as [->|Hne].
  - rewrite processStream_nil, verifyStream_nil. eauto.
  - rewrite (processStream_file config content HB Hne fuel Hfuel).
    rewrite (verifyStream_file config content HB Hne fuel Hfuel). eauto.
Qed.

(** X24. Every configuration the code itself selects, by [getConfig]
    from a file name and a style flag, by [ConfigForExtension] or as
    [DefaultConfig], has a predefined style and a buffer larger than
    the window; with it both streaming passes run to completion on
    every regular file: no slice out of range and no endless loop. *)
Theorem selected_configs_run_to_completion
    (filename styleFlag : string) (content : list byte) (fuel : nat) :
  length content < fuel ->
  forall config,
    config = getConfig filename styleFlag
    \/ config = ConfigForExtension (Ext filename)
    \/ config = DefaultConfig ->
    Style config ∈ predefined_styles
    /\ windowSize config < BufferSize config
    /\ (exists res, processStream fuel (NewWriter config) (file_source content)
                    = Done res)
    /\ (exists res, verifyStream fuel (NewReader config) (file_source content)
                    = Done res).
Proof.
  intros Hfuel config Hc.
  assert (H : BufferSize config = 64 * 1024 /\ Style config ∈ predefined_styles).
  { destruct Hc as [->|[->| ->]].
    - apply getConfig_cases.
    - apply ConfigForExtension_cases.
    - split; [reflexivity|apply list_elem_of_here]. }
  destruct H as [HB Hs].
  destruct (predefined_buffer config HB Hs) as [_ HWB].
  split; [exact Hs|]. split; [exact HWB|].
  apply file_streams_finish; assumption.
Qed.

Lemma selected_configs_run_to_completion_witness :
  Style (getConfig "a.unknown" "html") ∈ predefined_styles
  /\ windowSize (getConfig "a.unknown" "html") < BufferSize (getConfig "a.unknown" "html")
  /\ (exists res, processStream 14 (NewWriter (getConfig "a.unknown" "html"))
                    (file_source package_main) = Done res)
  /\ (exists res, verifyStream 14 (NewReader (getConfig "a.unknown" "html"))
                    (file_source package_main) = Done res).
Proof.
  apply (selected_configs_run_to_completion "a.unknown" "html" package_main 14).
  - apply Nat.ltb_lt. vm_compute. reflexivity.
  - left. reflexivity.
Defined.

(** ** expandFiles *)

Lemma add_unseen_spec (st : list string * gset string) (name : string) :
  seen_inv st ->
  seen_inv (add_unseen st name)
  /\ (exists new, (add_unseen st name).1 = st.1 ++ new)
  /\ forall x, x ∈ (add_unseen st name).1 <-> x ∈ st.1 \/ x = name.
Proof.
  intros [Hnd Hseen]. unfold add_unseen.
  destruct (decide (name ∈ st.2)) as [Hin|Hnin].
  - split; [split; assumption|]. split; [exists []; rewrite app_nil_r; reflexivity|].
    intros x. split; [auto|]. intros [H| ->]; [exact H|]. apply Hseen, Hin.
  - unfold seen_inv. cbn [fst snd]. split; [split|split].
    + apply NoDup_app. split; [exact Hnd|]. split; [|apply NoDup_singleton].
      intros x Hx Hx'. apply list_elem_of_singleton in Hx'. subst x.
      apply Hnin, Hseen, Hx.
    + intros x. rewrite elem_of_union, elem_of_singleton, elem_of_app,
        list_elem_of_singleton, Hseen. tauto.
    + eauto.
    + intros x. rewrite elem_of_app, list_elem_of_singleton. tauto.
Qed.

Lemma add_matches_spec (Stat : string -> option bool) (matches : list string)
    (st : list string * gset string) :
  seen_inv st ->
  seen_inv (add_matches Stat matches st)
  /\ (exists new, (add_matches Stat matches st).1 = st.1 ++ new)
  /\ forall x, x ∈ (add_matches Stat matches st).1
               <-> x ∈ st.1 \/ (x ∈ matches /\ Stat x = Some false).
Proof.
  revert st. induction matches as [|m matches IH]; intros st Hinv.
  - cbn [add_matches foldl]. split; [exact Hinv|].
    split; [exists []; rewrite app_nil_r; reflexivity|].
    intros x. rewrite elem_of_nil. tauto.
  - unfold add_matches. cbn [foldl].
    fold (add_matches Stat matches
            match Stat m with
            | Some isDir => if isDir then st else add_unseen st m
            | None => st
            end).
    destruct (Stat m) as [[|]|] eqn:Hm.
    + destruct (IH st Hinv) as (H1 & H2 & H3).
      split; [exact H1|]. split; [exact H2|].
      intros x. rewrite H3, elem_of_cons. split; [tauto|].
      intros [H|[[->|H] Hs]]; [tauto|congruence|tauto].
    + destruct (add_unseen_spec st m Hinv) as (Hinv' & [new Hnew] & Hel).
      destruct (IH _ Hinv') as (H1 & [new' H2] & H3).
      split; [exact H1|].
      split; [exists (new ++ new'); rewrite H2, Hnew, app_assoc; reflexivity|].
      intros x. rewrite H3, Hel, elem_of_cons. split; [|tauto].
      intros [[H| ->]|H]; [tauto| |tauto]. right. split; [left; reflexivity|exact Hm].
    + destruct (IH st Hinv) as (H1 & H2 & H3).
      split; [exact H1|]. split; [exact H2|].
      intros x. rewrite H3, elem_of_cons. split; [tauto|].
      intros [H|[[->|H] Hs]]; [tauto|congruence|tauto].
Qed.

Lemma expand_loop_spec (Glob : string -> option (list string))
    (Stat : string -> option bool) (patterns : list string)
    (st : list string * gset string) (result : list string) :
  seen_inv st ->
  expand_loop Glob Stat patterns st = inl result ->
  NoDup result
  /\ (exists new, result = st.1 ++ new)
  /\ forall x, x ∈ result
               <-> x ∈ st.1 \/ exists p, p ∈ patterns /\ names Glob Stat p x.
Proof.
  revert st. induction patterns as [|p patterns IH]; intros st Hinv H.
  - cbn [expand_loop] in H. inversion H. subst result.
    split; [apply Hinv|]. split; [exists []; rewrite app_nil_r; reflexivity|].
    intros x. split; [auto|]. intros [Hx|(q & Hq & _)]; [exact Hx|].
    apply elem_of_nil in Hq. contradiction.
  - cbn [expand_loop] in H. unfold names.
    destruct (containsWildcard p) eqn:Hw; cbn [negb] in H.
    + destruct (Glob p) as [matches|] eqn:HG; [|discriminate H].
      destruct (add_matches_spec Stat matches st Hinv) as (Hinv' & [new Hnew] & Hel).
      destruct (IH _ Hinv' H) as (H1 & [new' H2] & H3).
      split; [exact H1|].
      split; [exists (new ++ new'); rewrite H2, Hnew, app_assoc; reflexivity|].
      intros x. rewrite H3, Hel. split.
      * intros [[Hx|Hx]|(q & Hq & Hn)]; [tauto| |].
        -- right. exists p. split; [left|]. rewrite Hw. eauto.
        -- right. exists q. split; [right; exact Hq|exact Hn].
      * intros [Hx|(q & Hq & Hn)]; [tauto|].
        apply elem_of_cons in Hq. destruct Hq as [->|Hq].
        -- rewrite Hw in Hn. destruct Hn as (ms & Hms & Hn). left. right.
           rewrite HG in Hms. inversion Hms. subst ms. exact Hn.
        -- right. exists q. split; assumption.
    + destruct (add_unseen_spec st p Hinv) as (Hinv' & [new Hnew] & Hel).
      destruct (IH _ Hinv' H) as (H1 & [new' H2] & H3).
      split; [exact H1|].
      split; [exists (new ++ new'); rewrite H2, Hnew, app_assoc; reflexivity|].
      intros x. rewrite H3, Hel. split.
      * intros [[Hx| ->]|(q & Hq & Hn)]; [tauto| |].
        -- right. exists p. split; [left|]. rewrite Hw. reflexivity.
        -- right. exists q. split; [right; exact Hq|exact Hn].
      * intros [Hx|(q & Hq & Hn)]; [tauto|].
        apply elem_of_cons in Hq. destruct Hq as [->|Hq].
        -- rewrite Hw in Hn. left. right. exact Hn.
        -- right. exists q. split; assumption.
Qed.

Lemma seen_inv_initial : seen_inv ([], ∅).
Proof.
  split; [apply NoDup_nil_2|]. intros x. cbn [fst snd].
  rewrite elem_of_empty, elem_of_nil. tauto.
Qed.

(** X25. What [expandFiles] returns when it succeeds: no name twice,
    and exactly the names that come from a pattern, a pattern without
    wildcard as it stands (whether or not such a file exists) and a
    pattern with wildcards through its matches that are regular
    files. *)
Theorem expandFiles_no_file_twice (Glob : string -> option (list string))
    (Stat : string -> option bool) (patterns result : list string) :
  expandFiles Glob Stat patterns = inl result ->
  NoDup result
  /\ forall x, x ∈ result <-> exists p, p ∈ patterns /\ names Glob Stat p x.
Proof.
  intros H.
  destruct (expand_loop_spec Glob Stat patterns _ result seen_inv_initial H)
    as (H1 & _ & H3).
  split; [exact H1|]. intros x. rewrite H3. cbn [fst]. rewrite elem_of_nil. tauto.
Qed.

Lemma expandFiles_no_file_twice_witness :
  NoDup ["b.go"; "a.go"]%string
  /\ forall x, x ∈ ["b.go"; "a.go"]%string
               <-> exists p, p ∈ ["b.go"; "*.go"; "b.go"]%string
                             /\ names go_dir_Glob go_dir_Stat p x.
Proof.
  apply (expandFiles_no_file_twice go_dir_Glob go_dir_Stat
           ["b.go"; "*.go"; "b.go"]%string ["b.go"; "a.go"]%string).
  vm_compute. reflexivity.
Defined.

Lemma expand_loop_error (Glob : string -> option (list string))
    (Stat : string -> option bool) (patterns : list string)
    (st : list string * gset string) :
  match expand_loop Glob Stat patterns st with
  | inl _ => forall p, p ∈ patterns -> containsWildcard p = true -> Glob p <> None
  | inr (InvalidPattern p) =>
      exists before after,
        patterns = before ++ p :: after
        /\ containsWildcard p = true /\ Glob p = None
        /\ forall q, q ∈ before -> containsWildcard q = true -> Glob q <> None
  end.
Proof.
  revert st. induction patterns as [|p patterns IH]; intros st.
  - cbn [expand_loop]. intros p Hp. apply elem_of_nil in Hp. contradiction.
  - cbn [expand_loop].
    assert (Hstep : forall st',
      (containsWildcard p = true -> Glob p <> None) ->
      match expand_loop Glob Stat patterns st' with
      | inl _ => forall q, q ∈ p :: patterns -> containsWildcard q = true -> Glob q <> None
      | inr (InvalidPattern q) =>
          exists before after,
            p :: patterns = before ++ q :: after
            /\ containsWildcard q = true /\ Glob q = None
            /\ forall q', q' ∈ before -> containsWildcard q' = true -> Glob q' <> None
      end).
    { intros st' Hp. specialize (IH st').
      destruct (expand_loop Glob Stat patterns st') as [res|[q]].
      - intros q Hq. apply elem_of_cons in Hq. destruct Hq as [->|Hq]; auto.
      - destruct IH as (before & after & -> & Hw & HG & Hb).
        exists (p :: before), after. split; [reflexivity|]. split; [exact Hw|].
        split; [exact HG|]. intros q' Hq'. apply elem_of_cons in Hq'.
        destruct Hq' as [->|Hq']; auto. }
    destruct (containsWildcard p) eqn:Hw; cbn [negb].
    + destruct (Glob p) as [matches|] eqn:HG.
      * apply Hstep. intros _. discriminate.
      * exists [], patterns. split; [reflexivity|]. split; [exact Hw|].
        split; [exact HG|]. intros q Hq. apply elem_of_nil in Hq. contradiction.
    + apply Hstep. intros Hc. discriminate Hc.
Qed.

(** X26. The error of [expandFiles] names the first pattern with a
    wildcard that [filepath.Glob] rejects: every wildcard pattern before
    it was accepted, and patterns without wildcard are never given to
    [filepath.Glob]. *)
Theorem expandFiles_first_bad_pattern (Glob : string -> option (list string))
    (Stat : string -> option bool) (patterns : list string) (p : string) :
  expandFiles Glob Stat patterns = inr (InvalidPattern p) ->
  exists before after,
    patterns = before ++ p :: after
    /\ containsWildcard p = true /\ Glob p = None
    /\ forall q, q ∈ before -> containsWildcard q = true -> Glob q <> None.
Proof.
  intros H. pose proof (expand_loop_error Glob Stat patterns ([], ∅)) as Hs.
  unfold expandFiles in H. rewrite H in Hs. exact Hs.
Qed.

Lemma expandFiles_first_bad_pattern_witness :
  exists before after,
    ["a.go"; "["; "*.go"]%string = before ++ "["%string :: after
    /\ containsWildcard "[" = true /\ go_dir_Glob "[" = None
    /\ forall q, q ∈ before -> containsWildcard q = true -> go_dir_Glob q <> None.
Proof.
  apply (expandFiles_first_bad_pattern go_dir_Glob go_dir_Stat
           ["a.go"; "["; "*.go"]%string "[").
  vm_compute. reflexivity.
Defined.

(** X27. [expandFiles] succeeds whenever [filepath.Glob] accepts every
    pattern that has a wildcard; names without wildcard never make it
    fail, nor do matches that cannot be stat-ed. *)
Theorem expandFiles_succeeds (Glob : string -> option (list string))
    (Stat : string -> option bool) (patterns : list string) :
  (forall p, p ∈ patterns -> containsWildcard p = true -> Glob p <> None) ->
  exists result, expandFiles Glob Stat patterns = inl result.
Proof.
  intros Hok. pose proof (expand_loop_error Glob Stat patterns ([], ∅)) as Hs.
  unfold expandFiles. destruct (expand_loop _ _ _ _) as [res|[q]]; [eauto|].
  destruct Hs as (before & after & -> & Hw & HG & _).
  exfalso. apply (Hok q); [|exact Hw|exact HG].
  apply elem_of_app. right. left.
Qed.

Lemma expandFiles_succeeds_witness :
  exists result, expandFiles go_dir_Glob go_dir_Stat ["a.go"; "*.go"]%string = inl result.
Proof.
  apply (expandFiles_succeeds go_dir_Glob go_dir_Stat ["a.go"; "*.go"]%string).
  intros p Hp Hw.
  apply elem_of_cons in Hp. destruct Hp as [->|Hp]; [discriminate Hw|].
  apply list_elem_of_singleton in Hp. subst p. discriminate.
Defined.

(** ** The commands *)

Lemma VerifyFile_cases (fuel : nat) (r : Reader) (path : string) (σ : world) :
  match VerifyFile fuel r path σ with
  | Done (res, σ') =>
      σ' = log (SysOpen path) σ
      /\ match files σ !! path with
         | None => res = inr OpenFailed
         | Some f =>
             match res with
             | inl valid =>
                 verifyStream fuel r (file_source (f_data f)) = Done (inl valid)
             | inr (StreamFailed e) =>
                 verifyStream fuel r (file_source (f_data f)) = Done (inr e)
             | inr OpenFailed => False
             end
         end
  | Panic => exists f, files σ !! path = Some f
                       /\ verifyStream fuel r (file_source (f_data f)) = Panic
  | OutOfFuel => exists f, files σ !! path = Some f
                           /\ verifyStream fuel r (file_source (f_data f)) = OutOfFuel
  end.
Proof.
  unfold VerifyFile. cbn [files log].
  destruct (files σ !! path) as [f|]; [|split; reflexivity].
  destruct (verifyStream fuel r (file_source (f_data f))) as [[b|e]| |] eqn:E;
    cbn [mbind outcome_bind]; first [split; reflexivity | eauto].
Qed.

Lemma runVerify_loop_spec (fuel : nat) (style : string) (allFiles : list string) :
  forall errors invalid validCount σ errors' invalid' validCount' σ',
    runVerify_loop fuel style allFiles errors invalid validCount σ
      = Done (errors', invalid', validCount', σ') ->
    files σ' = files σ
    /\ exists ne ni,
         errors' = errors ++ ne /\ invalid' = invalid ++ ni
         /\ (ne = [] /\ ni = [] <-> Forall (valid_in fuel style σ) allFiles).
Proof.
  induction allFiles as [|file rest IH];
    intros errors invalid validCount σ errors' invalid' validCount' σ' H.
  - cbn [runVerify_loop] in H. inversion H. subst.
    split; [reflexivity|]. exists [], []. rewrite !app_nil_r.
    split; [reflexivity|]. split; [reflexivity|]. split; [constructor|auto].
  - cbn [runVerify_loop] in H.
    pose proof (VerifyFile_cases fuel (NewReader (getConfig file style)) file σ) as Hv.
    destruct (VerifyFile _ _ _ _) as [[res σ1]| |]; cbn [mbind outcome_bind] in H;
      try discriminate H.
    destruct Hv as [-> Hres].
    assert (Hvalid : forall p, valid_in fuel style (log (SysOpen file) σ) p
                               <-> valid_in fuel style σ p) by reflexivity.
    assert (Htail : Forall (valid_in fuel style (log (SysOpen file) σ)) rest
                    <-> Forall (valid_in fuel style σ) rest) by reflexivity.
    destruct res as [[|]|err]; cbn [negb] in H;
      apply IH in H; destruct H as (Hfs & ne & ni & -> & -> & Hiff);
      (split; [exact Hfs|]).
    + exists ne, ni. split; [reflexivity|]. split; [reflexivity|].
      rewrite Hiff, Htail. split.
      * intros Hr. constructor; [|exact Hr].
        destruct (files σ !! file) as [f|] eqn:Hf; [|discriminate Hres].
        exists f. split; [exact Hf|exact Hres].
      * intros Hr. inversion Hr. assumption.
    + exists ne, (file :: ni). split; [reflexivity|].
      split; [rewrite <- app_assoc; reflexivity|]. split.
      * intros [_ Hc]. discriminate Hc.
      * intros Hr. exfalso. inversion Hr as [|? ? (f & Hf & Hrun) _]. subst.
        rewrite Hf in Hres. congruence.
    + exists ((file, err) :: ne), ni. split; [rewrite <- app_assoc; reflexivity|].
      split; [reflexivity|]. split.
      * intros [Hc _]. discriminate Hc.
      * intros Hr. exfalso. inversion Hr as [|? ? (f & Hf & Hrun) _]. subst.
        rewrite Hf in Hres. destruct err; [exact Hres|congruence].
Qed.

Lemma runVerify_loop_total (fuel : nat) (style : string) (allFiles : list string) :
  forall errors invalid validCount σ,
    (forall p f, files σ !! p = Some f -> length (f_data f) < fuel) ->
    exists res, runVerify_loop fuel style allFiles errors invalid validCount σ
                = Done res.
Proof.
  induction allFiles as [|file rest IH]; intros errors invalid validCount σ Hsize.
  - cbn [runVerify_loop]. eauto.
  - cbn [runVerify_loop]. unfold VerifyFile. cbn [files log].
    destruct (files σ !! file) as [f|] eqn:Hf.
    + destruct (getConfig_cases file style) as [HB Hs].
      destruct (predefined_buffer _ HB Hs) as [_ HWB].
      destruct (file_streams_finish _ (f_data f) fuel HWB (Hsize _ _ Hf))
        as [_ [res Hres]].
      rewrite Hres. cbn [mbind outcome_bind].
      destruct res as [[|]|err]; cbn [negb]; apply IH; exact Hsize.
    + cbn [mbind outcome_bind]. apply IH. exact Hsize.
Qed.

Lemma runCheck_loop_counts (fuel : nat) (style : string) (allFiles : list string) :
  forall errors invalid validCount σ,
    runCheck_loop fuel style allFiles validCount (length invalid) (length errors) σ
    = '(errors', invalid', validCount', σ') ←
        runVerify_loop fuel style allFiles errors invalid validCount σ;
      Done (validCount', length invalid', length errors', σ').
Proof.
  induction allFiles as [|file rest IH]; intros errors invalid validCount σ.
  - reflexivity.
  - cbn [runCheck_loop runVerify_loop].
    destruct (VerifyFile _ _ _ _) as [[res σ1]| |]; cbn [mbind outcome_bind];
      try reflexivity.
    destruct res as [[|]|err]; cbn [negb].
    + apply IH.
    + rewrite <- IH. rewrite length_app. reflexivity.
    + rewrite <- IH. rewrite length_app. reflexivity.
Qed.

(** X28. [check] and [verify] agree: on the same arguments and the
    same file system the two commands end with the same exit code and
    make the same calls, whatever the quiet flag of [verify]. *)
Theorem runCheck_exits_as_runVerify (fuel : nat)
    (Glob : string -> option (list string)) (Stat : string -> option bool)
    (style : string) (quiet : bool) (patterns : list string) (σ : world) :
  runCheck fuel Glob Stat style patterns σ
  = runVerify fuel Glob Stat style quiet patterns σ.
Proof.
  unfold runCheck, runVerify.
  destruct (length patterns =? 0); [reflexivity|].
  destruct (expandFiles Glob Stat patterns) as [allFiles|e]; [|reflexivity].
  pose proof (runCheck_loop_counts fuel style allFiles [] [] 0 σ) as E.
  cbn [length] in E. rewrite E. clear E.
  destruct (runVerify_loop _ _ _ _ _ _ _) as [[[[errors invalid] validCount] σ']| |];
    cbn [mbind outcome_bind]; try reflexivity.
  rewrite orb_comm. reflexivity.
Qed.

(** X29. The exit code of [verify]: when the fuel exceeds the length
    of every file, the command returns, changes no file, and exits
    with 0 or 1; it exits with 0 exactly when there is at least one
    argument, the arguments expand without error and every file of the
    expansion exists and is valid under the configuration chosen for
    it. An expansion to no file at all exits with 0. *)
Theorem runVerify_exit_code (fuel : nat)
    (Glob : string -> option (list string)) (Stat : string -> option bool)
    (style : string) (quiet : bool) (patterns : list string) (σ : world) :
  (forall p f, files σ !! p = Some f -> length (f_data f) < fuel) ->
  exists code σ',
    runVerify fuel Glob Stat style quiet patterns σ = Done (code, σ')
    /\ files σ' = files σ
    /\ (code = 0%Z \/ code = 1%Z)
    /\ (code = 0%Z <->
        patterns <> []
        /\ exists allFiles,
             expandFiles Glob Stat patterns = inl allFiles
             /\ Forall (valid_in fuel style σ) allFiles).
Proof.
  intros Hsize. unfold runVerify.
  destruct patterns as [|p patterns]; cbn [length Nat.eqb].
  { exists 1%Z, σ. split; [reflexivity|]. split; [reflexivity|].
    split; [auto|]. split; [discriminate|]. intros [Hc _]. contradiction. }
  destruct (expandFiles Glob Stat (p :: patterns)) as [allFiles|e].
  2:{ exists 1%Z, σ. split; [reflexivity|]. split; [reflexivity|].
      split; [auto|]. split; [discriminate|].
      intros [_ (all & Hc & _)]. discriminate Hc. }
  destruct (runVerify_loop_total fuel style allFiles [] [] 0 σ Hsize)
    as [[[[errors invalid] validCount] σ'] Hrun].
  rewrite Hrun. cbn [mbind outcome_bind].
  destruct (runVerify_loop_spec fuel style allFiles _ _ _ _ _ _ _ _ Hrun)
    as (Hfs & ne & ni & He & Hi & Hiff).
  cbn [app] in He, Hi. subst errors invalid.
  destruct ne as [|e ne]; destruct ni as [|i ni]; cbn [length Nat.ltb Nat.leb orb].
  - exists 0%Z, σ'. split; [reflexivity|]. split; [exact Hfs|]. split; [auto|].
    split; [|reflexivity]. intros _. split; [discriminate|].
    exists allFiles. split; [reflexivity|]. apply Hiff. auto.
  - exists 1%Z, σ'. split; [reflexivity|]. split; [exact Hfs|]. split; [auto|].
    split; [discriminate|]. intros [_ (all & Hall & HF)]. inversion Hall. subst all.
    apply Hiff in HF. destruct HF as [_ Hc]. discriminate Hc.
  - exists 1%Z, σ'. split; [reflexivity|]. split; [exact Hfs|]. split; [auto|].
    split; [discriminate|]. intros [_ (all & Hall & HF)]. inversion Hall. subst all.
    apply Hiff in HF. destruct HF as [Hc _]. discriminate Hc.
  - exists 1%Z, σ'. split; [reflexivity|]. split; [exact Hfs|]. split; [auto|].
    split; [discriminate|]. intros [_ (all & Hall & HF)]. inversion Hall. subst all.
    apply Hiff in HF. destruct HF as [Hc _]. discriminate Hc.
Qed.

Lemma runVerify_exit_code_witness :
  exists code σ',
    runVerify 100 go_dir_Glob go_dir_Stat "" false ["main.go"]%string one_file_world
      = Done (code, σ')
    /\ files σ' = files one_file_world
    /\ (code = 0%Z \/ code = 1%Z)
    /\ (code = 0%Z <->
        ["main.go"]%string <> []
        /\ exists allFiles,
             expandFiles go_dir_Glob go_dir_Stat ["main.go"]%string = inl allFiles
             /\ Forall (valid_in 100 "" one_file_world) allFiles).
Proof.
  apply (runVerify_exit_code 100 go_dir_Glob go_dir_Stat "" false
           ["main.go"]%string one_file_world).
  intros p f H. unfold one_file_world in H. cbn [files] in H.
  apply lookup_singleton_Some in H. destruct H as [_ <-].
  apply Nat.ltb_lt. vm_compute. reflexivity.
Defined.

Lemma ProcessFile_round_trip (fuel : nat) (config : Config) (path tmpName : string)
    (σ : world) (f : file) :
  files σ !! path = Some f ->
  files σ !! tmpName = None ->
  round_trip fuel config (f_data f) = Done (inl true) ->
  exists σ' f',
    ProcessFile fuel (NewWriter config) path tmpName σ = Done (None, σ')
    /\ files σ' = <[path := f']> (files σ)
    /\ verifyStream fuel (NewReader config) (file_source (f_data f')) = Done (inl true).
Proof.
  intros Hfile Htmp Hrt. unfold round_trip in Hrt.
  destruct (processStream fuel (NewWriter config) (file_source (f_data f)))
    as [[b out]| |] eqn:HP; cbn [mbind outcome_bind] in Hrt; try discriminate Hrt.
  destruct b.
  - pose proof (processStream_noop_output _ _ _ _ HP) as E. cbn [data file_source] in E.
    subst out.
    destruct (ProcessFile_noop fuel _ path tmpName σ f _ Hfile Htmp HP) as (σ' & H1 & H2).
    exists σ', f. split; [exact H1|]. split; [|exact Hrt].
    rewrite H2. symmetry. apply insert_id. exact Hfile.
  - destruct (ProcessFile_modified fuel _ path tmpName σ f out Hfile Htmp HP)
      as (σ' & H1 & H2 & _).
    exists σ', (replaced f out σ). split; [exact H1|]. split; [exact H2|exact Hrt].
Qed.

Lemma runAdd_loop_round_trip (fuel : nat) (tmp : string -> string) (style : string)
    (allFiles : list string) :
  forall errors successCount σ,
    NoDup allFiles ->
    (forall p, p ∈ allFiles ->
       exists f, files σ !! p = Some f
                 /\ round_trip fuel (getConfig p style) (f_data f) = Done (inl true)
                 /\ files σ !! tmp p = None /\ tmp p ∉ allFiles) ->
    exists σ',
      runAdd_loop fuel tmp style allFiles errors successCount σ
        = Done (errors, successCount + length allFiles, σ')
      /\ Forall (valid_in fuel style σ') allFiles
      /\ forall p, p ∉ allFiles -> files σ' !! p = files σ !! p.
Proof.
  induction allFiles as [|file rest IH]; intros errors successCount σ Hnd Hall.
  - exists σ. cbn [runAdd_loop length]. rewrite Nat.add_0_r.
    split; [reflexivity|]. split; [constructor|reflexivity].
  - apply NoDup_cons in Hnd. destruct Hnd as [Hnin Hnd].
    destruct (Hall file ltac:(left)) as (f & Hf & Hrt & Htmp & Htnin).
    destruct (ProcessFile_round_trip fuel _ file (tmp file) σ f Hf Htmp Hrt)
      as (σ1 & f' & H1 & Hfs1 & Hv).
    destruct (IH errors (successCount + 1) σ1 Hnd) as (σ' & H2 & Hvalid & Hframe).
    { intros p Hp. destruct (Hall p ltac:(right; exact Hp)) as (g & Hg & Hrtg & Htg & Htn).
      assert (p <> file) by (intros ->; contradiction).
      assert (tmp p <> file) by (intros E; apply Htn; rewrite E; left).
      exists g. rewrite Hfs1, !lookup_insert_ne by congruence.
      split; [exact Hg|]. split; [exact Hrtg|]. split; [exact Htg|].
      intros Hc. apply Htn. right. exact Hc. }
    exists σ'. cbn [runAdd_loop]. rewrite H1. cbn [mbind outcome_bind]. rewrite H2.
    replace (successCount + length (file :: rest)) with (successCount + 1 + length rest)
      by (cbn [length]; lia).
    split; [reflexivity|]. split.
    + constructor; [|exact Hvalid].
      exists f'. split; [|exact Hv].
      rewrite Hframe by exact Hnin. rewrite Hfs1. apply lookup_insert_eq.
    + intros p Hp. apply not_elem_of_cons in Hp. destruct Hp as [Hp1 Hp2].
      rewrite Hframe by exact Hp2. rewrite Hfs1. apply lookup_insert_ne. congruence.
Qed.

Lemma runVerify_loop_valid (fuel : nat) (style : string) (allFiles : list string) :
  forall errors invalid validCount σ,
    Forall (valid_in fuel style σ) allFiles ->
    exists σ',
      runVerify_loop fuel style allFiles errors invalid validCount σ
        = Done (errors, invalid, validCount + length allFiles, σ')
      /\ files σ' = files σ.
Proof.
  induction allFiles as [|file rest IH]; intros errors invalid validCount σ Hall.
  - exists σ. cbn [runVerify_loop length]. rewrite Nat.add_0_r. split; reflexivity.
  - inversion Hall as [|? ? (f & Hf & Hv) Hrest]. subst.
    cbn [runVerify_loop].
    rewrite (VerifyFile_run fuel _ file σ f true Hf Hv). cbn [mbind outcome_bind negb].
    destruct (IH errors invalid (validCount + 1) (log (SysOpen file) σ) Hrest)
      as (σ' & H & Hfs).
    exists σ'. rewrite H.
    replace (validCount + length (file :: rest)) with (validCount + 1 + length rest)
      by (cbn [length]; lia).
    split; [reflexivity|exact Hfs].
Qed.

(** X30. [add], then [verify]: if the arguments expand to files that
    exist, each with content on which stamping and verifying agree
    under its configuration, and the temporary names are free and
    differ from the targets, then [add] exits with 0, [verify] on the
    same arguments afterwards exits with 0, in quiet mode or not, and
    no path outside the expansion has changed. *)
Theorem runAdd_then_runVerify (fuel : nat)
    (Glob : string -> option (list string)) (Stat : string -> option bool)
    (tmp : string -> string) (style : string) (quiet : bool)
    (patterns allFiles : list string) (σ : world) :
  patterns <> [] ->
  expandFiles Glob Stat patterns = inl allFiles ->
  (forall p, p ∈ allFiles ->
     exists f, files σ !! p = Some f
               /\ round_trip fuel (getConfig p style) (f_data f) = Done (inl true)
               /\ files σ !! tmp p = None /\ tmp p ∉ allFiles) ->
  exists σ1 σ2,
    runAdd fuel Glob Stat tmp style patterns σ = Done (0%Z, σ1)
    /\ runVerify fuel Glob Stat style quiet patterns σ1 = Done (0%Z, σ2)
    /\ files σ2 = files σ1
    /\ forall p, p ∉ allFiles -> files σ1 !! p = files σ !! p.
Proof.
  intros Hne Hexp Hall.
  assert (Hnd : NoDup allFiles).
  { apply (expand_loop_spec Glob Stat patterns _ allFiles seen_inv_initial Hexp). }
  destruct (runAdd_loop_round_trip fuel tmp style allFiles [] 0 σ Hnd Hall)
    as (σ1 & H1 & Hvalid & Hframe).
  destruct (runVerify_loop_valid fuel style allFiles [] [] 0 σ1 Hvalid)
    as (σ2 & H2 & Hfs2).
  exists σ1, σ2. unfold runAdd, runVerify.
  destruct patterns as [|p patterns]; [contradiction|]. cbn [length Nat.eqb].
  rewrite Hexp, H1, H2. cbn [mbind outcome_bind length Nat.ltb Nat.leb orb].
  split; [reflexivity|]. split; [reflexivity|]. split; [exact Hfs2|exact Hframe].
Qed.

Lemma runAdd_then_runVerify_witness :
  exists σ1 σ2,
    runAdd 50 go_dir_Glob go_dir_Stat (fun _ => "src/.hashfile_1.tmp"%string) ""
      ["src/hello.py"]%string py_world = Done (0%Z, σ1)
    /\ runVerify 50 go_dir_Glob go_dir_Stat "" true ["src/hello.py"]%string σ1
       = Done (0%Z, σ2)
    /\ files σ2 = files σ1
    /\ forall p, p ∉ ["src/hello.py"]%string -> files σ1 !! p = files py_world !! p.
Proof.
  apply (runAdd_then_runVerify 50 go_dir_Glob go_dir_Stat
           (fun _ => "src/.hashfile_1.tmp"%string) "" true
           ["src/hello.py"]%string ["src/hello.py"]%string py_world).
  - discriminate.
  - vm_compute. reflexivity.
  - intros p Hp. apply list_elem_of_singleton in Hp. subst p.
    exists hello_py. split; [vm_compute; reflexivity|].
    split; [vm_compute; reflexivity|]. split; [vm_compute; reflexivity|].
    apply (bool_decide_unpack _). vm_compute. exact I.
Defined.
